(** * UniFi Protect API client (protect-api.ts): a shallow embedding

    The class [ProtectApi] is embedded as a record of its fields and its
    methods as computations in a small state-and-exception monad.  Everything
    the methods obtain from outside (the clock, the answers of the network,
    the outcome of opening the realtime socket) is read from an [Oracle]; all
    they emit (log lines, network requests, socket operations, timers) is
    appended to a trace.  A method is followed as the one task that runs it
    sees it, from its call to its completion; the one place where tasks meet,
    the latch of [login], has a model of its own ([LoginLatch]).  The
    heartbeat timer of the listener is outside the development. *)

From Stdlib Require Import ZArith List Bool Ascii String Lia.
From stdpp Require Import gmap strings.

Local Open Scope string_scope.
Local Open Scope list_scope.
Local Open Scope Z_scope.

(** ** JavaScript values used by the client *)

(** What a JavaScript statement can complete with: a value or a thrown error. *)
Inductive JsError : Type :=
  | AbortError                              (* error.name === "AbortError" *)
  | FetchError (code message : string)      (* node-fetch, with its error.code *)
  | InvalidJsonError                        (* response.json() on an undecodable body *)
  | TypeError (message : string)
  | OtherError (message : string).

Inductive Completion (A : Type) : Type :=
  | Normal (a : A)
  | Thrown (e : JsError).
Arguments Normal {A} a.
Arguments Thrown {A} e.

(** [s.split(sep)] for a one-character separator: never empty. *)
Fixpoint split_on (sep : ascii) (s : string) : list string :=
  match s with
  | EmptyString => [EmptyString]
  | String c s' =>
      if Ascii.eqb c sep then EmptyString :: split_on sep s'
      else match split_on sep s' with
           | [] => [String c EmptyString]
           | f :: fs => String c f :: fs
           end
  end.

(** [a.indexOf(x) !== -1] on an array of strings. *)
Definition includes (x : string) (a : list string) : bool :=
  existsb (String.eqb x) a.

(** ** Constants of settings.ts

    The file settings.ts is not part of the sources at hand: its constants are
    parameters of the development.  Intervals are in seconds, as the source
    multiplies them by 1000 before comparing with [Date.now()]. *)
Record Settings : Type := {
  PROTECT_API_ERROR_LIMIT : Z;
  PROTECT_API_RETRY_INTERVAL : Z;
  PROTECT_LOGIN_REFRESH_INTERVAL : Z
}.

(** ** Payloads of protect-types.ts, as far as the client inspects them *)

Record ProtectNvrConfig : Type := {
  nvr_name : string; nvr_type : string; nvr_host : string; nvr_mac : string
}.

Record ProtectNvrUserConfig : Type := {
  user_id : string;
  allPermissions : option (list string)
}.

Record ProtectCameraChannelConfig : Type := {
  channel_id : Z;
  isRtspEnabled : bool
}.

Record ProtectCameraConfig : Type := {
  cam_id : string; cam_mac : string; cam_name : string; cam_type : string;
  cam_host : string; cam_modelKey : string; cam_isManaged : bool;
  cam_channels : option (list ProtectCameraChannelConfig)
}.

Record ProtectNvrBootstrap : Type := {
  authUserId : string;
  cameras : option (list ProtectCameraConfig);
  lastUpdateId : option string;
  nvr : option ProtectNvrConfig;
  users : option (list ProtectNvrUserConfig)
}.

(** A decoded JSON body.  The casts [as ProtectNvrBootstrap] and
    [as ProtectCameraConfig] of the source are unchecked, so one type holds
    whatever the server answered. *)
Inductive JsonValue : Type :=
  | JNull
  | JBootstrap (b : ProtectNvrBootstrap)
  | JCamera (c : ProtectCameraConfig).

(** ** Requests and responses *)

Inductive Method : Type := GET | POST | PATCH.

Inductive RequestBody : Type :=
  | BodyCredentials (password username : string)
  | BodyChannels (channels : option (list ProtectCameraChannelConfig))
  | BodyPayload (payload : string).

Record RequestInit : Type := {
  req_method : Method;
  req_body : option RequestBody
}.

Record Response : Type := {
  status : Z;
  statusText : string;
  resp_csrfToken : option string;     (* headers.get("X-CSRF-Token") *)
  resp_setCookie : option string;     (* headers.get("Set-Cookie") *)
  json : option JsonValue             (* None: the body is not JSON *)
}.

(** [response.ok]: the status is in the range 200-299. *)
Definition ok (r : Response) : bool := (200 <=? status r) && (status r <? 300).

(** Truthiness of a string-or-null, as in [if (csrfToken)]. *)
Definition truthy (s : option string) : bool :=
  match s with
  | Some EmptyString | None => false
  | Some _ => true
  end.

(** ** The instance state *)

Definition WebSocket : Type := nat.

Record ProtectApi : Type := {
  apiErrorCount : Z;
  apiLastSuccess : Z;
  bootstrap : option ProtectNvrBootstrap;
  Cameras : option (list ProtectCameraConfig);
  eventListener : option WebSocket;
  eventListenerConfigured : bool;
  headers : gmap string string;
  isAdminUser : bool;
  loggedIn : bool;
  loginAge : Z;
  nvrAddress : string;
  password : string;
  username : string
}.

Definition set_apiErrorCount (v : Z) (a : ProtectApi) : ProtectApi :=
  {| apiErrorCount := v; apiLastSuccess := apiLastSuccess a; bootstrap := bootstrap a;
     Cameras := Cameras a; eventListener := eventListener a;
     eventListenerConfigured := eventListenerConfigured a; headers := headers a;
     isAdminUser := isAdminUser a; loggedIn := loggedIn a; loginAge := loginAge a;
     nvrAddress := nvrAddress a; password := password a; username := username a |}.

Definition set_apiLastSuccess (v : Z) (a : ProtectApi) : ProtectApi :=
  {| apiErrorCount := apiErrorCount a; apiLastSuccess := v; bootstrap := bootstrap a;
     Cameras := Cameras a; eventListener := eventListener a;
     eventListenerConfigured := eventListenerConfigured a; headers := headers a;
     isAdminUser := isAdminUser a; loggedIn := loggedIn a; loginAge := loginAge a;
     nvrAddress := nvrAddress a; password := password a; username := username a |}.

Definition set_bootstrap (v : option ProtectNvrBootstrap) (a : ProtectApi) : ProtectApi :=
  {| apiErrorCount := apiErrorCount a; apiLastSuccess := apiLastSuccess a; bootstrap := v;
     Cameras := Cameras a; eventListener := eventListener a;
     eventListenerConfigured := eventListenerConfigured a; headers := headers a;
     isAdminUser := isAdminUser a; loggedIn := loggedIn a; loginAge := loginAge a;
     nvrAddress := nvrAddress a; password := password a; username := username a |}.

Definition set_Cameras (v : option (list ProtectCameraConfig)) (a : ProtectApi) : ProtectApi :=
  {| apiErrorCount := apiErrorCount a; apiLastSuccess := apiLastSuccess a; bootstrap := bootstrap a;
     Cameras := v; eventListener := eventListener a;
     eventListenerConfigured := eventListenerConfigured a; headers := headers a;
     isAdminUser := isAdminUser a; loggedIn := loggedIn a; loginAge := loginAge a;
     nvrAddress := nvrAddress a; password := password a; username := username a |}.

Definition set_eventListener (v : option WebSocket) (a : ProtectApi) : ProtectApi :=
  {| apiErrorCount := apiErrorCount a; apiLastSuccess := apiLastSuccess a; bootstrap := bootstrap a;
     Cameras := Cameras a; eventListener := v;
     eventListenerConfigured := eventListenerConfigured a; headers := headers a;
     isAdminUser := isAdminUser a; loggedIn := loggedIn a; loginAge := loginAge a;
     nvrAddress := nvrAddress a; password := password a; username := username a |}.

Definition set_eventListenerConfigured (v : bool) (a : ProtectApi) : ProtectApi :=
  {| apiErrorCount := apiErrorCount a; apiLastSuccess := apiLastSuccess a; bootstrap := bootstrap a;
     Cameras := Cameras a; eventListener := eventListener a;
     eventListenerConfigured := v; headers := headers a;
     isAdminUser := isAdminUser a; loggedIn := loggedIn a; loginAge := loginAge a;
     nvrAddress := nvrAddress a; password := password a; username := username a |}.

Definition set_headers (v : gmap string string) (a : ProtectApi) : ProtectApi :=
  {| apiErrorCount := apiErrorCount a; apiLastSuccess := apiLastSuccess a; bootstrap := bootstrap a;
     Cameras := Cameras a; eventListener := eventListener a;
     eventListenerConfigured := eventListenerConfigured a; headers := v;
     isAdminUser := isAdminUser a; loggedIn := loggedIn a; loginAge := loginAge a;
     nvrAddress := nvrAddress a; password := password a; username := username a |}.

Definition set_isAdminUser (v : bool) (a : ProtectApi) : ProtectApi :=
  {| apiErrorCount := apiErrorCount a; apiLastSuccess := apiLastSuccess a; bootstrap := bootstrap a;
     Cameras := Cameras a; eventListener := eventListener a;
     eventListenerConfigured := eventListenerConfigured a; headers := headers a;
     isAdminUser := v; loggedIn := loggedIn a; loginAge := loginAge a;
     nvrAddress := nvrAddress a; password := password a; username := username a |}.

Definition set_loggedIn (v : bool) (a : ProtectApi) : ProtectApi :=
  {| apiErrorCount := apiErrorCount a; apiLastSuccess := apiLastSuccess a; bootstrap := bootstrap a;
     Cameras := Cameras a; eventListener := eventListener a;
     eventListenerConfigured := eventListenerConfigured a; headers := headers a;
     isAdminUser := isAdminUser a; loggedIn := v; loginAge := loginAge a;
     nvrAddress := nvrAddress a; password := password a; username := username a |}.

Definition set_loginAge (v : Z) (a : ProtectApi) : ProtectApi :=
  {| apiErrorCount := apiErrorCount a; apiLastSuccess := apiLastSuccess a; bootstrap := bootstrap a;
     Cameras := Cameras a; eventListener := eventListener a;
     eventListenerConfigured := eventListenerConfigured a; headers := headers a;
     isAdminUser := isAdminUser a; loggedIn := loggedIn a; loginAge := v;
     nvrAddress := nvrAddress a; password := password a; username := username a |}.

(** ** Effects: the trace and the oracle *)

Inductive LogMsg : Type :=
  | MsgThrottling (nvrName : string) (count : Z)
  | MsgResuming (nvrName : string)
  | MsgInvalidCredentials
  | MsgInsufficientPrivileges
  | MsgApiAccessError (st : Z) (text : string)
  | MsgTimeout (nvrName : string)
  | MsgConnRefused (nvrName : string)
  | MsgConnReset (nvrName : string)
  | MsgNotFound (nvrName : string)
  | MsgFetchError (message : string)
  | MsgNoConfiguration (nvrName : string)
  | MsgUnparsable (nvrName : string)
  | MsgNoCameras (nvrName : string)
  | MsgConnected (nvrName host mac : string)
  | MsgAdminRequired (nvrName user : string)
  | MsgRoleChange (nvrName user : string) (enabled : bool)
  | MsgListenerUnable
  | MsgListenerError (nvrName : string) (e : JsError)
  | MsgListenerConnected (nvrName : string)
  | MsgDiscovered (nvrName modelKey deviceName : string)
  | MsgRtspPrivileges (fullName : string)
  | MsgRtspFailed (fullName : string) (st : option Z)
  | MsgCameraFailed (fullName : string) (st : option Z).

Inductive Event : Type :=
  | EvInfo (m : LogMsg)                   (* this.log.info *)
  | EvError (m : LogMsg)                  (* this.log.error *)
  | EvDebug (what : string)               (* this.debug *)
  | EvSetTimeout                          (* the abort timer of fetch *)
  | EvClearTimeout
  | EvFetch (url : string) (init : RequestInit) (hdrs : gmap string string)
  | EvSocketOpen (url cookie : string)    (* new WebSocket(url, { headers: { Cookie } }) *)
  | EvSocketHandlers (ws : WebSocket)     (* the five .on(...) registrations *)
  | EvSocketTerminate (ws : WebSocket).

(** The outside world.  [now_at i] is the i-th reading of [Date.now()],
    [net_at i] the completion of the i-th call of node-fetch, [socket_at i]
    the completion of the i-th [new WebSocket]; a socket completion of
    [Normal None] stands for the falsy handle the source guards against. *)
Record Oracle : Type := {
  now_at : nat -> Z;
  net_at : nat -> Completion Response;
  socket_at : nat -> Completion (option WebSocket)
}.

Record Machine : Type := {
  api : ProtectApi;
  clockReads : nat;
  netCalls : nat;
  socketOpens : nat;
  trace : list Event
}.

Definition with_api (a : ProtectApi) (m : Machine) : Machine :=
  {| api := a; clockReads := clockReads m; netCalls := netCalls m;
     socketOpens := socketOpens m; trace := trace m |}.

(** ** The monad of methods *)

Definition M (A : Type) : Type := Oracle -> Machine -> Completion A * Machine.

Definition ret {A} (a : A) : M A := fun _ m => (Normal a, m).

Definition bind {A B} (c : M A) (k : A -> M B) : M B :=
  fun o m =>
    match c o m with
    | (Normal a, m') => k a o m'
    | (Thrown e, m') => (Thrown e, m')
    end.

Definition throw {A} (e : JsError) : M A := fun _ m => (Thrown e, m).

(** [try { c } catch (error) { h error }] *)
Definition try_catch {A} (c : M A) (h : JsError -> M A) : M A :=
  fun o m =>
    match c o m with
    | (Normal a, m') => (Normal a, m')
    | (Thrown e, m') => h e o m'
    end.

(** [try { c } finally { f }], for an [f] that completes normally. *)
Definition try_finally {A} (c : M A) (f : M unit) : M A :=
  fun o m =>
    match c o m with
    | (r, m') => (r, snd (f o m'))
    end.

Notation "'let*' x ':=' c 'in' k" := (bind c (fun x => k))
  (at level 10, x name, c at level 100, k at level 200).
Notation "c ';;' k" := (bind c (fun _ => k))
  (at level 100, k at level 200, right associativity).

Definition get {A} (f : ProtectApi -> A) : M A := fun _ m => (Normal (f (api m)), m).

Definition modify (f : ProtectApi -> ProtectApi) : M unit :=
  fun _ m => (Normal tt, with_api (f (api m)) m).

Definition emit (e : Event) : M unit :=
  fun _ m => (Normal tt,
    {| api := api m; clockReads := clockReads m; netCalls := netCalls m;
       socketOpens := socketOpens m; trace := trace m ++ [e] |}).

(** [Date.now()] *)
Definition Date_now : M Z :=
  fun o m => (Normal (now_at o (clockReads m)),
    {| api := api m; clockReads := S (clockReads m); netCalls := netCalls m;
       socketOpens := socketOpens m; trace := trace m |}).

(** [await fetch(url, options)] of node-fetch: the request goes out with the
    headers of the instance, and the oracle completes it. *)
Definition node_fetch (url : string) (init : RequestInit) : M Response :=
  fun o m =>
    (net_at o (netCalls m),
     {| api := api m; clockReads := clockReads m; netCalls := S (netCalls m);
        socketOpens := socketOpens m;
        trace := trace m ++ [EvFetch url init (headers (api m))] |}).

(** [new WebSocket(url, { headers: { Cookie: cookie }, ... })] *)
Definition new_WebSocket (url cookie : string) : M (option WebSocket) :=
  fun o m =>
    (socket_at o (socketOpens m),
     {| api := api m; clockReads := clockReads m; netCalls := netCalls m;
        socketOpens := S (socketOpens m);
        trace := trace m ++ [EvSocketOpen url cookie] |}).

Definition log_info (msg : LogMsg) : M unit := emit (EvInfo msg).
Definition log_error (msg : LogMsg) : M unit := emit (EvError msg).
Definition debug (what : string) : M unit := emit (EvDebug what).

(** [this.apiErrorCount++] *)
Definition incr_apiErrorCount : M unit :=
  modify (fun a => set_apiErrorCount (apiErrorCount a + 1) a).

(** ** Naming and URL utilities *)

Definition nvrName (a : ProtectApi) : string :=
  match bootstrap a with
  | Some {| nvr := Some n |} => nvr_name n +:+ " [" +:+ nvr_type n +:+ "]"
  | _ => nvrAddress a
  end.

Definition getNvrName : M string := get nvrName.

Arguments nvrName : simpl never.

(** The camera is a record here, so the guard [if (!camera) return ""] of the
    source never fires; [name] defaults to [camera.name] at the call sites. *)
Definition getDeviceName (camera : ProtectCameraConfig) (name : string)
    (cameraInfo : bool) : string :=
  name +:+ " [" +:+ cam_type camera +:+ "]" +:+
  (if cameraInfo
   then " (address: " +:+ cam_host camera +:+ " mac: " +:+ cam_mac camera +:+ ")"
   else "").

Definition getFullName (camera : ProtectCameraConfig) : M string :=
  let cameraName := getDeviceName camera (cam_name camera) false in
  let* nvrName := getNvrName in
  ret (nvrName +:+ (if (0 <? Z.of_nat (String.length cameraName))
                    then " " +:+ cameraName else "")).

Definition camerasUrl : M string :=
  let* a := get nvrAddress in ret ("https://" +:+ a +:+ "/proxy/protect/api/cameras").

Definition authUrl : M string :=
  let* a := get nvrAddress in ret ("https://" +:+ a +:+ "/api/auth/login").

Definition bootstrapUrl : M string :=
  let* a := get nvrAddress in ret ("https://" +:+ a +:+ "/proxy/protect/api/bootstrap").

Definition systemUrl : M string :=
  let* a := get nvrAddress in ret ("wss://" +:+ a +:+ "/api/ws/system").

Definition updatesUrl : M string :=
  let* a := get nvrAddress in ret ("wss://" +:+ a +:+ "/proxy/protect/ws/updates").

(** ** clearLoginCredentials *)

Definition fresh_headers : gmap string string :=
  {[ "Content-Type" := "application/json" ]}.

Definition clearLoginCredentials : M unit :=
  modify (set_isAdminUser false) ;;
  modify (set_loggedIn false) ;;
  modify (set_loginAge 0) ;;
  modify (set_bootstrap None) ;;
  let* listener := get eventListener in
  match listener with
  | Some ws => emit (EvSocketTerminate ws)
  | None => ret tt
  end ;;
  modify (set_eventListener None) ;;
  modify (set_eventListenerConfigured false) ;;
  modify (set_headers fresh_headers).

(** ** fetch *)

Section Client.
Variable cfg : Settings.

(** Lines 657-687 of fetch: the request itself and the classification of the
    response. *)
Definition fetch_request (url : string) (options : RequestInit)
    (decodeResponse : bool) : M (option Response) :=
  let* response := node_fetch url options in
  if negb decodeResponse then ret (Some response)
  else if status response =? 401 then
    log_error MsgInvalidCredentials ;;
    incr_apiErrorCount ;;
    ret None
  else if status response =? 403 then
    incr_apiErrorCount ;;
    log_error MsgInsufficientPrivileges ;;
    ret None
  else if negb (ok response) then
    incr_apiErrorCount ;;
    log_error (MsgApiAccessError (status response) (statusText response)) ;;
    ret None
  else
    let* t := Date_now in
    modify (set_apiLastSuccess t) ;;
    modify (set_apiErrorCount 0) ;;
    ret (Some response).

(** The catch clause of fetch. *)
Definition fetch_catch (logErrors : bool) (error : JsError) : M (option Response) :=
  incr_apiErrorCount ;;
  match error with
  | AbortError =>
      let* name := getNvrName in
      log_error (MsgTimeout name) ;;
      ret None
  | FetchError code message =>
      (if String.eqb code "ECONNREFUSED" then
         let* name := getNvrName in log_error (MsgConnRefused name)
       else if String.eqb code "ECONNRESET" then
         let* name := getNvrName in log_error (MsgConnReset name)
       else if String.eqb code "ENOTFOUND" then
         let* name := getNvrName in log_error (MsgNotFound name)
       else if logErrors then log_error (MsgFetchError message)
       else ret tt) ;;
      ret None
  | _ => ret None
  end.

Definition fetch (url : string) (options : RequestInit)
    (logErrors decodeResponse : bool) : M (option Response) :=
  emit EvSetTimeout ;;
  try_finally
    (try_catch
       (let* now := Date_now in
        let* count := get apiErrorCount in
        if count >=? PROTECT_API_ERROR_LIMIT cfg then
          if count =? PROTECT_API_ERROR_LIMIT cfg then
            let* name := getNvrName in
            log_info (MsgThrottling name count) ;;
            incr_apiErrorCount ;;
            modify (set_apiLastSuccess now) ;;
            ret None
          else
            let* last := get apiLastSuccess in
            if last + PROTECT_API_RETRY_INTERVAL cfg * 1000 >? now then ret None
            else
              let* name := getNvrName in
              log_info (MsgResuming name) ;;
              modify (set_apiErrorCount 0) ;;
              fetch_request url options decodeResponse
        else fetch_request url options decodeResponse)
       (fetch_catch logErrors))
    (emit EvClearTimeout).

(** ** Login *)

(** [headers.has(name)].  The Headers of node-fetch compare names without
    regard to case; the source spells each name one way throughout, and the
    map is keyed by that spelling. *)
Definition has (name : string) (h : gmap string string) : bool :=
  match h !! name with Some _ => true | None => false end.

Definition acquireToken : M bool :=
  let* li := get loggedIn in
  let* h := get headers in
  if li || has "X-CSRF-Token" h || has "Authorization" h then ret true
  else
    let* a := get nvrAddress in
    (* fetch(url, { method: "GET" }, false): logErrors is false and
       decodeResponse keeps its default, true. *)
    let* response := fetch ("https://" +:+ a) {| req_method := GET; req_body := None |}
                       false true in
    match response with
    | Some r =>
        if ok r then
          match resp_csrfToken r with
          | Some csrfToken =>
              if truthy (Some csrfToken) then
                modify (fun x => set_headers (<["X-CSRF-Token" := csrfToken]> (headers x)) x) ;;
                ret true
              else ret false
          | None => ret false
          end
        else ret false
    | None => ret false
    end.

Definition loginWrapped : M bool :=
  let* now := Date_now in
  let* age := get loginAge in
  (if now >? age + PROTECT_LOGIN_REFRESH_INTERVAL cfg * 1000
   then clearLoginCredentials else ret tt) ;;
  let* li := get loggedIn in
  if li then ret true
  else
    let* token := acquireToken in
    if negb token then clearLoginCredentials ;; ret false
    else
      let* url := authUrl in
      let* pw := get password in
      let* un := get username in
      let* response := fetch url {| req_method := POST;
                                    req_body := Some (BodyCredentials pw un) |}
                         true true in
      match response with
      | Some r =>
          if negb (ok r) then clearLoginCredentials ;; ret false
          else
            modify (set_loggedIn true) ;;
            modify (set_loginAge now) ;;
            let* h := get headers in
            match resp_csrfToken r, resp_setCookie r with
            | Some csrfToken, Some cookie =>
                if truthy (Some csrfToken) && truthy (Some cookie) && has "X-CSRF-Token" h
                then
                  modify (fun x => set_headers (<["Cookie" := cookie]> (headers x)) x) ;;
                  modify (fun x => set_headers (<["X-CSRF-Token" := csrfToken]> (headers x)) x) ;;
                  ret true
                else clearLoginCredentials ;; ret false
            | _, _ => clearLoginCredentials ;; ret false
            end
      | None => clearLoginCredentials ;; ret false
      end.

(** [login()] as one task sees it: the latch [pendingLogin] is free when the
    task calls, so the call starts [loginWrapped] and awaits it.  What the
    latch does for several callers at once is the subject of [LoginLatch]
    below. *)
Definition login : M bool := loginWrapped.

(** ** Administrative privileges *)

(** The loop of checkAdminUserStatus over [user.allPermissions]: [Normal b]
    is the value of [newAdminStatus] when the loop is left. *)
Fixpoint scanPermissions (entries : list string) : Completion bool :=
  match entries with
  | [] => Normal false
  | entry :: rest =>
      let permType := split_on ":" entry in
      match permType !! 0%nat with
      | Some permType0 =>
          if negb (String.eqb permType0 "camera") then scanPermissions rest
          else
            match permType !! 1%nat with
            | None =>
                Thrown (TypeError "Cannot read properties of undefined (reading 'split')")
            | Some permType1 =>
                let permissions := split_on "," permType1 in
                if includes "write" permissions then Normal true
                else scanPermissions rest
            end
      | None => scanPermissions rest
      end
  end.

Definition lift {A} (c : Completion A) : M A := fun _ m => (c, m).

Definition checkAdminUserStatus (firstRun : bool) : M bool :=
  let* b := get bootstrap in
  match b with
  | Some {| users := Some us; authUserId := uid |} =>
      let* oldAdminStatus := get isAdminUser in
      let user := List.find (fun x => String.eqb (user_id x) uid) us in
      match user with
      | Some {| allPermissions := Some perms |} =>
          let* newAdminStatus := lift (scanPermissions perms) in
          modify (set_isAdminUser newAdminStatus) ;;
          let* name := getNvrName in
          let* un := get username in
          (if firstRun && negb newAdminStatus then
             log_info (MsgAdminRequired name un)
           else if negb firstRun && negb (Bool.eqb oldAdminStatus newAdminStatus) then
             log_info (MsgRoleChange name un newAdminStatus)
           else ret tt) ;;
          ret true
      | _ => ret false
      end
  | _ => ret false
  end.

(** ** The realtime updates listener *)

Definition launchUpdatesListener : M bool :=
  let* li := login in
  if negb li then ret false
  else
    let* listener := get eventListener in
    match listener with
    | Some _ => ret true
    | None =>
        let* b := get bootstrap in
        let params := "lastUpdateId=" +:+
          match b with
          | Some {| lastUpdateId := Some i |} => i
          | _ => ""
          end in
        let* url := updatesUrl in
        debug "Update listener" ;;
        let* returned :=
          try_catch
            (let* h := get headers in
             let* ws := new_WebSocket (url +:+ "?" +:+ params) (default "" (h !! "Cookie")) in
             match ws with
             | None =>
                 log_error MsgListenerUnable ;;
                 modify (set_eventListener None) ;;
                 modify (set_eventListenerConfigured false) ;;
                 ret (Some false)
             | Some w =>
                 modify (set_eventListener (Some w)) ;;
                 emit (EvSocketHandlers w) ;;
                 let* name := getNvrName in
                 log_info (MsgListenerConnected name) ;;
                 ret None
             end)
            (fun error =>
               let* name := getNvrName in
               log_error (MsgListenerError name error) ;;
               ret None) in
        match returned with
        | Some r => ret r
        | None => ret true
        end
    end.

(** ** Bootstrap and device refresh *)

Definition bootstrap_failed (msg : string -> LogMsg) : M bool :=
  let* name := getNvrName in
  log_error (msg name) ;;
  clearLoginCredentials ;;
  ret false.

Definition bootstrapProtect : M bool :=
  let* li := login in
  if negb li then ret false
  else
    let* url := bootstrapUrl in
    let* response := fetch url {| req_method := GET; req_body := None |} true true in
    match response with
    | None => bootstrap_failed MsgNoConfiguration
    | Some r =>
        if negb (ok r) then bootstrap_failed MsgNoConfiguration
        else
          let* data :=
            try_catch
              (match json r with
               | Some v => ret v
               | None => throw InvalidJsonError
               end)
              (fun _ =>
                 let* name := getNvrName in
                 log_error (MsgUnparsable name) ;;
                 ret JNull) in
          match data with
          | JBootstrap ({| cameras := Some _ |} as d) =>
              let* old := get bootstrap in
              let firstRun := match old with Some _ => false | None => true end in
              modify (set_bootstrap (Some d)) ;;
              (if firstRun then
                 let* name := getNvrName in
                 match nvr d with
                 | Some n => log_info (MsgConnected name (nvr_host n) (nvr_mac n))
                 | None =>
                     throw (TypeError "Cannot read properties of undefined (reading 'host')")
                 end
               else ret tt) ;;
              debug "bootstrap" ;;
              checkAdminUserStatus firstRun ;;
              launchUpdatesListener
          | _ => bootstrap_failed MsgNoCameras
          end
    end.

(** [for (const x of l) { body x }] *)
Fixpoint for_of {A} (l : list A) (body : A -> M unit) : M unit :=
  match l with
  | [] => ret tt
  | x :: l' => body x ;; for_of l' body
  end.

(** [list?.some(x => x.mac === mac)], falsy when the list is undefined. *)
Definition some_mac (l : option (list ProtectCameraConfig)) (mac : string) : bool :=
  match l with
  | Some cs => existsb (fun x => String.eqb (cam_mac x) mac) cs
  | None => false
  end.

Definition refreshDevices : M bool :=
  let* good := bootstrapProtect in
  if negb good then ret false
  else
    debug "bootstrap" ;;
    let* b := get bootstrap in
    let newDeviceList := match b with Some d => cameras d | None => None end in
    let* known := get Cameras in
    match newDeviceList with
    | Some l =>
        for_of l (fun newDevice =>
          if some_mac known (cam_mac newDevice) then ret tt
          else if negb (cam_isManaged newDevice) then ret tt
          else
            let* name := getNvrName in
            log_info (MsgDiscovered name (cam_modelKey newDevice)
                        (getDeviceName newDevice (cam_name newDevice) true)) ;;
            debug "device")
    | None => ret tt
    end ;;
    match known with
    | Some l =>
        for_of l (fun existingDevice =>
          if some_mac newDeviceList (cam_mac existingDevice) then ret tt
          else
            let* full := getFullName existingDevice in
            debug (full +:+ ": removal") ;;
            debug "device")
    | None => ret tt
    end ;;
    modify (set_Cameras newDeviceList) ;;
    ret true.

(** ** Camera operations *)

Definition checkCameraState (device : ProtectCameraConfig) : M bool :=
  let* li := login in
  if negb li then ret false
  else
    let* admin := get isAdminUser in
    if negb admin then ret false
    else if negb (String.eqb (cam_modelKey device) "camera") then ret false
    else ret true.

(** [await response.json()] *)
Definition response_json (r : Response) : M JsonValue :=
  match json r with
  | Some v => ret v
  | None => throw InvalidJsonError
  end.

Definition updateChannels (device : ProtectCameraConfig) : M JsonValue :=
  let* good := checkCameraState device in
  if negb good then ret JNull
  else
    let* url := camerasUrl in
    let* response := fetch (url +:+ "/" +:+ cam_id device)
                       {| req_method := PATCH;
                          req_body := Some (BodyChannels (cam_channels device)) |}
                       true false in
    match response with
    | Some r =>
        if ok r then
          modify (set_apiErrorCount 0) ;;
          let* t := Date_now in
          modify (set_apiLastSuccess t) ;;
          response_json r
        else
          incr_apiErrorCount ;;
          let* full := getFullName device in
          (if status r =? 403 then log_error (MsgRtspPrivileges full)
           else log_error (MsgRtspFailed full (Some (status r)))) ;;
          ret (JCamera device)
    | None =>
        incr_apiErrorCount ;;
        let* full := getFullName device in
        log_error (MsgRtspFailed full None) ;;
        ret (JCamera device)
    end.

Definition with_channels (chs : option (list ProtectCameraChannelConfig))
    (c : ProtectCameraConfig) : ProtectCameraConfig :=
  {| cam_id := cam_id c; cam_mac := cam_mac c; cam_name := cam_name c;
     cam_type := cam_type c; cam_host := cam_host c; cam_modelKey := cam_modelKey c;
     cam_isManaged := cam_isManaged c; cam_channels := chs |}.

Definition enableRtsp (device : ProtectCameraConfig) : M JsonValue :=
  let* good := checkCameraState device in
  if negb good then ret JNull
  else
    match cam_channels device with
    | Some chs =>
        if negb (existsb (fun channel => negb (isRtspEnabled channel)) chs)
        then ret (JCamera device)
        else
          let chs' := map (fun channel =>
                             {| channel_id := channel_id channel; isRtspEnabled := true |})
                          chs in
          updateChannels (with_channels (Some chs') device)
    | None => ret (JCamera device)
    end.

Definition updateCamera (device : option ProtectCameraConfig) (payload : string)
    : M JsonValue :=
  match device with
  | None => ret JNull
  | Some d =>
      let* li := login in
      if negb li then ret JNull
      else
        let* admin := get isAdminUser in
        if negb admin then ret JNull
        else
          let* full := getFullName d in
          debug full ;;
          let* url := camerasUrl in
          let* response := fetch (url +:+ "/" +:+ cam_id d)
                             {| req_method := PATCH;
                                req_body := Some (BodyPayload payload) |}
                             true true in
          match response with
          | Some r =>
              if ok r then response_json r
              else
                let* full' := getFullName d in
                log_error (MsgCameraFailed full' (Some (status r))) ;;
                ret JNull
          | None =>
              let* full' := getFullName d in
              log_error (MsgCameraFailed full' None) ;;
              ret JNull
          end
  end.

Definition isAllRtspConfigured : M bool :=
  let* b := get bootstrap in
  ret match b with
      | Some {| cameras := Some cs |} =>
          existsb (fun camera =>
                     match cam_channels camera with
                     | Some chs => existsb (fun channel => negb (isRtspEnabled channel)) chs
                     | None => false
                     end) cs
      | _ => false
      end.

Definition loginFetch (url : string) (options : RequestInit)
    (logErrors decodeResponse : bool) : M (option Response) :=
  let* li := login in
  if negb li then ret None
  else fetch url options logErrors decodeResponse.

End Client.

Arguments truthy : simpl nomatch.
Arguments has : simpl never.
Arguments clearLoginCredentials : simpl never.
Arguments fetch : simpl never.
Arguments acquireToken : simpl never.
Arguments loginWrapped : simpl never.
Arguments login : simpl never.
Arguments checkAdminUserStatus : simpl never.
Arguments launchUpdatesListener : simpl never.
Arguments bootstrap_failed : simpl never.
Arguments bootstrapProtect : simpl never.
Arguments refreshDevices : simpl never.
Arguments checkCameraState : simpl never.
Arguments updateChannels : simpl never.
Arguments getFullName : simpl never.

(** ** The login latch

    [login()] is the one place where several tasks of the event loop meet.
    Its body runs in one turn of the loop; [loginWrapped()] hands back its
    promise at its first await (or already settled), the promise is stored in
    [pendingLogin], and the callback given to [finally] runs in a later turn,
    once the promise has settled.  The latch is modelled on its own, with a
    run of [loginWrapped] reduced to the promise it returns and the moment it
    settles. *)
Module LoginLatch.

Definition Promise : Type := nat.

Record State : Type := {
  pendingLogin : option Promise;               (* this.pendingLogin *)
  started : nat;                               (* runs of loginWrapped() so far *)
  settled : gmap Promise (Completion bool);    (* the promises that have settled *)
  reactions : list Promise                     (* finally-callbacks still to run *)
}.

Definition init : State :=
  {| pendingLogin := None; started := 0; settled := ∅; reactions := [] |}.

(** Lines 156-163: the promise handed to the caller, and the state after. *)
Definition login (s : State) : Promise * State :=
  match pendingLogin s with
  | None =>
      let p := started s in
      (p, {| pendingLogin := Some p; started := S (started s);
             settled := settled s; reactions := p :: reactions s |})
  | Some p => (p, s)
  end.

(** The callback [() => this.pendingLogin = undefined]. *)
Definition run_finally (p : Promise) (s : State) : State :=
  {| pendingLogin := None; started := started s; settled := settled s;
     reactions := List.filter (fun q => negb (Nat.eqb q p)) (reactions s) |}.

Definition settle (p : Promise) (r : Completion bool) (s : State) : State :=
  {| pendingLogin := pendingLogin s; started := started s;
     settled := <[p := r]> (settled s); reactions := reactions s |}.

(** What the event loop may do next. *)
Inductive Turn : Type :=
  | CallLogin                                   (* some task calls login() *)
  | Settle (p : Promise) (r : Completion bool)  (* a run of loginWrapped ends *)
  | RunFinally (p : Promise).                   (* the callback of p runs *)

(** A run [p] is in flight from its start until it settles. *)
Definition in_flight (s : State) (p : Promise) : Prop :=
  (p < started s)%nat /\ settled s !! p = None.

(** One turn; [None] when the turn cannot happen in this state: a promise
    settles once, and its callback runs once, after it has settled. *)
Definition turn (s : State) (t : Turn) : option State :=
  match t with
  | CallLogin => Some (snd (login s))
  | Settle p r =>
      if bool_decide ((p < started s)%nat /\ settled s !! p = None)
      then Some (settle p r s) else None
  | RunFinally p =>
      if bool_decide (p ∈ reactions s /\ is_Some (settled s !! p))
      then Some (run_finally p s) else None
  end.

Fixpoint turns (s : State) (ts : list Turn) : option State :=
  match ts with
  | [] => Some s
  | t :: ts' =>
      match turn s t with
      | Some s' => turns s' ts'
      | None => None
      end
  end.

(** [n] callers in a row, none of them interrupted by a settlement: the
    promises they are handed, and the state after the last. *)
Fixpoint logins (n : nat) (s : State) : list Promise * State :=
  match n with
  | O => ([], s)
  | S n' =>
      let (p, s') := login s in
      let (ps, s'') := logins n' s' in
      (p :: ps, s'')
  end.

(** What a caller awaiting [p] observes, once [p] has settled. *)
Definition observed (s : State) (p : Promise) : option (Completion bool) :=
  settled s !! p.

(** What holds of the latch in every turn of the loop. *)
Record Inv (s : State) : Prop := {
  inv_reactions :
    reactions s = match pendingLogin s with Some p => [p] | None => [] end;
  inv_in_flight : forall p, in_flight s p -> pendingLogin s = Some p;
  inv_pending : forall p, pendingLogin s = Some p -> (p < started s)%nat;
  inv_settled : forall p r, settled s !! p = Some r -> (p < started s)%nat
}.

End LoginLatch.

(** ** Vocabulary of the statements *)

(** The events that are network I/O. *)
Definition is_network (e : Event) : bool :=
  match e with
  | EvFetch _ _ _ | EvSocketOpen _ _ => true
  | _ => false
  end.

Definition network_io (t : list Event) : list Event := List.filter is_network t.

(** The error budget of an instance. *)
Definition budget (a : ProtectApi) : Z * Z := (apiErrorCount a, apiLastSuccess a).

(** The session of an instance: what clearLoginCredentials resets. *)
Definition session (a : ProtectApi)
    : bool * Z * bool * option ProtectNvrBootstrap * option WebSocket * bool
      * gmap string string :=
  (loggedIn a, loginAge a, isAdminUser a, bootstrap a, eventListener a,
   eventListenerConfigured a, headers a).

Definition cleared_session
    : bool * Z * bool * option ProtectNvrBootstrap * option WebSocket * bool
      * gmap string string :=
  (false, 0, false, None, None, false, fresh_headers).

(** recordOutcome of the specification, section 4.1, in its own words: on
    success the counter is reset to zero and the time recorded, on failure the
    counter is incremented. *)
Definition recordOutcome (success : bool) (now : Z) (b : Z * Z) : Z * Z :=
  if success then (0, now) else (fst b + 1, snd b).

(** The instance as fetch finds it once the throttle has let the call
    through: lines 633-655 reset the counter when the penalty is over. *)
Definition past_throttle (cfg : Settings) (a : ProtectApi) : ProtectApi :=
  if apiErrorCount a >=? PROTECT_API_ERROR_LIMIT cfg
  then set_apiErrorCount 0 a else a.

(** A permission entry that grants write access to cameras, as the
    specification words it: the first colon-separated field is "camera" and
    the second, split on commas, contains "write". *)
Definition grantsCameraWrite (entry : string) : bool :=
  match split_on ":" entry with
  | f0 :: f1 :: _ => String.eqb f0 "camera" && includes "write" (split_on "," f1)
  | _ => false
  end.

(** Whether lines 633-649 of fetch short-circuit a call made at time [now]. *)
Definition throttled (cfg : Settings) (now : Z) (a : ProtectApi) : bool :=
  (apiErrorCount a >=? PROTECT_API_ERROR_LIMIT cfg) &&
  ((apiErrorCount a =? PROTECT_API_ERROR_LIMIT cfg) ||
   (apiLastSuccess a + PROTECT_API_RETRY_INTERVAL cfg * 1000 >? now)).

(** The machine when a call that is let through reaches line 657. *)
Definition through_throttle (cfg : Settings) (m : Machine) : Machine :=
  {| api := past_throttle cfg (api m);
     clockReads := S (clockReads m); netCalls := netCalls m;
     socketOpens := socketOpens m;
     trace := (trace m ++ [EvSetTimeout]) ++
              (if apiErrorCount (api m) >=? PROTECT_API_ERROR_LIMIT cfg
               then [EvInfo (MsgResuming (nvrName (api m)))] else []) |}.

(** Lines 657-729: the request, its classification, the catch and the
    finally clauses. *)
Definition attempt (url : string) (options : RequestInit)
    (logErrors decodeResponse : bool) : M (option Response) :=
  try_finally
    (try_catch (fetch_request url options decodeResponse) (fetch_catch logErrors))
    (emit EvClearTimeout).

(** Whether the transport call ended in a 2xx response. *)
Definition outcome_success (net : Completion Response) : bool :=
  match net with
  | Normal r => ok r
  | Thrown _ => false
  end.

(** The outcome fetch itself records in the error budget: none when the
    response goes back to the caller undecoded. *)
Definition recorded (decodeResponse : bool) (net : Completion Response) : option bool :=
  match net with
  | Thrown _ => Some false
  | Normal r => if decodeResponse then Some (ok r) else None
  end.

(** What fetch hands back for a transport outcome. *)
Definition answer (decodeResponse : bool) (net : Completion Response) : option Response :=
  match net with
  | Thrown _ => None
  | Normal r => if decodeResponse then (if ok r then Some r else None) else Some r
  end.

(** The error of [permType[1].split(",")] when [permType[1]] is undefined. *)
Definition split_error : JsError :=
  TypeError "Cannot read properties of undefined (reading 'split')".

(** Whether an entry contains a colon, and its first colon-separated field. *)
Definition has_colon (entry : string) : bool :=
  existsb (Ascii.eqb ":") (list_ascii_of_string entry).

Definition first_field (entry : string) : option string :=
  split_on ":" entry !! 0%nat.

(** What checkAdminUserStatus logs: on the first run the initial
    determination (a line only for a user who is not admin), afterwards a role
    change, when there is one. *)
Definition role_report (firstRun old new : bool) (nvrName user : string) : list Event :=
  if firstRun then
    (if new then [] else [EvInfo (MsgAdminRequired nvrName user)])
  else if Bool.eqb old new then []
  else [EvInfo (MsgRoleChange nvrName user new)].

(** The entries the loop of checkAdminUserStatus goes through before it
    meets one that grants camera write, at which it breaks. *)
Fixpoint before_grant (perms : list string) : list string :=
  match perms with
  | [] => []
  | entry :: rest =>
      if grantsCameraWrite entry then [] else entry :: before_grant rest
  end.

(** [firstRun] as bootstrapProtect computes it, line 203, before it stores
    the payload: whether the instance holds no bootstrap. *)
Definition first_run (a : ProtectApi) : bool :=
  match bootstrap a with Some _ => false | None => true end.

(** Whether a decoded body carries a camera device list. *)
Definition has_device_list (v : JsonValue) : bool :=
  match v with
  | JBootstrap {| cameras := Some _ |} => true
  | _ => false
  end.

(** The three ways the bootstrap fetch can fail: no ok response, a body that
    is not JSON, a payload without a device list. *)
Inductive BootstrapFailure : option Response -> Prop :=
  | NoResponse : BootstrapFailure None
  | NotOk r : ok r = false -> BootstrapFailure (Some r)
  | Undecodable r : ok r = true -> json r = None -> BootstrapFailure (Some r)
  | NoDeviceList r v :
      ok r = true -> json r = Some v -> has_device_list v = false ->
      BootstrapFailure (Some r).

(** The machine after clearLoginCredentials. *)
Definition cleared (m : Machine) : Machine :=
  {| api := set_headers fresh_headers
              (set_eventListenerConfigured false
                 (set_eventListener None
                    (set_bootstrap None
                       (set_loginAge 0
                          (set_loggedIn false (set_isAdminUser false (api m)))))));
     clockReads := clockReads m; netCalls := netCalls m;
     socketOpens := socketOpens m;
     trace := trace m ++ match eventListener (api m) with
                         | Some ws => [EvSocketTerminate ws]
                         | None => []
                         end |}.

(** The machine after one reading of the clock. *)
Definition tick (m : Machine) : Machine :=
  {| api := api m; clockReads := S (clockReads m); netCalls := netCalls m;
     socketOpens := socketOpens m; trace := trace m |}.

(** ** Sample data *)

Definition cfg0 : Settings :=
  {| PROTECT_API_ERROR_LIMIT := 10; PROTECT_API_RETRY_INTERVAL := 300;
     PROTECT_LOGIN_REFRESH_INTERVAL := 1800 |}.

(** The instance as the constructor leaves it. *)
Definition new_ProtectApi (address user pass : string) : ProtectApi :=
  {| apiErrorCount := 0; apiLastSuccess := 0; bootstrap := None; Cameras := None;
     eventListener := None; eventListenerConfigured := false;
     headers := fresh_headers; isAdminUser := false; loggedIn := false;
     loginAge := 0; nvrAddress := address; password := pass; username := user |}.

Definition api0 : ProtectApi := new_ProtectApi "nvr.local" "admin" "secret".

Definition machine_of (a : ProtectApi) : Machine :=
  {| api := a; clockReads := 0; netCalls := 0; socketOpens := 0; trace := [] |}.

Definition response_of (st : Z) (body : option JsonValue) : Response :=
  {| status := st; statusText := ""; resp_csrfToken := Some "token";
     resp_setCookie := Some "cookie"; json := body |}.

(** An oracle whose clock always reads [now], whose network always answers
    [net] and whose sockets always open as [sock]. *)
Definition steady (now : Z) (net : Completion Response)
    (sock : Completion (option WebSocket)) : Oracle :=
  {| now_at := fun _ => now; net_at := fun _ => net; socket_at := fun _ => sock |}.

Definition get_options : RequestInit := {| req_method := GET; req_body := None |}.

(** A logged-in instance with a live listener. *)
Definition api_logged_in : ProtectApi :=
  set_eventListener (Some 7%nat)
    (set_headers (<["Cookie" := "cookie"]> (<["X-CSRF-Token" := "token"]> fresh_headers))
       (set_loginAge 1000 (set_loggedIn true api0))).

(** An instance past the error limit, throttled since time 0. *)
Definition api_throttled : ProtectApi := set_apiErrorCount 11 api0.

(** A logged-in instance with three failures behind it. *)
Definition api_three_errors : ProtectApi := set_apiErrorCount 3 api_logged_in.

(** A bootstrap payload with one user, the authenticated one. *)
Definition bootstrap_of (perms : list string) : ProtectNvrBootstrap :=
  {| authUserId := "u1"; cameras := Some []; lastUpdateId := Some "42";
     nvr := Some {| nvr_name := "NVR"; nvr_type := "UNVR"; nvr_host := "10.0.0.2";
                    nvr_mac := "AABBCCDDEEFF" |};
     users := Some [ {| user_id := "u0"; allPermissions := None |};
                     {| user_id := "u1"; allPermissions := Some perms |} ] |}.

Definition api_bootstrapped (perms : list string) : ProtectApi :=
  set_bootstrap (Some (bootstrap_of perms)) api_logged_in.

Definition camera0 : ProtectCameraConfig :=
  {| cam_id := "c1"; cam_mac := "001122334455"; cam_name := "Door";
     cam_type := "UVC G3"; cam_host := "10.0.0.9"; cam_modelKey := "camera";
     cam_isManaged := true;
     cam_channels := Some [ {| channel_id := 0; isRtspEnabled := false |} ] |}.

(** A logged-in administrator. *)
Definition api_admin : ProtectApi := set_isAdminUser true api_logged_in.

(** An administrator with a stored bootstrap, logged in at time 1000. *)
Definition api_admin_bootstrapped : ProtectApi :=
  set_isAdminUser true (api_bootstrapped ["camera:write,read:*"]).

(** ** Vocabulary of the further properties *)

(** ** Frames and exceptions of a computation *)

(** The computation leaves the part [proj] of the machine as it found it,
    whatever it completes with. *)
Definition Frames {A X} (proj : Machine -> X) (c : M A) : Prop :=
  forall o m, proj (snd (c o m)) = proj m.

(** The computation throws nothing but errors in [E]. *)
Definition ThrowsOnly {A} (E : JsError -> Prop) (c : M A) : Prop :=
  forall o m e, fst (c o m) = Thrown e -> E e.

Definition nothing : JsError -> Prop := fun _ => False.

(** What the constructor is given, and the device list last announced. *)
Definition identity (m : Machine) : string * string * string
                                    * option (list ProtectCameraConfig) :=
  (nvrAddress (api m), username (api m), password (api m), Cameras (api m)).

Definition host_error : JsError :=
  TypeError "Cannot read properties of undefined (reading 'host')".


(** [n] calls of fetch in a row, with their results. *)
Fixpoint fetch_times (cfg : Settings) (n : nat) (url : string) (options : RequestInit)
    (logErrors decodeResponse : bool) : M (list (option Response)) :=
  match n with
  | O => ret []
  | S n' =>
      let* r := fetch cfg url options logErrors decodeResponse in
      let* rs := fetch_times cfg n' url options logErrors decodeResponse in
      ret (r :: rs)
  end.

(** An oracle whose clock reads [t1], [t2], [t3], [t4] and then [t4] for
    ever. *)
Definition clock_of (t1 t2 t3 t4 : Z) (net : Completion Response)
    (sock : Completion (option WebSocket)) : Oracle :=
  {| now_at := fun i => match i with
                        | O => t1 | 1%nat => t2 | 2%nat => t3 | _ => t4
                        end;
     net_at := fun _ => net; socket_at := fun _ => sock |}.


(** The computation only adds to the trace. *)
Definition Grows {A} (c : M A) : Prop :=
  forall o m, exists evs, trace (snd (c o m)) = trace m ++ evs.

(** What a bootstrap establishes and clearLoginCredentials drops, the headers
    apart. *)
Definition standing (a : ProtectApi)
    : bool * option ProtectNvrBootstrap * option WebSocket * bool :=
  (isAdminUser a, bootstrap a, eventListener a, eventListenerConfigured a).

(** Whether a login at time [now] finds the session too old. *)
Definition expired (cfg : Settings) (now : Z) (a : ProtectApi) : bool :=
  now >? loginAge a + PROTECT_LOGIN_REFRESH_INTERVAL cfg * 1000.


(** Lines 113-153 of loginWrapped: what follows the renewal test, for a call
    that read the clock at [now]. *)
Definition login_after_renewal (cfg : Settings) (now : Z) : M bool :=
  let* li := get loggedIn in
  if li then ret true
  else
    let* token := acquireToken cfg in
    if negb token then clearLoginCredentials ;; ret false
    else
      let* url := authUrl in
      let* pw := get password in
      let* un := get username in
      let* response := fetch cfg url {| req_method := POST;
                                        req_body := Some (BodyCredentials pw un) |}
                         true true in
      match response with
      | Some r =>
          if negb (ok r) then clearLoginCredentials ;; ret false
          else
            modify (set_loggedIn true) ;;
            modify (set_loginAge now) ;;
            let* h := get headers in
            match resp_csrfToken r, resp_setCookie r with
            | Some csrfToken, Some cookie =>
                if truthy (Some csrfToken) && truthy (Some cookie) && has "X-CSRF-Token" h
                then
                  modify (fun x => set_headers (<["Cookie" := cookie]> (headers x)) x) ;;
                  modify (fun x => set_headers (<["X-CSRF-Token" := csrfToken]> (headers x)) x) ;;
                  ret true
                else clearLoginCredentials ;; ret false
            | _, _ => clearLoginCredentials ;; ret false
            end
      | None => clearLoginCredentials ;; ret false
      end.

(** The machine on which the renewal test of loginWrapped leaves a call made
    at machine [m]. *)
Definition renewed (cfg : Settings) (o : Oracle) (m : Machine) : Machine :=
  if expired cfg (now_at o (clockReads m)) (api m) then cleared (tick m) else tick m.


(** Lines 421-448 of updateChannels: the PATCH and what is made of its
    answer, once checkCameraState has let the call through. *)
Definition updateChannels_request (cfg : Settings) (device : ProtectCameraConfig)
    : M JsonValue :=
  let* url := camerasUrl in
  let* response := fetch cfg (url +:+ "/" +:+ cam_id device)
                     {| req_method := PATCH;
                        req_body := Some (BodyChannels (cam_channels device)) |}
                     true false in
  match response with
  | Some r =>
      if ok r then
        modify (set_apiErrorCount 0) ;;
        let* t := Date_now in
        modify (set_apiLastSuccess t) ;;
        response_json r
      else
        incr_apiErrorCount ;;
        let* full := getFullName device in
        (if status r =? 403 then log_error (MsgRtspPrivileges full)
         else log_error (MsgRtspFailed full (Some (status r)))) ;;
        ret (JCamera device)
  | None =>
      incr_apiErrorCount ;;
      let* full := getFullName device in
      log_error (MsgRtspFailed full None) ;;
      ret (JCamera device)
  end.

(** The PATCH events of a trace. *)
Definition is_patch (e : Event) : bool :=
  match e with
  | EvFetch _ {| req_method := PATCH |} _ => true
  | _ => false
  end.

(** The channels as enableRtsp rewrites them. *)
Definition all_enabled (chs : list ProtectCameraChannelConfig)
    : list ProtectCameraChannelConfig :=
  map (fun channel => {| channel_id := channel_id channel; isRtspEnabled := true |}) chs.

(** What checkCameraState answers on the machine login has left. *)
Definition camera_state_ok (device : ProtectCameraConfig) (li : bool) (a : ProtectApi)
    : bool :=
  li && isAdminUser a && String.eqb (cam_modelKey device) "camera".


(** Lines 489-503 of updateCamera: the PATCH and what is made of its answer,
    for a logged-in administrator. *)
Definition updateCamera_request (cfg : Settings) (d : ProtectCameraConfig)
    (payload : string) : M JsonValue :=
  let* full := getFullName d in
  debug full ;;
  let* url := camerasUrl in
  let* response := fetch cfg (url +:+ "/" +:+ cam_id d)
                     {| req_method := PATCH;
                        req_body := Some (BodyPayload payload) |}
                     true true in
  match response with
  | Some r =>
      if ok r then response_json r
      else
        let* full' := getFullName d in
        log_error (MsgCameraFailed full' (Some (status r))) ;;
        ret JNull
  | None =>
      let* full' := getFullName d in
      log_error (MsgCameraFailed full' None) ;;
      ret JNull
  end.

(** The value of [await response.json()]. *)
Definition decoded (r : Response) : Completion JsonValue :=
  match json r with
  | Some v => Normal v
  | None => Thrown InvalidJsonError
  end.

(** The URL of a camera. *)
Definition camera_url (a : ProtectApi) (d : ProtectCameraConfig) : string :=
  ("https://" +:+ nvrAddress a +:+ "/proxy/protect/api/cameras") +:+ "/" +:+ cam_id d.


(** The machine with more events on its trace. *)
Definition say (evs : list Event) (m : Machine) : Machine :=
  {| api := api m; clockReads := clockReads m; netCalls := netCalls m;
     socketOpens := socketOpens m; trace := trace m ++ evs |}.

(** The devices of a new list that refreshDevices announces: managed, and
    with a mac that is not among the known ones. *)
Definition discovered (known : option (list ProtectCameraConfig))
    (l : list ProtectCameraConfig) : list ProtectCameraConfig :=
  List.filter (fun d => negb (some_mac known (cam_mac d)) && cam_isManaged d) l.

(** The known devices whose mac is not in the new list. *)
Definition removed (newDeviceList : option (list ProtectCameraConfig))
    (known : list ProtectCameraConfig) : list ProtectCameraConfig :=
  List.filter (fun d => negb (some_mac newDeviceList (cam_mac d))) known.

(** [getFullName], on the instance. *)
Definition fullName (a : ProtectApi) (camera : ProtectCameraConfig) : string :=
  nvrName a +:+ " " +:+ getDeviceName camera (cam_name camera) false.

Definition announce (a : ProtectApi) (d : ProtectCameraConfig) : list Event :=
  [EvInfo (MsgDiscovered (nvrName a) (cam_modelKey d)
             (getDeviceName d (cam_name d) true));
   EvDebug "device"].

Definition retire (a : ProtectApi) (d : ProtectCameraConfig) : list Event :=
  [EvDebug (fullName a d +:+ ": removal"); EvDebug "device"].

(** The device list of the stored bootstrap. *)
Definition bootstrap_cameras (a : ProtectApi) : option (list ProtectCameraConfig) :=
  match bootstrap a with
  | Some d => cameras d
  | None => None
  end.

Definition camera_A : ProtectCameraConfig :=
  {| cam_id := "a"; cam_mac := "AA"; cam_name := "Yard"; cam_type := "UVC G3";
     cam_host := "10.0.0.10"; cam_modelKey := "camera"; cam_isManaged := true;
     cam_channels := None |}.

Definition camera_B : ProtectCameraConfig :=
  {| cam_id := "b"; cam_mac := "BB"; cam_name := "Gate"; cam_type := "UVC G4";
     cam_host := "10.0.0.11"; cam_modelKey := "camera"; cam_isManaged := true;
     cam_channels := None |}.

Definition camera_C : ProtectCameraConfig :=
  {| cam_id := "c"; cam_mac := "CC"; cam_name := "Roof"; cam_type := "UVC G4";
     cam_host := "10.0.0.12"; cam_modelKey := "camera"; cam_isManaged := true;
     cam_channels := None |}.

(** A bootstrap payload with the given cameras and one administrator. *)
Definition payload_of (cs : list ProtectCameraConfig) : ProtectNvrBootstrap :=
  {| authUserId := "u1"; cameras := Some cs; lastUpdateId := Some "42";
     nvr := Some {| nvr_name := "NVR"; nvr_type := "UNVR"; nvr_host := "10.0.0.2";
                    nvr_mac := "AABBCCDDEEFF" |};
     users := Some [ {| user_id := "u1";
                        allPermissions := Some ["camera:create,read,write:*"] |} ] |}.


(** The permission list of the authenticated user, as checkAdminUserStatus
    looks it up: none when the bootstrap, its user list, the user or the
    user's permission list is missing. *)
Definition authenticated_permissions (a : ProtectApi) : option (list string) :=
  match bootstrap a with
  | Some b =>
      match users b with
      | Some us =>
          match List.find (fun x => String.eqb (user_id x) (authUserId b)) us with
          | Some u => allPermissions u
          | None => None
          end
      | None => None
      end
  | None => None
  end.

(** The URL of the updates socket for the instance. *)
Definition updates_url (a : ProtectApi) : string :=
  ("wss://" +:+ nvrAddress a +:+ "/proxy/protect/ws/updates") +:+ "?" +:+
  ("lastUpdateId=" +:+
   match bootstrap a with
   | Some {| lastUpdateId := Some i |} => i
   | _ => ""
   end).

(** A channel with RTSP disabled somewhere in the stored bootstrap. *)
Definition some_channel_disabled (a : ProtectApi) : Prop :=
  exists b cs camera chs channel,
    bootstrap a = Some b /\ cameras b = Some cs /\ In camera cs /\
    cam_channels camera = Some chs /\ In channel chs /\
    isRtspEnabled channel = false.

(** [c] keeps the property [I] of machines. *)
Definition Keeps {A} (I : Machine -> Prop) (c : M A) : Prop :=
  forall o m, I m -> I (snd (c o m)).

Definition is_some {A} (x : option A) : bool :=
  match x with Some _ => true | None => false end.

(** The session fields agree with one another: the administrator flag is
    up only over a stored bootstrap, a bootstrap and a connection handle are
    held only while logged in, and a stored bootstrap has a camera list. *)
Definition consistent (a : ProtectApi) : bool :=
  implb (isAdminUser a) (is_some (bootstrap a)) &&
  implb (is_some (bootstrap a)) (loggedIn a) &&
  implb (is_some (eventListener a)) (loggedIn a) &&
  match bootstrap a with
  | Some d => is_some (cameras d)
  | None => true
  end.

Definition sound (m : Machine) : Prop := consistent (api m) = true.

Definition sound_and_logged_in (m : Machine) : Prop :=
  consistent (api m) = true /\ loggedIn (api m) = true.

(** * Properties of fetch *)

Lemma network_io_app t1 t2 : network_io (t1 ++ t2) = network_io t1 ++ network_io t2.
Proof. apply List.filter_app. Qed.

Lemma fetch_at_limit_eq cfg o m url options logErrors decodeResponse :
  apiErrorCount (api m) = PROTECT_API_ERROR_LIMIT cfg ->
  fetch cfg url options logErrors decodeResponse o m =
  (Normal None,
   {| api := set_apiLastSuccess (now_at o (clockReads m))
               (set_apiErrorCount (apiErrorCount (api m) + 1) (api m));
      clockReads := S (clockReads m); netCalls := netCalls m;
      socketOpens := socketOpens m;
      trace := ((trace m ++ [EvSetTimeout]) ++
                [EvInfo (MsgThrottling (nvrName (api m)) (apiErrorCount (api m)))]) ++
               [EvClearTimeout] |}).
Proof.
  intros H. unfold fetch, try_finally, try_catch, bind. cbn.
  rewrite H. rewrite Z.geb_leb, Z.leb_refl, Z.eqb_refl.
  cbn. rewrite H. reflexivity.
Qed.

Lemma fetch_in_window_eq cfg o m url options logErrors decodeResponse :
  apiErrorCount (api m) > PROTECT_API_ERROR_LIMIT cfg ->
  now_at o (clockReads m) < apiLastSuccess (api m) + PROTECT_API_RETRY_INTERVAL cfg * 1000 ->
  fetch cfg url options logErrors decodeResponse o m =
  (Normal None,
   {| api := api m;
      clockReads := S (clockReads m); netCalls := netCalls m;
      socketOpens := socketOpens m;
      trace := (trace m ++ [EvSetTimeout]) ++ [EvClearTimeout] |}).
Proof.
  intros H1 H2. unfold fetch, try_finally, try_catch, bind. cbn.
  destruct (Z.geb_spec (apiErrorCount (api m)) (PROTECT_API_ERROR_LIMIT cfg)); [|lia].
  destruct (Z.eqb_spec (apiErrorCount (api m)) (PROTECT_API_ERROR_LIMIT cfg)); [lia|].
  cbn.
  destruct (Z.gtb_spec (apiLastSuccess (api m) + PROTECT_API_RETRY_INTERVAL cfg * 1000)
              (now_at o (clockReads m))); [|lia].
  cbn. destruct m; reflexivity.
Qed.

Lemma fetch_open cfg o m url options logErrors decodeResponse :
  throttled cfg (now_at o (clockReads m)) (api m) = false ->
  fetch cfg url options logErrors decodeResponse o m =
  attempt url options logErrors decodeResponse o (through_throttle cfg m).
Proof.
  unfold throttled. intros H.
  unfold attempt, through_throttle, past_throttle, fetch, try_finally, try_catch, bind.
  cbn.
  destruct (apiErrorCount (api m) >=? PROTECT_API_ERROR_LIMIT cfg) eqn:E1.
  - rewrite andb_true_l in H. apply orb_false_iff in H as [H1 H2].
    rewrite H1. cbn. rewrite H2. cbn. reflexivity.
  - cbn. rewrite app_nil_r. destruct m; reflexivity.
Qed.

Lemma ok_401 r : status r = 401 -> ok r = false.
Proof. unfold ok. intros ->. reflexivity. Qed.

Lemma ok_403 r : status r = 403 -> ok r = false.
Proof. unfold ok. intros ->. reflexivity. Qed.

Ltac tidy_io := cbn; rewrite ?network_io_app; cbn; rewrite ?app_nil_r; auto.

Lemma attempt_spec url options logErrors decodeResponse o m :
  let out := attempt url options logErrors decodeResponse o m in
  let net := net_at o (netCalls m) in
  fst out = Normal (answer decodeResponse net) /\
  netCalls (snd out) = S (netCalls m) /\
  session (api (snd out)) = session (api m) /\
  budget (api (snd out)) =
    match recorded decodeResponse net with
    | Some s => recordOutcome s (now_at o (clockReads m)) (budget (api m))
    | None => budget (api m)
    end /\
  network_io (trace (snd out)) =
    network_io (trace m) ++ [EvFetch url options (headers (api m))].
Proof.
  unfold attempt, try_finally, try_catch, fetch_request, fetch_catch, bind, node_fetch.
  cbn. destruct (net_at o (netCalls m)) as [r|e]; cbn.
  - destruct decodeResponse; cbn.
    + destruct (Z.eqb_spec (status r) 401) as [E|E]; cbn.
      { rewrite (ok_401 _ E). tidy_io. }
      destruct (Z.eqb_spec (status r) 403) as [E'|E']; cbn.
      { rewrite (ok_403 _ E'). tidy_io. }
      destruct (ok r); tidy_io.
    + tidy_io.
  - destruct e; tidy_io.
    repeat (match goal with
            | |- context [String.eqb ?a ?b] => destruct (String.eqb a b)
            end; tidy_io).
    destruct logErrors; tidy_io.
Qed.

Lemma attempt_401_logged url options logErrors o m r :
  net_at o (netCalls m) = Normal r -> status r = 401 ->
  In (EvError MsgInvalidCredentials)
     (trace (snd (attempt url options logErrors true o m))).
Proof.
  intros Hn Hs.
  unfold attempt, try_finally, try_catch, fetch_request, fetch_catch, bind, node_fetch.
  cbn. rewrite Hn. cbn. rewrite Hs. cbn.
  rewrite !in_app_iff. cbn. auto.
Qed.

Lemma session_past_throttle cfg a : session (past_throttle cfg a) = session a.
Proof. unfold past_throttle. destruct (_ >=? _); reflexivity. Qed.

Lemma headers_past_throttle cfg a : headers (past_throttle cfg a) = headers a.
Proof. unfold past_throttle. destruct (_ >=? _); reflexivity. Qed.

Lemma network_io_through_throttle cfg m :
  network_io (trace (through_throttle cfg m)) = network_io (trace m).
Proof.
  unfold through_throttle. cbn. rewrite !network_io_app.
  destruct (_ >=? _); cbn; rewrite ?app_nil_r; reflexivity.
Qed.

Lemma throttled_below_limit cfg now a :
  apiErrorCount a < PROTECT_API_ERROR_LIMIT cfg -> throttled cfg now a = false.
Proof.
  intros H. unfold throttled.
  destruct (Z.geb_spec (apiErrorCount a) (PROTECT_API_ERROR_LIMIT cfg)); [lia|reflexivity].
Qed.

Lemma throttled_after_window cfg now a :
  apiErrorCount a > PROTECT_API_ERROR_LIMIT cfg ->
  apiLastSuccess a + PROTECT_API_RETRY_INTERVAL cfg * 1000 <= now ->
  throttled cfg now a = false.
Proof.
  intros H1 H2. unfold throttled.
  destruct (Z.eqb_spec (apiErrorCount a) (PROTECT_API_ERROR_LIMIT cfg)); [lia|].
  destruct (Z.gtb_spec (apiLastSuccess a + PROTECT_API_RETRY_INTERVAL cfg * 1000) now);
    [lia|]. apply andb_false_r.
Qed.

(** The whole of an unthrottled call, in one statement. *)
Lemma fetch_open_spec cfg o m url options logErrors decodeResponse :
  throttled cfg (now_at o (clockReads m)) (api m) = false ->
  let out := fetch cfg url options logErrors decodeResponse o m in
  let net := net_at o (netCalls m) in
  fst out = Normal (answer decodeResponse net) /\
  netCalls (snd out) = S (netCalls m) /\
  session (api (snd out)) = session (api m) /\
  budget (api (snd out)) =
    match recorded decodeResponse net with
    | Some s => recordOutcome s (now_at o (S (clockReads m)))
                  (budget (past_throttle cfg (api m)))
    | None => budget (past_throttle cfg (api m))
    end /\
  network_io (trace (snd out)) =
    network_io (trace m) ++ [EvFetch url options (headers (api m))].
Proof.
  intros H. cbv zeta. rewrite (fetch_open _ _ _ _ _ _ _ H).
  pose proof (attempt_spec url options logErrors decodeResponse o
                (through_throttle cfg m)) as A.
  cbv zeta in A. destruct A as (A1 & A2 & A3 & A4 & A5).
  rewrite A1, A2, A3, A4, A5.
  rewrite network_io_through_throttle. cbn [through_throttle api netCalls clockReads].
  rewrite session_past_throttle, headers_past_throttle. auto.
Qed.

(** ** Throttling *)

(** C1: a call to fetch made when the error counter equals the error limit
    returns null without any network I/O, steps the counter past the limit and
    stamps apiLastSuccess with the current time; the calls that follow while
    the window is open return null too and leave that stamp (and the whole
    budget) alone, so they do not extend the wait. *)
Theorem fetch_at_error_limit cfg o m url options logErrors decodeResponse :
  apiErrorCount (api m) = PROTECT_API_ERROR_LIMIT cfg ->
  let now := now_at o (clockReads m) in
  let out := fetch cfg url options logErrors decodeResponse o m in
  fst out = Normal None /\
  netCalls (snd out) = netCalls m /\
  network_io (trace (snd out)) = network_io (trace m) /\
  apiLastSuccess (api (snd out)) = now /\
  apiErrorCount (api (snd out)) = PROTECT_API_ERROR_LIMIT cfg + 1 /\
  session (api (snd out)) = session (api m) /\
  forall o' url' options' logErrors' decodeResponse',
    now_at o' (clockReads (snd out)) < now + PROTECT_API_RETRY_INTERVAL cfg * 1000 ->
    let out' := fetch cfg url' options' logErrors' decodeResponse' o' (snd out) in
    fst out' = Normal None /\
    netCalls (snd out') = netCalls m /\
    budget (api (snd out')) = budget (api (snd out)).
Proof.
  intros H now out. subst out now.
  rewrite (fetch_at_limit_eq _ _ _ _ _ _ _ H).
  split; [reflexivity|]. split; [reflexivity|].
  split; [cbn; rewrite !network_io_app; cbn; rewrite !app_nil_r; reflexivity|].
  split; [reflexivity|]. split; [cbn; rewrite H; reflexivity|].
  split; [reflexivity|].
  intros o' url' options' logErrors' decodeResponse' W. cbv zeta.
  rewrite fetch_in_window_eq; [auto | cbn; lia | cbn in *; lia].
Qed.

Lemma fetch_at_error_limit_witness :
  let m := machine_of (set_apiErrorCount 10 api0) in
  let o := steady 5000 (Normal (response_of 200 None)) (Normal None) in
  apiErrorCount (api m) = PROTECT_API_ERROR_LIMIT cfg0 /\
  fst (fetch cfg0 "https://nvr.local" get_options true true o m) = Normal None /\
  apiLastSuccess (api (snd (fetch cfg0 "https://nvr.local" get_options true true o m)))
    = 5000.
Proof.
  cbv zeta.
  pose proof (fetch_at_error_limit cfg0
                (steady 5000 (Normal (response_of 200 None)) (Normal None))
                (machine_of (set_apiErrorCount 10 api0))
                "https://nvr.local" get_options true true eq_refl) as W.
  cbv zeta in W. destruct W as (W1 & _ & _ & W4 & _).
  split; [reflexivity | split; [exact W1 | exact W4]].
Defined.

(** C2, as stated, fails on the boundary: a throttled client whose clock
    reads exactly apiLastSuccess + retry interval is not short-circuited; the
    request goes out. *)
Lemma fetch_resumes_on_the_boundary :
  let m := machine_of api_throttled in
  let o := steady 300000 (Normal (response_of 200 None)) (Normal None) in
  let out := fetch cfg0 "https://nvr.local" get_options true true o m in
  ~ (apiErrorCount (api m) > PROTECT_API_ERROR_LIMIT cfg0 ->
     ~ (now_at o (clockReads m) >
        apiLastSuccess (api m) + PROTECT_API_RETRY_INTERVAL cfg0 * 1000) ->
     fst out = Normal None /\ netCalls (snd out) = netCalls m).
Proof.
  cbv zeta. intros H.
  assert (G1 : apiErrorCount (api (machine_of api_throttled))
               > PROTECT_API_ERROR_LIMIT cfg0) by (cbn; lia).
  assert (G2 : ~ (now_at (steady 300000 (Normal (response_of 200 None)) (Normal None))
                    (clockReads (machine_of api_throttled)) >
                  apiLastSuccess (api (machine_of api_throttled))
                  + PROTECT_API_RETRY_INTERVAL cfg0 * 1000)) by (cbn; lia).
  destruct (H G1 G2) as [_ N]. vm_compute in N. discriminate N.
Qed.

(** C2, amended: while the error counter is past the limit, a call made at a
    time now < apiLastSuccess + retry interval returns null with no network
    I/O and changes nothing in the instance; the first call made at a time
    now >= apiLastSuccess + retry interval (the boundary included) logs the
    resumption, resets the counter to zero and sends the request, whose
    outcome is then recorded from a counter of zero. *)
Theorem fetch_while_throttled cfg o m url options logErrors decodeResponse :
  apiErrorCount (api m) > PROTECT_API_ERROR_LIMIT cfg ->
  let now := now_at o (clockReads m) in
  let window := apiLastSuccess (api m) + PROTECT_API_RETRY_INTERVAL cfg * 1000 in
  let net := net_at o (netCalls m) in
  let out := fetch cfg url options logErrors decodeResponse o m in
  (now < window ->
     fst out = Normal None /\
     netCalls (snd out) = netCalls m /\
     network_io (trace (snd out)) = network_io (trace m) /\
     api (snd out) = api m) /\
  (window <= now ->
     fst out = Normal (answer decodeResponse net) /\
     netCalls (snd out) = S (netCalls m) /\
     network_io (trace (snd out)) =
       network_io (trace m) ++ [EvFetch url options (headers (api m))] /\
     budget (api (snd out)) =
       match recorded decodeResponse net with
       | Some s => recordOutcome s (now_at o (S (clockReads m)))
                     (0, apiLastSuccess (api m))
       | None => (0, apiLastSuccess (api m))
       end).
Proof.
  intros H now window net out. subst now window net out. split; intros W.
  - rewrite (fetch_in_window_eq _ _ _ _ _ _ _ H W). cbn.
    rewrite !network_io_app. cbn. rewrite !app_nil_r. auto.
  - pose proof (fetch_open_spec cfg o m url options logErrors decodeResponse
                  (throttled_after_window _ _ _ H W)) as S.
    cbv zeta in S. destruct S as (S1 & S2 & _ & S4 & S5).
    repeat split; auto.
    rewrite S4. unfold past_throttle.
    destruct (Z.geb_spec (apiErrorCount (api m)) (PROTECT_API_ERROR_LIMIT cfg)); [|lia].
    reflexivity.
Qed.

Lemma fetch_while_throttled_witness :
  let m := machine_of api_throttled in
  let o := steady 300000 (Normal (response_of 200 None)) (Normal None) in
  apiErrorCount (api m) > PROTECT_API_ERROR_LIMIT cfg0 /\
  netCalls (snd (fetch cfg0 "https://nvr.local" get_options true true o m)) = 1%nat /\
  budget (api (snd (fetch cfg0 "https://nvr.local" get_options true true o m)))
    = (0, 300000).
Proof.
  cbv zeta.
  assert (G : apiErrorCount (api (machine_of api_throttled))
              > PROTECT_API_ERROR_LIMIT cfg0) by (cbn; lia).
  pose proof (fetch_while_throttled cfg0
                (steady 300000 (Normal (response_of 200 None)) (Normal None))
                (machine_of api_throttled)
                "https://nvr.local" get_options true true G) as W.
  cbv zeta in W. destruct W as [_ W].
  assert (B : apiLastSuccess (api (machine_of api_throttled))
              + PROTECT_API_RETRY_INTERVAL cfg0 * 1000
              <= now_at (steady 300000 (Normal (response_of 200 None)) (Normal None))
                   (clockReads (machine_of api_throttled))) by (cbn; lia).
  destruct (W B) as (_ & W2 & _ & W4).
  split; [exact G | split; [exact W2 | exact W4]].
Defined.

(** ** Classification of the outcome *)

(** C3, as stated, fails: a decoded 401 leaves the session of a logged-in
    instance as it was; fetch does not call clearLoginCredentials. *)
Lemma fetch_401_keeps_the_session :
  let m := machine_of api_logged_in in
  let o := steady 5000 (Normal (response_of 401 None)) (Normal None) in
  let out := fetch cfg0 "https://nvr.local" get_options true true o m in
  ~ (throttled cfg0 (now_at o (clockReads m)) (api m) = false ->
     net_at o (netCalls m) = Normal (response_of 401 None) ->
     status (response_of 401 None) = 401 ->
     fst out = Normal None /\ loggedIn (api (snd out)) = false).
Proof.
  cbv zeta. intros H.
  destruct (H eq_refl eq_refl eq_refl) as [_ N].
  vm_compute in N. discriminate N.
Qed.

(** C3, amended: a fetch call with response decoding enabled that is let
    through the throttle and receives an HTTP 401 status logs the
    invalid-credentials error, counts one more error and returns null; the
    session (logged-in flag, login age, headers, admin flag, bootstrap,
    listener) is left as it was: invalidating it is left to the callers. *)
Theorem fetch_401 cfg o m url options logErrors r :
  throttled cfg (now_at o (clockReads m)) (api m) = false ->
  net_at o (netCalls m) = Normal r ->
  status r = 401 ->
  let out := fetch cfg url options logErrors true o m in
  fst out = Normal None /\
  In (EvError MsgInvalidCredentials) (trace (snd out)) /\
  apiErrorCount (api (snd out)) = apiErrorCount (past_throttle cfg (api m)) + 1 /\
  apiLastSuccess (api (snd out)) = apiLastSuccess (api m) /\
  session (api (snd out)) = session (api m).
Proof.
  intros H Hn Hs out. subst out.
  pose proof (fetch_open_spec cfg o m url options logErrors true H) as S.
  cbv zeta in S. destruct S as (S1 & _ & S3 & S4 & _).
  rewrite Hn in S1, S4. unfold answer, recorded in S1, S4.
  rewrite (ok_401 _ Hs) in S1, S4.
  unfold recordOutcome, budget in S4. cbn [fst snd] in S4.
  injection S4 as S4a S4b.
  split; [exact S1|]. split.
  - rewrite (fetch_open _ _ _ _ _ _ _ H).
    apply attempt_401_logged with (r := r); [exact Hn | exact Hs].
  - split; [exact S4a|]. split; [|exact S3].
    rewrite S4b. unfold past_throttle. destruct (_ >=? _); reflexivity.
Qed.

Lemma fetch_401_witness :
  let m := machine_of api_logged_in in
  let o := steady 5000 (Normal (response_of 401 None)) (Normal None) in
  fst (fetch cfg0 "https://nvr.local" get_options true true o m) = Normal None /\
  loggedIn (api (snd (fetch cfg0 "https://nvr.local" get_options true true o m)))
    = true.
Proof.
  cbv zeta.
  pose proof (fetch_401 cfg0
                (steady 5000 (Normal (response_of 401 None)) (Normal None))
                (machine_of api_logged_in) "https://nvr.local" get_options true
                (response_of 401 None) eq_refl eq_refl eq_refl) as W.
  cbv zeta in W. destruct W as (W1 & _ & _ & _ & W5).
  split; [exact W1|].
  apply (f_equal (fun t => fst (fst (fst (fst (fst (fst t))))))) in W5. exact W5.
Defined.

(** C4, as stated, fails: a call with decodeResponse = false that receives a
    response (here a 500) leaves the error budget untouched, where recording
    the outcome once would have counted an error. *)
Lemma fetch_undecoded_skips_the_budget :
  let m := machine_of api_three_errors in
  let net := Normal (response_of 500 None) in
  let o := steady 5000 net (Normal None) in
  let out := fetch cfg0 "https://nvr.local" get_options true false o m in
  ~ (throttled cfg0 (now_at o (clockReads m)) (api m) = false ->
     budget (api (snd out)) =
       recordOutcome (outcome_success net) (now_at o (S (clockReads m)))
         (budget (past_throttle cfg0 (api m)))).
Proof.
  cbv zeta. intros H. specialize (H eq_refl). vm_compute in H. discriminate H.
Qed.

(** C4, amended: a fetch call that is let through the throttle records its
    outcome in the error budget exactly once when the response is decoded
    (decodeResponse = true: success resets the counter and stamps the time,
    an HTTP error status increments the counter) and whenever the transport
    throws (error or timeout, whatever decodeResponse is: one increment); with
    decodeResponse = false a received response, whatever its status, is handed
    back with the budget left as it was, for the caller to record. *)
Theorem fetch_records_outcome cfg o m url options logErrors decodeResponse :
  throttled cfg (now_at o (clockReads m)) (api m) = false ->
  let net := net_at o (netCalls m) in
  let before := budget (past_throttle cfg (api m)) in
  let out := fetch cfg url options logErrors decodeResponse o m in
  (decodeResponse = true \/ (exists e, net = Thrown e) ->
     budget (api (snd out)) =
       recordOutcome (outcome_success net) (now_at o (S (clockReads m))) before) /\
  (decodeResponse = false -> forall r, net = Normal r ->
     fst out = Normal (Some r) /\ budget (api (snd out)) = before).
Proof.
  intros H net before out. subst net before out.
  pose proof (fetch_open_spec cfg o m url options logErrors decodeResponse H) as S.
  cbv zeta in S. destruct S as (S1 & _ & _ & S4 & _).
  split.
  - intros [-> | [e He]].
    + rewrite S4. destruct (net_at o (netCalls m)); reflexivity.
    + rewrite S4, He. reflexivity.
  - intros -> r Hr. rewrite S1, S4, Hr. split; reflexivity.
Qed.

Lemma fetch_records_outcome_witness :
  let m := machine_of api_three_errors in
  let o := steady 5000 (Normal (response_of 500 None)) (Normal None) in
  budget (api (snd (fetch cfg0 "https://nvr.local" get_options true true o m)))
    = (4, 0) /\
  budget (api (snd (fetch cfg0 "https://nvr.local" get_options true false o m)))
    = (3, 0).
Proof.
  cbv zeta. split.
  - pose proof (fetch_records_outcome cfg0
                  (steady 5000 (Normal (response_of 500 None)) (Normal None))
                  (machine_of api_three_errors) "https://nvr.local" get_options
                  true true eq_refl) as W.
    cbv zeta in W. destruct W as [W _]. exact (W (or_introl eq_refl)).
  - pose proof (fetch_records_outcome cfg0
                  (steady 5000 (Normal (response_of 500 None)) (Normal None))
                  (machine_of api_three_errors) "https://nvr.local" get_options
                  true false eq_refl) as W.
    cbv zeta in W. destruct W as [_ W].
    exact (proj2 (W eq_refl (response_of 500 None) eq_refl)).
Defined.

(** * The session and the bootstrap *)

Lemma clearLoginCredentials_eq o m :
  clearLoginCredentials o m = (Normal tt, cleared m).
Proof.
  unfold clearLoginCredentials, cleared, bind, modify, get. cbn.
  destruct (eventListener (api m)); cbn; rewrite ?app_nil_r; reflexivity.
Qed.

Lemma session_cleared m : session (api (cleared m)) = cleared_session.
Proof. reflexivity. Qed.

Lemma bootstrap_failed_eq msg o m :
  bootstrap_failed msg o m =
  (Normal false,
   cleared {| api := api m; clockReads := clockReads m; netCalls := netCalls m;
              socketOpens := socketOpens m;
              trace := trace m ++ [EvError (msg (nvrName (api m)))] |}).
Proof.
  unfold bootstrap_failed, bind, getNvrName, get, log_error, emit. cbn.
  rewrite clearLoginCredentials_eq. reflexivity.
Qed.

Lemma bootstrapProtect_failure cfg o m resp :
  fst (login cfg o m) = Normal true ->
  let m1 := snd (login cfg o m) in
  fst (fetch cfg ("https://" +:+ nvrAddress (api m1) +:+ "/proxy/protect/api/bootstrap")
         get_options true true o m1) = Normal resp ->
  BootstrapFailure resp ->
  exists m', bootstrapProtect cfg o m = (Normal false, cleared m').
Proof.
  intros L m1 F B. subst m1.
  unfold bootstrapProtect, bind. cbv beta.
  destruct (login cfg o m) as [l m1]. cbn in L, F. subst l. cbn [negb].
  unfold bootstrapUrl, bind, get, ret. cbn. fold get_options.
  destruct (fetch cfg _ get_options true true o m1) as [f m2]. cbn in F. subst f.
  destruct B as [|r N|r K J|r v K J D].
  - rewrite bootstrap_failed_eq. eauto.
  - rewrite N. cbn [negb]. rewrite bootstrap_failed_eq. eauto.
  - rewrite K. cbn [negb]. unfold try_catch, throw, bind, getNvrName, get, log_error, emit, ret.
    rewrite J. cbn. rewrite bootstrap_failed_eq. eauto.
  - rewrite K. cbn [negb]. unfold try_catch, throw, bind, getNvrName, get, log_error, emit, ret.
    rewrite J. destruct v as [|[uid [cs|] lu n us]|c]; try discriminate D;
    cbn; rewrite bootstrap_failed_eq; eauto.
Qed.

Lemma refreshDevices_failed cfg o m m' :
  bootstrapProtect cfg o m = (Normal false, m') ->
  refreshDevices cfg o m = (Normal false, m').
Proof.
  intros B. unfold refreshDevices, bind. cbv beta. rewrite B. reflexivity.
Qed.

Lemma fetch_netCalls cfg url options logErrors decodeResponse o m :
  let out := fetch cfg url options logErrors decodeResponse o m in
  (netCalls m <= netCalls (snd out))%nat /\
  (forall r, fst out = Normal (Some r) -> (netCalls m < netCalls (snd out))%nat).
Proof.
  cbv zeta.
  destruct (throttled cfg (now_at o (clockReads m)) (api m)) eqn:T.
  - unfold throttled in T. apply andb_true_iff in T as [T1 T2].
    apply Z.geb_le in T1.
    destruct (Z.eq_dec (apiErrorCount (api m)) (PROTECT_API_ERROR_LIMIT cfg)) as [E|E].
    + rewrite (fetch_at_limit_eq _ _ _ _ _ _ _ E). cbn. split; [lia|discriminate].
    + apply orb_true_iff in T2 as [T2|T2]; [apply Z.eqb_eq in T2; contradiction|].
      apply Z.gtb_lt in T2. rewrite fetch_in_window_eq by lia. cbn.
      split; [lia|discriminate].
  - destruct (fetch_open_spec cfg o m url options logErrors decodeResponse T)
      as (_ & S & _).
    rewrite S. split; intros; lia.
Qed.

Lemma has_fresh_headers :
  has "X-CSRF-Token" fresh_headers = false /\ has "Authorization" fresh_headers = false.
Proof. split; reflexivity. Qed.

Lemma acquireToken_from_scratch cfg o m :
  loggedIn (api m) = false ->
  headers (api m) = fresh_headers ->
  fst (acquireToken cfg o m) = Normal true ->
  (netCalls m < netCalls (snd (acquireToken cfg o m)))%nat.
Proof.
  intros L H. unfold acquireToken, bind, get, ret, modify. cbn.
  rewrite L, H, (proj1 has_fresh_headers), (proj2 has_fresh_headers). cbn.
  pose proof (fetch_netCalls cfg ("https://" +:+ nvrAddress (api m))
                {| req_method := GET; req_body := None |} false true o m) as N.
  cbv zeta in N. destruct N as [_ N].
  destruct (fetch cfg _ _ false true o m) as [[[r|]|e] m1]; cbn in *; try discriminate.
  specialize (N r eq_refl).
  destruct (ok r); [|discriminate].
  destruct (resp_csrfToken r) as [t|]; [|discriminate].
  destruct (truthy (Some t)); cbn; [intros _; exact N | discriminate].
Qed.

(** After a cleared session a login succeeds only through the network. *)
Lemma login_from_scratch cfg o m :
  loggedIn (api m) = false ->
  headers (api m) = fresh_headers ->
  fst (login cfg o m) = Normal true ->
  (netCalls m < netCalls (snd (login cfg o m)))%nat.
Proof.
  intros L H. unfold login, loginWrapped, bind, get, ret, Date_now, modify, authUrl.
  cbn.
  destruct (_ >? _); [rewrite clearLoginCredentials_eq|]; cbn; rewrite ?L;
  match goal with
  | |- context [acquireToken cfg o ?m0] =>
      pose proof (acquireToken_from_scratch cfg o m0) as A;
      destruct (acquireToken cfg o m0) as [[[|]|e] m1]; cbn in A |- *;
      rewrite ?clearLoginCredentials_eq; try discriminate
  end;
  (specialize (A ltac:(first [reflexivity | exact L])
                 ltac:(first [reflexivity | exact H]) eq_refl);
   match goal with
   | |- context [fetch cfg ?u ?i true true o ?mm] =>
       pose proof (fetch_netCalls cfg u i true true o mm) as N;
       cbv zeta in N; destruct N as [N _];
       destruct (fetch cfg u i true true o mm) as [[[r|]|e] m2]; cbn in N |- *;
       rewrite ?clearLoginCredentials_eq; try discriminate
   end;
   destruct (ok r); cbn; rewrite ?clearLoginCredentials_eq; try discriminate;
   destruct (resp_csrfToken r), (resp_setCookie r); cbn;
   rewrite ?clearLoginCredentials_eq; try discriminate;
   destruct (_ && _ && _); cbn; rewrite ?clearLoginCredentials_eq; try discriminate;
   intros _; lia).
Qed.

(** C8: once login has succeeded, bootstrapProtect (and with it
    refreshDevices) returns false with the session cleared by
    clearLoginCredentials in each of the three failure cases: no ok response
    to the bootstrap fetch, a body that is not JSON, a decoded payload without
    a camera device list.  The instance is then logged out with fresh
    headers, so that the next login that succeeds has gone through the
    network again. *)
Theorem bootstrapProtect_failures_clear_session cfg o m resp :
  fst (login cfg o m) = Normal true ->
  fst (fetch cfg
         ("https://" +:+ nvrAddress (api (snd (login cfg o m)))
          +:+ "/proxy/protect/api/bootstrap")
         get_options true true o (snd (login cfg o m))) = Normal resp ->
  BootstrapFailure resp ->
  fst (bootstrapProtect cfg o m) = Normal false /\
  session (api (snd (bootstrapProtect cfg o m))) = cleared_session /\
  refreshDevices cfg o m = bootstrapProtect cfg o m /\
  forall o',
    fst (login cfg o' (snd (refreshDevices cfg o m))) = Normal true ->
    (netCalls (snd (refreshDevices cfg o m))
     < netCalls (snd (login cfg o' (snd (refreshDevices cfg o m)))))%nat.
Proof.
  intros L F B.
  destruct (bootstrapProtect_failure cfg o m resp L F B) as [m' E].
  rewrite (refreshDevices_failed _ _ _ _ E), E. cbn [fst snd].
  split; [reflexivity|]. split; [reflexivity|]. split; [reflexivity|].
  intros o'. apply login_from_scratch; reflexivity.
Qed.

Lemma bootstrapProtect_failures_clear_session_witness :
  let m := machine_of api_logged_in in
  let o := steady 5000 (Normal (response_of 200 None)) (Normal None) in
  fst (bootstrapProtect cfg0 o m) = Normal false /\
  session (api (snd (bootstrapProtect cfg0 o m))) = cleared_session.
Proof.
  cbv zeta.
  pose proof (bootstrapProtect_failures_clear_session cfg0
                (steady 5000 (Normal (response_of 200 None)) (Normal None))
                (machine_of api_logged_in) (Some (response_of 200 None))
                eq_refl eq_refl
                (Undecodable (response_of 200 None) eq_refl eq_refl)) as W.
  destruct W as (W1 & W2 & _). split; [exact W1 | exact W2].
Defined.

(** * Login and the listener *)

Lemma fetch_normal cfg url options logErrors decodeResponse o m :
  exists r, fst (fetch cfg url options logErrors decodeResponse o m) = Normal r.
Proof.
  destruct (throttled cfg (now_at o (clockReads m)) (api m)) eqn:T.
  - unfold throttled in T. apply andb_true_iff in T as [T1 T2].
    apply Z.geb_le in T1. apply orb_true_iff in T2 as [T2|T2].
    + apply Z.eqb_eq in T2. rewrite (fetch_at_limit_eq _ _ _ _ _ _ _ T2). eauto.
    + destruct (Z.eq_dec (apiErrorCount (api m)) (PROTECT_API_ERROR_LIMIT cfg)) as [E|E].
      * rewrite (fetch_at_limit_eq _ _ _ _ _ _ _ E). eauto.
      * apply Z.gtb_lt in T2. rewrite fetch_in_window_eq by lia. eauto.
  - destruct (fetch_open_spec cfg o m url options logErrors decodeResponse T) as [S _].
    eauto.
Qed.

Ltac run_fetch F :=
  match goal with
  | |- context [fetch ?c ?u ?i ?l ?d ?o ?m] =>
      let r := fresh "r" in let H := fresh "H" in
      destruct (fetch_normal c u i l d o m) as [r H];
      destruct (fetch c u i l d o m) as [F ?]; cbn [fst] in H; subst F
  end.

Lemma acquireToken_normal cfg o m : exists b, fst (acquireToken cfg o m) = Normal b.
Proof.
  unfold acquireToken, bind, get, ret, modify. cbn.
  destruct (loggedIn (api m) || _ || _); [eauto|].
  run_fetch F. destruct r as [r|]; [|eauto].
  destruct (ok r); [|eauto]. destruct (resp_csrfToken r) as [t|]; [|eauto].
  destruct (truthy (Some t)); cbn; eauto.
Qed.

Lemma loginWrapped_normal cfg o m : exists b, fst (loginWrapped cfg o m) = Normal b.
Proof.
  unfold loginWrapped, bind, get, ret, Date_now, modify, authUrl. cbn.
  destruct (_ >? _); [rewrite clearLoginCredentials_eq|]; cbn.
  - destruct (acquireToken_normal cfg o
       (cleared {| api := api m; clockReads := S (clockReads m); netCalls := netCalls m;
                   socketOpens := socketOpens m; trace := trace m |})) as [b A].
    destruct (acquireToken cfg o _) as [a m1]. cbn in A. subst a.
    destruct b; cbn; [|rewrite clearLoginCredentials_eq; eauto].
    run_fetch F. destruct r as [r|]; [|rewrite clearLoginCredentials_eq; eauto].
    destruct (ok r); cbn; [|rewrite clearLoginCredentials_eq; eauto].
    destruct (resp_csrfToken r), (resp_setCookie r); cbn;
      try (rewrite clearLoginCredentials_eq; eauto).
    destruct (_ && _ && _); cbn; [eauto|rewrite clearLoginCredentials_eq; eauto].
  - destruct (loggedIn (api m)); [eauto|].
    destruct (acquireToken_normal cfg o
       {| api := api m; clockReads := S (clockReads m); netCalls := netCalls m;
                   socketOpens := socketOpens m; trace := trace m |}) as [b A].
    destruct (acquireToken cfg o _) as [a m1]. cbn in A. subst a.
    destruct b; cbn; [|rewrite clearLoginCredentials_eq; eauto].
    run_fetch F. destruct r as [r|]; [|rewrite clearLoginCredentials_eq; eauto].
    destruct (ok r); cbn; [|rewrite clearLoginCredentials_eq; eauto].
    destruct (resp_csrfToken r), (resp_setCookie r); cbn;
      try (rewrite clearLoginCredentials_eq; eauto).
    destruct (_ && _ && _); cbn; [eauto|rewrite clearLoginCredentials_eq; eauto].
Qed.

Lemma login_normal cfg o m : exists b, fst (login cfg o m) = Normal b.
Proof. apply loginWrapped_normal. Qed.

Lemma login_fresh cfg o m :
  loggedIn (api m) = true ->
  now_at o (clockReads m) <= loginAge (api m) + PROTECT_LOGIN_REFRESH_INTERVAL cfg * 1000 ->
  login cfg o m = (Normal true, tick m).
Proof.
  intros L A. unfold login, loginWrapped, bind, get, ret, Date_now. cbn.
  destruct (Z.gtb_spec (now_at o (clockReads m))
              (loginAge (api m) + PROTECT_LOGIN_REFRESH_INTERVAL cfg * 1000)); [lia|].
  cbn. rewrite L. reflexivity.
Qed.

Lemma launch_login_failed cfg o m :
  fst (login cfg o m) = Normal false ->
  launchUpdatesListener cfg o m = (Normal false, snd (login cfg o m)).
Proof.
  intros L. unfold launchUpdatesListener, bind. cbv beta.
  destruct (login cfg o m) as [l m1]. cbn in L. subst l. reflexivity.
Qed.

Lemma launch_listener_recorded cfg o m ws :
  fst (login cfg o m) = Normal true ->
  eventListener (api (snd (login cfg o m))) = Some ws ->
  launchUpdatesListener cfg o m = (Normal true, snd (login cfg o m)).
Proof.
  intros L E. unfold launchUpdatesListener, bind. cbv beta.
  destruct (login cfg o m) as [l m1]. cbn in L, E. subst l. cbn [negb].
  unfold get. cbn. rewrite E. reflexivity.
Qed.

Lemma launch_socket_outcome cfg o m :
  fst (login cfg o m) = Normal true ->
  eventListener (api (snd (login cfg o m))) = None ->
  let m1 := snd (login cfg o m) in
  let out := launchUpdatesListener cfg o m in
  match socket_at o (socketOpens m1) with
  | Thrown e =>
      fst out = Normal true /\ eventListener (api (snd out)) = None /\
      In (EvError (MsgListenerError (nvrName (api m1)) e)) (trace (snd out))
  | Normal None =>
      fst out = Normal false /\ eventListener (api (snd out)) = None /\
      In (EvError MsgListenerUnable) (trace (snd out))
  | Normal (Some w) =>
      fst out = Normal true /\ eventListener (api (snd out)) = Some w
  end.
Proof.
  intros L E m1 out. subst m1 out. unfold launchUpdatesListener, bind. cbv beta.
  destruct (login cfg o m) as [l m1]. cbn in L, E. subst l. cbn [negb].
  unfold get, updatesUrl, debug, emit, try_catch, new_WebSocket, bind, ret, log_error,
    log_info, getNvrName, modify, emit, get. cbn. rewrite E. cbn.
  destruct (socket_at o (socketOpens m1)) as [[w|]|e]; cbn.
  - auto.
  - repeat split. rewrite !in_app_iff. cbn. auto.
  - rewrite E. repeat split. rewrite !in_app_iff. cbn. auto.
Qed.

Lemma launch_normal cfg o m : exists b, fst (launchUpdatesListener cfg o m) = Normal b.
Proof.
  destruct (login_normal cfg o m) as [[|] L].
  - destruct (eventListener (api (snd (login cfg o m)))) as [ws|] eqn:E.
    + rewrite (launch_listener_recorded _ _ _ _ L E). eauto.
    + pose proof (launch_socket_outcome cfg o m L E) as S. cbv zeta in S.
      destruct (socket_at o _) as [[w|]|e]; destruct S as [S _]; eauto.
  - rewrite (launch_login_failed _ _ _ L). eauto.
Qed.

(** C5, as stated, fails: with a connection handle recorded and a session
    older than the refresh interval, launchUpdatesListener is not a no-op.
    The login it starts with clears the credentials, which terminates the
    recorded connection, and when that login fails the call returns false. *)
Lemma launchUpdatesListener_with_an_expired_session :
  let m := machine_of api_logged_in in
  let o := steady 1801001 (Thrown (FetchError "ECONNREFUSED" "refused"))
             (Normal (Some 8%nat)) in
  ~ (eventListener (api m) = Some 7%nat ->
     fst (launchUpdatesListener cfg0 o m) = Normal true /\
     api (snd (launchUpdatesListener cfg0 o m)) = api m).
Proof.
  cbv zeta. intros H. destruct (H eq_refl) as [N _]. vm_compute in N. discriminate N.
Qed.

(** C5, amended: launchUpdatesListener first ensures login and returns false
    when that fails; when the login succeeds and a connection handle is
    recorded after it, the call returns true and does nothing more (so with a
    live session and a recorded handle the instance is left as it was); when
    opening the realtime socket throws, the error is caught and logged and
    the handle stays cleared; in no case does an error reach the caller. *)
Theorem launchUpdatesListener_connect cfg o m :
  (exists b, fst (launchUpdatesListener cfg o m) = Normal b) /\
  (fst (login cfg o m) = Normal false ->
     launchUpdatesListener cfg o m = (Normal false, snd (login cfg o m))) /\
  (forall ws,
     fst (login cfg o m) = Normal true ->
     eventListener (api (snd (login cfg o m))) = Some ws ->
     launchUpdatesListener cfg o m = (Normal true, snd (login cfg o m))) /\
  (forall ws,
     loggedIn (api m) = true ->
     now_at o (clockReads m)
       <= loginAge (api m) + PROTECT_LOGIN_REFRESH_INTERVAL cfg * 1000 ->
     eventListener (api m) = Some ws ->
     launchUpdatesListener cfg o m = (Normal true, tick m)) /\
  (forall e,
     fst (login cfg o m) = Normal true ->
     eventListener (api (snd (login cfg o m))) = None ->
     socket_at o (socketOpens (snd (login cfg o m))) = Thrown e ->
     eventListener (api (snd (launchUpdatesListener cfg o m))) = None /\
     In (EvError (MsgListenerError (nvrName (api (snd (login cfg o m)))) e))
        (trace (snd (launchUpdatesListener cfg o m)))).
Proof.
  split; [apply launch_normal|].
  split; [apply launch_login_failed|].
  split; [intros ws; apply launch_listener_recorded|].
  split.
  - intros ws L A E.
    pose proof (login_fresh cfg o m L A) as F.
    rewrite (launch_listener_recorded cfg o m ws); rewrite F; auto.
  - intros e L E S.
    pose proof (launch_socket_outcome cfg o m L E) as O. cbv zeta in O.
    rewrite S in O. destruct O as (_ & O1 & O2). auto.
Qed.

Lemma launchUpdatesListener_connect_witness :
  let m := machine_of api_logged_in in
  let o := steady 5000 (Normal (response_of 200 None)) (Thrown (OtherError "boom")) in
  launchUpdatesListener cfg0 o m = (Normal true, tick m).
Proof.
  cbv zeta.
  pose proof (launchUpdatesListener_connect cfg0
                (steady 5000 (Normal (response_of 200 None))
                   (Thrown (OtherError "boom")))
                (machine_of api_logged_in)) as W.
  destruct W as (_ & _ & _ & W & _).
  apply (W 7%nat); [reflexivity | cbn; lia | reflexivity].
Defined.

(** What the catch clause of launchUpdatesListener leads to: after the
    error is logged, control reaches the final [return true]. *)
Lemma launchUpdatesListener_socket_throws :
  let m := machine_of (set_eventListener None api_logged_in) in
  let o := steady 5000 (Normal (response_of 200 None)) (Thrown (OtherError "boom")) in
  fst (launchUpdatesListener cfg0 o m) = Normal true /\
  eventListener (api (snd (launchUpdatesListener cfg0 o m))) = None.
Proof. vm_compute. auto. Qed.

(** * Camera operations *)

(** C6: the code at the failing input.  For a logged-in administrator, a 2xx
    answer to the PATCH whose body is not JSON makes updateCamera,
    updateChannels and enableRtsp complete with a thrown error instead of a
    null or boolean result: [await response.json()] is not guarded there as
    it is in bootstrapProtect. *)
Theorem camera_update_undecodable_body_throws :
  let m := machine_of api_admin in
  let o := steady 5000 (Normal (response_of 200 None)) (Normal None) in
  fst (updateCamera cfg0 (Some camera0) "{}" o m) = Thrown InvalidJsonError /\
  fst (updateChannels cfg0 camera0 o m) = Thrown InvalidJsonError /\
  fst (enableRtsp cfg0 camera0 o m) = Thrown InvalidJsonError /\
  fst (refreshDevices cfg0 o m) = Normal false.
Proof. vm_compute. auto. Qed.

(** The probe of acquireToken is decoded like any other call: its third
    argument is logErrors, so a 401 answer to it counts as an error. *)
Lemma acquireToken_probe_is_decoded :
  let o := steady 5000 (Normal (response_of 401 None)) (Normal None) in
  fst (acquireToken cfg0 o (machine_of api0)) = Normal false /\
  apiErrorCount (api (snd (acquireToken cfg0 o (machine_of api0)))) = 1.
Proof. vm_compute. auto. Qed.

(** On the channel-update path a transport error is counted twice: once in
    the catch clause of fetch, once more by updateChannels on the null it
    gets back. *)
Lemma updateChannels_counts_a_transport_error_twice :
  let o := steady 5000 (Thrown (FetchError "ECONNRESET" "reset")) (Normal None) in
  let out := updateChannels cfg0 camera0 o (machine_of api_admin) in
  fst out = Normal (JCamera camera0) /\
  apiErrorCount (api (snd out)) = apiErrorCount api_admin + 2.
Proof. vm_compute. auto. Qed.

(** refreshDevices lets the TypeError of the permission scan through. *)
Lemma refreshDevices_bare_camera_throws :
  let o := steady 5000
             (Normal (response_of 200 (Some (JBootstrap (bootstrap_of ["camera"])))))
             (Normal None) in
  fst (refreshDevices cfg0 o (machine_of api_logged_in)) = Thrown split_error.
Proof. vm_compute. reflexivity. Qed.

(** * The login latch *)

Section Latch.
Import LoginLatch.

Lemma Inv_init : Inv init.
Proof.
  split; cbn.
  - reflexivity.
  - intros p [H _]. cbn in H. lia.
  - discriminate.
  - intros p r H. rewrite lookup_empty in H. discriminate.
Qed.

Lemma Inv_login s : Inv s -> Inv (snd (login s)).
Proof.
  intros [I1 I2 I3 I4]. unfold login.
  destruct (pendingLogin s) as [q|] eqn:P; cbn; [split; auto; rewrite P; auto|].
  split; cbn.
  - rewrite I1. reflexivity.
  - intros p [H1 H2]. cbn in *.
    destruct (decide (p = started s)) as [->|N]; [reflexivity|].
    assert (F : in_flight s p) by (split; [lia | exact H2]).
    apply I2 in F. congruence.
  - intros p [= <-]. lia.
  - intros p r H. apply I4 in H. lia.
Qed.

Lemma Inv_settle s p r : Inv s -> in_flight s p -> Inv (settle p r s).
Proof.
  intros [I1 I2 I3 I4] [F1 F2]. split; cbn.
  - exact I1.
  - intros q [H1 H2]. cbn in *. apply I2. split; [exact H1|].
    destruct (decide (p = q)) as [->|N].
    + rewrite lookup_insert_eq in H2. discriminate.
    + rewrite lookup_insert_ne in H2 by exact N. exact H2.
  - exact I3.
  - intros q r' H. destruct (decide (p = q)) as [->|N]; [exact F1|].
    rewrite lookup_insert_ne in H by exact N. eapply I4; eauto.
Qed.

Lemma Inv_run_finally s p :
  Inv s -> p ∈ reactions s -> is_Some (settled s !! p) -> Inv (run_finally p s).
Proof.
  intros [I1 I2 I3 I4] R [r S]. split; cbn.
  - rewrite I1 in *. destruct (pendingLogin s) as [q|].
    + apply list_elem_of_singleton in R. subst q. cbn. rewrite Nat.eqb_refl. reflexivity.
    + reflexivity.
  - intros q [H1 H2]. cbn in *.
    assert (F : in_flight s q) by (split; assumption).
    apply I2 in F. rewrite I1, F in R. apply list_elem_of_singleton in R. subst q.
    congruence.
  - discriminate.
  - exact I4.
Qed.

Lemma Inv_turn s t s' : Inv s -> turn s t = Some s' -> Inv s'.
Proof.
  intros I. destruct t as [|p r|p]; cbn.
  - intros [= <-]. apply Inv_login, I.
  - case_bool_decide as D; [|discriminate]. intros [= <-]. apply Inv_settle; auto.
  - case_bool_decide as D; [|discriminate]. intros [= <-].
    destruct D. apply Inv_run_finally; auto.
Qed.

Lemma Inv_turns ts : forall s s', Inv s -> turns s ts = Some s' -> Inv s'.
Proof.
  induction ts as [|t ts IH]; cbn; intros s s' I H.
  - injection H as <-. exact I.
  - destruct (turn s t) as [s1|] eqn:T; [|discriminate].
    eapply IH; [|exact H]. eapply Inv_turn; eauto.
Qed.

Lemma logins_held n : forall s p,
  pendingLogin s = Some p ->
  logins n s = (repeat p n, s).
Proof.
  induction n as [|n IH]; intros s p P; cbn; [reflexivity|].
  unfold login. rewrite P. rewrite (IH s p P). reflexivity.
Qed.

Lemma logins_free n s :
  pendingLogin s = None ->
  logins (S n) s = (repeat (started s) (S n), snd (login s)).
Proof.
  intros P. cbn [logins]. unfold login. rewrite P.
  erewrite (logins_held n _ (started s)); reflexivity.
Qed.

(** C7: in every state the event loop can reach, at most one run of
    loginWrapped is in flight.  When no attempt is pending, any number of
    callers of login() in a row start exactly one run and are all handed its
    promise; callers arriving while it is in flight, or after it has settled
    and before the finally-callback has run, are handed the same promise and
    start nothing; whatever the run settles with (true, false, or a thrown
    error) is what all of them observe, and the callback then clears
    pendingLogin. *)
Theorem login_single_flight ts s :
  turns init ts = Some s ->
  (forall p q, in_flight s p -> in_flight s q -> p = q) /\
  (pendingLogin s = None ->
     (forall p, ~ in_flight s p) /\
     forall n,
       fst (logins (S n) s) = repeat (started s) (S n) /\
       started (snd (logins (S n) s)) = S (started s) /\
       in_flight (snd (logins (S n) s)) (started s)) /\
  (forall p, in_flight s p ->
     (forall n, logins n s = (repeat p n, s)) /\
     forall r,
       let s1 := settle p r s in
       turn s (Settle p r) = Some s1 /\
       observed s1 p = Some r /\
       (forall n, logins n s1 = (repeat p n, s1)) /\
       turn s1 (RunFinally p) = Some (run_finally p s1) /\
       pendingLogin (run_finally p s1) = None /\
       observed (run_finally p s1) p = Some r).
Proof.
  intros R. pose proof (Inv_turns ts init s Inv_init R) as I.
  destruct I as [I1 I2 I3 I4]. split; [|split].
  - intros p q Fp Fq. apply I2 in Fp, Fq. congruence.
  - intros P. split.
    + intros p F. apply I2 in F. congruence.
    + intros n. rewrite (logins_free n s P). unfold login. rewrite P. cbn.
      split; [reflexivity|]. split; [reflexivity|]. split; [cbn; lia|].
      change (settled s !! started s = None).
      destruct (settled s !! started s) as [r|] eqn:E; [|reflexivity].
      apply I4 in E. lia.
  - intros p F. pose proof (I2 p F) as P. split.
    + intros n. apply logins_held. exact P.
    + intros r. cbv zeta. split.
      { cbn. rewrite bool_decide_eq_true_2 by exact F. reflexivity. }
      split.
      { unfold observed, settle. cbn. apply lookup_insert_eq. }
      split.
      { intros n. apply logins_held. exact P. }
      split; [|split; [reflexivity|]].
      2:{ unfold observed, run_finally, settle. cbn. apply lookup_insert_eq. }
      cbn. rewrite bool_decide_eq_true_2; [reflexivity|].
      split.
      * rewrite I1, P. apply list_elem_of_singleton. reflexivity.
      * exists r. apply lookup_insert_eq.
Qed.

Lemma login_single_flight_witness :
  fst (logins 3 init) = [0%nat; 0%nat; 0%nat] /\
  started (snd (logins 3 init)) = 1%nat.
Proof.
  pose proof (login_single_flight [] init eq_refl) as W.
  destruct W as (_ & W & _). destruct (W eq_refl) as [_ W2].
  destruct (W2 2%nat) as (A & B & _). split; [exact A | exact B].
Defined.

End Latch.

(** * Administrative privileges *)

Lemma split_on_nonempty sep s : split_on sep s <> [].
Proof.
  destruct s as [|c s]; cbn; [discriminate|].
  destruct (Ascii.eqb c sep); [discriminate|].
  destruct (split_on sep s); discriminate.
Qed.

Lemma split_on_single sep s f :
  split_on sep s = [f] ->
  f = s /\ existsb (Ascii.eqb sep) (list_ascii_of_string s) = false.
Proof.
  revert f. induction s as [|c s IH]; cbn; intros f H.
  - injection H as <-. auto.
  - destruct (Ascii.eqb_spec c sep) as [E|E].
    + injection H as _ H. destruct (split_on_nonempty _ _ H).
    + destruct (split_on sep s) as [|f' fs] eqn:S; [destruct (split_on_nonempty _ _ S)|].
      injection H as <- ->. destruct (IH f' eq_refl) as [-> IH2].
      split; [reflexivity|]. rewrite IH2.
      destruct (Ascii.eqb_spec sep c); [congruence|reflexivity].
Qed.

Lemma split_on_free sep s :
  existsb (Ascii.eqb sep) (list_ascii_of_string s) = false -> split_on sep s = [s].
Proof.
  induction s as [|c s IH]; cbn; intros H; [reflexivity|].
  apply orb_false_iff in H as [H1 H2]. rewrite Ascii.eqb_sym, H1, (IH H2). reflexivity.
Qed.

(** One round of the loop: the bare entry throws, a granting entry breaks
    out with true, any other entry goes on to the next. *)
Lemma scan_cons entry rest :
  scanPermissions (entry :: rest) =
  if String.eqb entry "camera" then Thrown split_error
  else if grantsCameraWrite entry then Normal true
  else scanPermissions rest.
Proof.
  cbn [scanPermissions]. unfold grantsCameraWrite.
  destruct (split_on ":" entry) as [|f0 [|f1 fs]] eqn:S.
  - destruct (split_on_nonempty _ _ S).
  - apply split_on_single in S as [-> _]. cbn.
    destruct (String.eqb entry "camera"); reflexivity.
  - cbn. destruct (String.eqb_spec entry "camera") as [->|N].
    + vm_compute in S. discriminate S.
    + destruct (String.eqb f0 "camera"); cbn; [|reflexivity].
      destruct (includes "write" (split_on "," f1)); reflexivity.
Qed.

Lemma scan_without_bare_camera perms :
  ~ In "camera" perms ->
  scanPermissions perms = Normal (existsb grantsCameraWrite perms).
Proof.
  induction perms as [|e perms IH]; intros H; [reflexivity|].
  rewrite scan_cons. cbn [existsb].
  destruct (String.eqb_spec e "camera") as [->|N]; [destruct H; left; reflexivity|].
  destruct (grantsCameraWrite e); [reflexivity|].
  apply IH. intros I. apply H. right. exact I.
Qed.

Lemma scan_reaches_bare_camera pre post :
  existsb grantsCameraWrite pre = false ->
  scanPermissions (pre ++ "camera" :: post) = Thrown split_error.
Proof.
  induction pre as [|e pre IH]; intros H.
  - reflexivity.
  - cbn [app]. rewrite scan_cons. cbn [existsb] in H.
    apply orb_false_iff in H as [H1 H2]. rewrite H1.
    destruct (String.eqb e "camera"); [reflexivity | exact (IH H2)].
Qed.

Lemma scan_thrown perms e :
  scanPermissions perms = Thrown e ->
  e = split_error /\
  exists pre post, perms = pre ++ "camera" :: post /\
                   existsb grantsCameraWrite pre = false.
Proof.
  induction perms as [|x perms IH]; [discriminate|].
  rewrite scan_cons. destruct (String.eqb_spec x "camera") as [->|N].
  - intros [= <-]. split; [reflexivity|]. exists [], perms. auto.
  - destruct (grantsCameraWrite x) eqn:G; [discriminate|].
    intros H. destruct (IH H) as (-> & pre & post & -> & P).
    split; [reflexivity|]. exists (x :: pre), post. cbn. rewrite G. auto.
Qed.

Lemma entry_safe_iff entry :
  String.eqb entry "camera" = false <->
  (first_field entry <> Some "camera" \/ has_colon entry = true).
Proof.
  split.
  - intros H. destruct (has_colon entry) eqn:C; [right; reflexivity|left].
    unfold first_field. rewrite (split_on_free _ _ C). cbn.
    intros [= ->]. cbv in H. discriminate H.
  - destruct (String.eqb_spec entry "camera") as [->|]; [|reflexivity].
    intros [H|H]; [destruct H; reflexivity | cbv in H; discriminate H].
Qed.

Lemma nvrName_set_isAdminUser v a : nvrName (set_isAdminUser v a) = nvrName a.
Proof. reflexivity. Qed.

(** checkAdminUserStatus, once the authenticated user and its permission
    list have been found. *)
Lemma checkAdminUserStatus_eq firstRun o m b us u perms :
  bootstrap (api m) = Some b ->
  users b = Some us ->
  List.find (fun x => String.eqb (user_id x) (authUserId b)) us = Some u ->
  allPermissions u = Some perms ->
  checkAdminUserStatus firstRun o m =
  match scanPermissions perms with
  | Thrown e => (Thrown e, m)
  | Normal admin =>
      (Normal true,
       {| api := set_isAdminUser admin (api m);
          clockReads := clockReads m; netCalls := netCalls m;
          socketOpens := socketOpens m;
          trace := trace m ++ role_report firstRun (isAdminUser (api m)) admin
                                (nvrName (api m)) (username (api m)) |})
  end.
Proof.
  intros Hb Hu Hf Hp. unfold checkAdminUserStatus, bind, get, lift.
  rewrite Hb. destruct b as [uid cs lu n us']. cbn in Hu, Hf. subst us'.
  rewrite Hf. destruct u as [i ps]. cbn in Hp. subst ps.
  destruct (scanPermissions perms) as [admin|e]; [|reflexivity].
  unfold role_report, getNvrName, get, modify, log_info, emit, ret. cbn.
  destruct firstRun, admin, (isAdminUser (api m)); cbn;
    rewrite ?app_nil_r; try reflexivity; destruct m; reflexivity.
Qed.

Lemma scan_past_bare_camera perms :
  ~ In "camera" (before_grant perms) ->
  scanPermissions perms = Normal (existsb grantsCameraWrite perms).
Proof.
  induction perms as [|e perms IH]; intros H; [reflexivity|].
  rewrite scan_cons. cbn [existsb before_grant] in *.
  destruct (grantsCameraWrite e) eqn:G.
  - destruct (String.eqb_spec e "camera") as [->|N]; [|reflexivity].
    vm_compute in G. discriminate G.
  - destruct (String.eqb_spec e "camera") as [->|N]; [destruct H; left; reflexivity|].
    apply IH. intros I. apply H. right. exact I.
Qed.

Lemma scan_meets_bare_camera perms :
  In "camera" (before_grant perms) ->
  scanPermissions perms = Thrown split_error.
Proof.
  induction perms as [|e perms IH]; intros H; [destruct H|].
  rewrite scan_cons. cbn [before_grant] in H.
  destruct (String.eqb_spec e "camera") as [->|N]; [reflexivity|].
  destruct (grantsCameraWrite e); [destruct H|].
  destruct H as [H|H]; [congruence|exact (IH H)].
Qed.

Lemma before_grant_app pre entry post :
  grantsCameraWrite entry = true ->
  forall x, In x (before_grant (pre ++ entry :: post)) -> In x pre.
Proof.
  intros G. induction pre as [|e pre IH]; intros x; cbn [app before_grant].
  - rewrite G. intros [].
  - destruct (grantsCameraWrite e); [intros []|].
    intros [H|H]; [left; exact H | right; exact (IH x H)].
Qed.

(** bootstrapProtect, once the payload has arrived: it is stored, and the
    role is checked with [firstRun] computed from the instance as it was
    before. *)
Lemma bootstrapProtect_payload cfg o m r d cs :
  fst (login cfg o m) = Normal true ->
  let m1 := snd (login cfg o m) in
  let call := fetch cfg ("https://" +:+ nvrAddress (api m1) +:+ "/proxy/protect/api/bootstrap")
                {| req_method := GET; req_body := None |} true true o m1 in
  fst call = Normal (Some r) ->
  ok r = true ->
  json r = Some (JBootstrap d) ->
  cameras d = Some cs ->
  (first_run (api (snd call)) = true -> nvr d <> None) ->
  exists evs,
    bootstrapProtect cfg o m =
    (checkAdminUserStatus (first_run (api (snd call))) ;; launchUpdatesListener cfg) o
      {| api := set_bootstrap (Some d) (api (snd call));
         clockReads := clockReads (snd call); netCalls := netCalls (snd call);
         socketOpens := socketOpens (snd call);
         trace := trace (snd call) ++ evs |}.
Proof.
  intros L. cbv zeta. intros F K J C N.
  unfold bootstrapProtect, bind at 1. cbv beta.
  destruct (login cfg o m) as [l m1]. cbn [fst snd] in *. subst l. cbn [negb].
  unfold bootstrapUrl, bind, get, ret. cbn.
  destruct (fetch cfg _ _ true true o m1) as [c m2]. cbn [fst snd] in *. subst c.
  rewrite K. cbn [negb]. unfold try_catch. rewrite J.
  destruct d as [uid cams lu nv us]. cbn in C, N. subst cams.
  unfold first_run in *. unfold modify, log_info, debug, emit, throw, getNvrName, get.
  destruct (bootstrap (api m2)); cbn.
  - eexists. reflexivity.
  - destruct nv as [n|]; [|destruct (N eq_refl eq_refl)]. cbn.
    eexists. rewrite <- app_assoc. reflexivity.
Qed.

(** C9, as stated, fails: a bare camera entry in front of the entry that
    grants camera write stops the scan with a TypeError before the grant is
    read.  The list holds camera:write,read:*, an entry whose first field is
    camera and whose second field contains write, and the user is not made
    admin. *)
Lemma grant_behind_a_bare_camera :
  let perms := ["camera"; "camera:write,read:*"] in
  let m := machine_of (api_bootstrapped perms) in
  let o := steady 5000 (Normal (response_of 200 None)) (Normal None) in
  ~ (isAdminUser (api (snd (checkAdminUserStatus false o m))) = true <->
     exists entry, In entry perms /\ grantsCameraWrite entry = true).
Proof.
  cbv zeta. intros [_ H].
  assert (G : exists entry, In entry ["camera"; "camera:write,read:*"] /\
                            grantsCameraWrite entry = true).
  { exists "camera:write,read:*". split; [right; left; reflexivity | reflexivity]. }
  specialize (H G). vm_compute in H. discriminate H.
Qed.

(** A change of role across a renewed session is not reported as a role
    change.  An administrator whose session has outlived the refresh
    interval is demoted on the controller; the login at the head of
    bootstrapProtect clears the credentials, the stored bootstrap with them,
    so the bootstrap that follows is a first run again: it logs the line of
    the initial determination, and no role change. *)
Lemma demotion_across_a_renewal_is_not_a_role_change :
  let o := steady 5000000
             (Normal (response_of 200
                        (Some (JBootstrap (bootstrap_of ["camera:read:*"])))))
             (Normal (Some 9%nat)) in
  let out := bootstrapProtect cfg0 o (machine_of api_admin_bootstrapped) in
  isAdminUser api_admin_bootstrapped = true /\
  fst out = Normal true /\
  isAdminUser (api (snd out)) = false /\
  In (EvInfo (MsgAdminRequired "NVR [UNVR]" "admin")) (trace (snd out)) /\
  ~ In (EvInfo (MsgRoleChange "NVR [UNVR]" "admin" false)) (trace (snd out)).
Proof.
  vm_compute. repeat split; auto 20.
  intros H. repeat (destruct H as [H|H]; [discriminate H|]). exact H.
Qed.

(** C9, amended: checkAdminUserStatus scans the permission list of the
    authenticated user in order and stops at the first entry that grants
    camera write.  When no bare entry camera stands in front of that entry
    (or anywhere, when no entry grants), it returns true and the user is
    admin exactly when some entry has first colon-separated field camera and
    a second field that, split on commas, contains write; when a bare entry
    camera stands in front, it throws and leaves the instance as it was.  So
    the list with the one entry camera:read:* gives non-admin, and a list
    with camera:write,read:* gives admin when no bare camera entry comes
    before it.  With firstRun only the initial determination is logged,
    otherwise a change of the status is logged as a role change; and
    bootstrapProtect passes firstRun exactly when the instance holds no
    bootstrap as the payload arrives, which is so at the first bootstrap and
    again after every clearing of the credentials. *)
Theorem checkAdminUserStatus_determines_admin firstRun o m b us u perms :
  bootstrap (api m) = Some b ->
  users b = Some us ->
  List.find (fun x => String.eqb (user_id x) (authUserId b)) us = Some u ->
  allPermissions u = Some perms ->
  let admin := existsb grantsCameraWrite perms in
  let out := checkAdminUserStatus firstRun o m in
  (~ In "camera" (before_grant perms) ->
     fst out = Normal true /\
     isAdminUser (api (snd out)) = admin /\
     trace (snd out) =
       trace m ++ role_report firstRun (isAdminUser (api m)) admin
                    (nvrName (api m)) (username (api m))) /\
  (In "camera" (before_grant perms) -> out = (Thrown split_error, m)) /\
  (perms = ["camera:read:*"] ->
     fst out = Normal true /\ isAdminUser (api (snd out)) = false) /\
  (forall pre post,
     perms = pre ++ "camera:write,read:*" :: post -> ~ In "camera" pre ->
     fst out = Normal true /\ isAdminUser (api (snd out)) = true) /\
  (forall cfg o' m' r d cs,
     fst (login cfg o' m') = Normal true ->
     let m1 := snd (login cfg o' m') in
     let call := fetch cfg ("https://" +:+ nvrAddress (api m1) +:+
                            "/proxy/protect/api/bootstrap")
                   {| req_method := GET; req_body := None |} true true o' m1 in
     fst call = Normal (Some r) ->
     ok r = true ->
     json r = Some (JBootstrap d) ->
     cameras d = Some cs ->
     (first_run (api (snd call)) = true -> nvr d <> None) ->
     exists evs,
       bootstrapProtect cfg o' m' =
       (checkAdminUserStatus (first_run (api (snd call))) ;; launchUpdatesListener cfg) o'
         {| api := set_bootstrap (Some d) (api (snd call));
            clockReads := clockReads (snd call); netCalls := netCalls (snd call);
            socketOpens := socketOpens (snd call);
            trace := trace (snd call) ++ evs |}) /\
  (forall o' m', first_run (api (snd (clearLoginCredentials o' m'))) = true).
Proof.
  intros Hb Hu Hf Hp admin out. subst admin out.
  rewrite (checkAdminUserStatus_eq _ _ _ _ _ _ _ Hb Hu Hf Hp).
  split; [|split; [|split; [|split; [|split]]]].
  - intros Hc. rewrite (scan_past_bare_camera _ Hc). cbn [fst snd api trace].
    repeat split.
  - intros Hc. rewrite (scan_meets_bare_camera _ Hc). reflexivity.
  - intros ->. split; reflexivity.
  - intros pre post -> Hc.
    assert (G : grantsCameraWrite "camera:write,read:*" = true) by reflexivity.
    rewrite scan_past_bare_camera
      by (intros I; exact (Hc (before_grant_app _ _ _ G _ I))).
    cbn [fst snd api]. split; [reflexivity|].
    change (existsb grantsCameraWrite (pre ++ "camera:write,read:*" :: post) = true).
    apply existsb_exists. exists "camera:write,read:*".
    split; [apply in_elt | exact G].
  - intros cfg o' m' r d cs. apply bootstrapProtect_payload.
  - intros o' m'. rewrite clearLoginCredentials_eq. reflexivity.
Qed.

Lemma checkAdminUserStatus_determines_admin_witness :
  let m := machine_of (api_bootstrapped ["nvr:read:*"; "camera:write,read:*"; "camera"]) in
  let o := steady 5000 (Normal (response_of 200 None)) (Normal None) in
  fst (checkAdminUserStatus false o m) = Normal true /\
  isAdminUser (api (snd (checkAdminUserStatus false o m))) = true /\
  trace (snd (checkAdminUserStatus false o m)) =
    [EvInfo (MsgRoleChange "NVR [UNVR]" "admin" true)].
Proof.
  cbv zeta.
  assert (N : ~ In "camera"
                (before_grant ["nvr:read:*"; "camera:write,read:*"; "camera"])).
  { intros [H|[]]. discriminate H. }
  pose proof (checkAdminUserStatus_determines_admin false
                (steady 5000 (Normal (response_of 200 None)) (Normal None))
                (machine_of (api_bootstrapped
                               ["nvr:read:*"; "camera:write,read:*"; "camera"]))
                _ _ _ _ eq_refl eq_refl eq_refl eq_refl) as W.
  cbv zeta in W. destruct W as (W & _). destruct (W N) as (W1 & W2 & W3).
  split; [exact W1 | split; [exact W2 | exact W3]].
Defined.

(** C10, as stated, fails: a bare camera entry that comes after an entry
    granting camera write is never looked at, because the loop breaks at the
    grant; checkAdminUserStatus returns normally. *)
Lemma bare_camera_behind_a_grant :
  let perms := ["camera:write,read:*"; "camera"] in
  let m := machine_of (api_bootstrapped perms) in
  let o := steady 5000 (Normal (response_of 200 None)) (Normal None) in
  ~ (In "camera" perms ->
     fst (checkAdminUserStatus false o m) = Thrown split_error).
Proof.
  cbv zeta. intros H.
  assert (I : In "camera" ["camera:write,read:*"; "camera"]) by (right; left; reflexivity).
  specialize (H I). vm_compute in H. discriminate H.
Qed.

(** C10, amended: checkAdminUserStatus is not total over permission strings.
    If the permission list of the authenticated user holds the bare entry
    camera and no entry before it grants camera write (where the loop would
    break), then for that entry permType[0] is camera, permType[1] is
    undefined, and the call throws the TypeError of permType[1].split, leaving
    the instance as it was.  An entry on its own is scanned without a throw
    exactly when its first colon-separated field differs from camera or it
    contains a colon, and a list of such entries is scanned without a throw. *)
Theorem checkAdminUserStatus_bare_camera firstRun o m b us u pre post :
  bootstrap (api m) = Some b ->
  users b = Some us ->
  List.find (fun x => String.eqb (user_id x) (authUserId b)) us = Some u ->
  allPermissions u = Some (pre ++ "camera" :: post) ->
  existsb grantsCameraWrite pre = false ->
  split_on ":" "camera" !! 0%nat = Some "camera" /\
  split_on ":" "camera" !! 1%nat = None /\
  checkAdminUserStatus firstRun o m = (Thrown split_error, m) /\
  (forall entry,
     (exists admin, scanPermissions [entry] = Normal admin) <->
     (first_field entry <> Some "camera" \/ has_colon entry = true)) /\
  (forall perms,
     (forall entry, In entry perms ->
        first_field entry <> Some "camera" \/ has_colon entry = true) ->
     exists admin, scanPermissions perms = Normal admin).
Proof.
  intros Hb Hu Hf Hp Hg.
  split; [reflexivity|]. split; [reflexivity|]. split.
  - rewrite (checkAdminUserStatus_eq _ _ _ _ _ _ _ Hb Hu Hf Hp).
    rewrite (scan_reaches_bare_camera _ _ Hg). reflexivity.
  - split.
    + intros entry. rewrite <- entry_safe_iff. rewrite scan_cons. split.
      * intros [admin H]. destruct (String.eqb entry "camera"); [discriminate H|reflexivity].
      * intros ->. destruct (grantsCameraWrite entry); eauto.
    + intros perms H. exists (existsb grantsCameraWrite perms).
      apply scan_without_bare_camera. intros I.
      apply H in I. apply entry_safe_iff in I. cbv in I. discriminate I.
Qed.

Lemma checkAdminUserStatus_bare_camera_witness :
  let m := machine_of (api_bootstrapped ["camera:read:*"; "camera"; "camera:write:*"]) in
  let o := steady 5000 (Normal (response_of 200 None)) (Normal None) in
  existsb grantsCameraWrite ["camera:read:*"] = false /\
  checkAdminUserStatus true o m = (Thrown split_error, m).
Proof.
  cbv zeta.
  pose proof (checkAdminUserStatus_bare_camera true
                (steady 5000 (Normal (response_of 200 None)) (Normal None))
                (machine_of (api_bootstrapped
                               ["camera:read:*"; "camera"; "camera:write:*"]))
                _ _ _ ["camera:read:*"] ["camera:write:*"]
                eq_refl eq_refl eq_refl eq_refl eq_refl) as W.
  destruct W as (_ & _ & W & _).
  split; [reflexivity | exact W].
Defined.

(** * Frames and exceptions *)

Section FrameRules.
Context {X : Type} (proj : Machine -> X).

Lemma frames_ret {A} (a : A) : Frames proj (ret a).
Proof. intros o m. reflexivity. Qed.

Lemma frames_throw {A} e : Frames proj (@throw A e).
Proof. intros o m. reflexivity. Qed.

Lemma frames_lift {A} (c : Completion A) : Frames proj (lift c).
Proof. intros o m. reflexivity. Qed.

Lemma frames_get {A} (f : ProtectApi -> A) : Frames proj (get f).
Proof. intros o m. reflexivity. Qed.

Lemma frames_bind {A B} (c : M A) (k : A -> M B) :
  Frames proj c -> (forall a, Frames proj (k a)) -> Frames proj (bind c k).
Proof.
  intros Hc Hk o m. unfold bind. specialize (Hc o m).
  destruct (c o m) as [[a|e] m1]; cbn in *.
  - rewrite (Hk a o m1). exact Hc.
  - exact Hc.
Qed.

Lemma frames_try_catch {A} (c : M A) (h : JsError -> M A) :
  Frames proj c -> (forall e, Frames proj (h e)) -> Frames proj (try_catch c h).
Proof.
  intros Hc Hh o m. unfold try_catch. specialize (Hc o m).
  destruct (c o m) as [[a|e] m1]; cbn in *.
  - exact Hc.
  - rewrite (Hh e o m1). exact Hc.
Qed.

Lemma frames_try_finally {A} (c : M A) (f : M unit) :
  Frames proj c -> Frames proj f -> Frames proj (try_finally c f).
Proof.
  intros Hc Hf o m. unfold try_finally. specialize (Hc o m).
  destruct (c o m) as [r m1]; cbn in *. rewrite (Hf o m1). exact Hc.
Qed.

Lemma frames_for_of {A} (l : list A) (body : A -> M unit) :
  (forall x, Frames proj (body x)) -> Frames proj (for_of l body).
Proof.
  intros H. induction l as [|x l IH]; cbn [for_of].
  - apply frames_ret.
  - apply frames_bind; [apply H | intros _; exact IH].
Qed.

End FrameRules.

Section ThrowRules.
Context (E : JsError -> Prop).

Lemma throws_ret {A} (a : A) : ThrowsOnly E (ret a).
Proof. intros o m e H. discriminate H. Qed.

Lemma throws_throw {A} e : E e -> ThrowsOnly E (@throw A e).
Proof. intros He o m e' H. injection H as <-. exact He. Qed.

Lemma throws_lift {A} (c : Completion A) :
  (forall e, c = Thrown e -> E e) -> ThrowsOnly E (lift c).
Proof. intros Hc o m e H. apply Hc. exact H. Qed.

Lemma throws_get {A} (f : ProtectApi -> A) : ThrowsOnly E (get f).
Proof. intros o m e H. discriminate H. Qed.

Lemma throws_modify f : ThrowsOnly E (modify f).
Proof. intros o m e H. discriminate H. Qed.

Lemma throws_emit ev : ThrowsOnly E (emit ev).
Proof. intros o m e H. discriminate H. Qed.

Lemma throws_Date_now : ThrowsOnly E Date_now.
Proof. intros o m e H. discriminate H. Qed.

Lemma throws_bind {A B} (c : M A) (k : A -> M B) :
  ThrowsOnly E c -> (forall a, ThrowsOnly E (k a)) -> ThrowsOnly E (bind c k).
Proof.
  intros Hc Hk o m e. unfold bind. specialize (Hc o m).
  destruct (c o m) as [[a|e'] m1]; cbn in *.
  - apply Hk.
  - intros [= <-]. apply Hc. reflexivity.
Qed.

Lemma throws_try_catch {A} (c : M A) (h : JsError -> M A) :
  (forall e, ThrowsOnly E (h e)) -> ThrowsOnly E (try_catch c h).
Proof.
  intros Hh o m e. unfold try_catch.
  destruct (c o m) as [[a|e'] m1]; cbn.
  - discriminate.
  - apply Hh.
Qed.

Lemma throws_try_finally {A} (c : M A) (f : M unit) :
  ThrowsOnly E c -> ThrowsOnly E (try_finally c f).
Proof.
  intros Hc o m e. unfold try_finally. specialize (Hc o m).
  destruct (c o m) as [r m1]; cbn in *. exact (Hc e).
Qed.

Lemma throws_for_of {A} (l : list A) (body : A -> M unit) :
  (forall x, ThrowsOnly E (body x)) -> ThrowsOnly E (for_of l body).
Proof.
  intros H. induction l as [|x l IH]; cbn [for_of].
  - apply throws_ret.
  - apply throws_bind; [apply H | intros _; exact IH].
Qed.

End ThrowRules.

Lemma throws_weaken {A} (E E' : JsError -> Prop) (c : M A) :
  (forall e, E e -> E' e) -> ThrowsOnly E c -> ThrowsOnly E' c.
Proof. intros W H o m e T. apply W. exact (H o m e T). Qed.

Create HintDb frames.
Create HintDb throws.

#[local] Hint Resolve frames_ret frames_throw frames_lift frames_get : frames.
#[local] Hint Resolve throws_ret throws_get throws_modify throws_emit
  throws_Date_now : throws.

(** Walk down a method body: one rule per construct, a case split at every
    branch; a primitive step is checked by computation. *)
Ltac walk_frames :=
  repeat first
    [ progress cbv beta zeta
    | solve [auto with frames]
    | apply frames_bind; [|intros ?]
    | apply frames_try_finally
    | apply frames_try_catch; [|intros ?]
    | apply frames_for_of; intros ?
    | match goal with
      | |- Frames _ (if ?b then _ else _) => destruct b
      | |- Frames _ (match ?x with _ => _ end) => destruct x
      | |- Frames _ (modify _) => intros ? ?; reflexivity
      | |- Frames _ (emit _) => intros ? ?; reflexivity
      | |- Frames _ Date_now => intros ? ?; reflexivity
      | |- Frames _ (node_fetch _ _) => intros ? ?; reflexivity
      | |- Frames _ (new_WebSocket _ _) => intros ? ?; reflexivity
      end ].

Ltac walk_throws :=
  repeat first
    [ progress cbv beta zeta
    | solve [auto with throws]
    | apply throws_bind; [|intros ?]
    | apply throws_try_finally
    | apply throws_try_catch; intros ?
    | apply throws_for_of; intros ?
    | match goal with
      | |- ThrowsOnly _ (if ?b then _ else _) => destruct b
      | |- ThrowsOnly _ (match ?x with _ => _ end) => destruct x
      end ].

Lemma frames_identity_clearLoginCredentials : Frames identity clearLoginCredentials.
Proof. unfold clearLoginCredentials. walk_frames. Qed.

Lemma frames_identity_fetch cfg url options logErrors decodeResponse :
  Frames identity (fetch cfg url options logErrors decodeResponse).
Proof.
  unfold fetch, fetch_request, fetch_catch, incr_apiErrorCount, log_info, log_error,
    getNvrName.
  walk_frames.
Qed.

#[local] Hint Resolve frames_identity_clearLoginCredentials frames_identity_fetch : frames.

Lemma frames_identity_acquireToken cfg : Frames identity (acquireToken cfg).
Proof. unfold acquireToken. walk_frames. Qed.
#[local] Hint Resolve frames_identity_acquireToken : frames.

Lemma frames_identity_login cfg : Frames identity (login cfg).
Proof. unfold login, loginWrapped, authUrl. walk_frames. Qed.
#[local] Hint Resolve frames_identity_login : frames.

Lemma frames_identity_checkAdminUserStatus firstRun :
  Frames identity (checkAdminUserStatus firstRun).
Proof. unfold checkAdminUserStatus, getNvrName, log_info. walk_frames. Qed.
#[local] Hint Resolve frames_identity_checkAdminUserStatus : frames.

Lemma frames_identity_launchUpdatesListener cfg :
  Frames identity (launchUpdatesListener cfg).
Proof.
  unfold launchUpdatesListener, updatesUrl, debug, log_info, log_error, getNvrName.
  walk_frames.
Qed.
#[local] Hint Resolve frames_identity_launchUpdatesListener : frames.

Lemma frames_identity_bootstrapProtect cfg : Frames identity (bootstrapProtect cfg).
Proof.
  unfold bootstrapProtect, bootstrap_failed, bootstrapUrl, debug, log_info, log_error,
    getNvrName.
  walk_frames.
Qed.
#[local] Hint Resolve frames_identity_bootstrapProtect : frames.

Lemma frames_identity_checkCameraState cfg device :
  Frames identity (checkCameraState cfg device).
Proof. unfold checkCameraState. walk_frames. Qed.
#[local] Hint Resolve frames_identity_checkCameraState : frames.

Lemma frames_identity_updateChannels cfg device :
  Frames identity (updateChannels cfg device).
Proof.
  unfold updateChannels, camerasUrl, response_json, incr_apiErrorCount, getFullName,
    getNvrName, log_error.
  walk_frames.
Qed.
#[local] Hint Resolve frames_identity_updateChannels : frames.

Lemma frames_identity_enableRtsp cfg device :
  Frames identity (enableRtsp cfg device).
Proof. unfold enableRtsp. walk_frames. Qed.

Lemma frames_identity_updateCamera cfg device payload :
  Frames identity (updateCamera cfg device payload).
Proof.
  unfold updateCamera, camerasUrl, response_json, getFullName, getNvrName, log_error,
    debug.
  walk_frames.
Qed.

Lemma frames_identity_loginFetch cfg url options logErrors decodeResponse :
  Frames identity (loginFetch cfg url options logErrors decodeResponse).
Proof. unfold loginFetch. walk_frames. Qed.

(** ** What can be thrown *)

Lemma throws_clearLoginCredentials E : ThrowsOnly E clearLoginCredentials.
Proof. unfold clearLoginCredentials. walk_throws. Qed.
#[local] Hint Resolve throws_clearLoginCredentials : throws.

Lemma throws_fetch E cfg url options logErrors decodeResponse :
  ThrowsOnly E (fetch cfg url options logErrors decodeResponse).
Proof.
  unfold fetch, fetch_catch, incr_apiErrorCount, log_info, log_error, getNvrName.
  walk_throws.
Qed.
#[local] Hint Resolve throws_fetch : throws.

Lemma throws_acquireToken E cfg : ThrowsOnly E (acquireToken cfg).
Proof. unfold acquireToken. walk_throws. Qed.
#[local] Hint Resolve throws_acquireToken : throws.

Lemma throws_login E cfg : ThrowsOnly E (login cfg).
Proof. unfold login, loginWrapped, authUrl. walk_throws. Qed.
#[local] Hint Resolve throws_login : throws.

Lemma throws_launchUpdatesListener E cfg : ThrowsOnly E (launchUpdatesListener cfg).
Proof.
  unfold launchUpdatesListener, updatesUrl, debug, log_info, log_error, getNvrName.
  walk_throws.
Qed.
#[local] Hint Resolve throws_launchUpdatesListener : throws.

Lemma throws_checkCameraState E cfg device : ThrowsOnly E (checkCameraState cfg device).
Proof. unfold checkCameraState. walk_throws. Qed.
#[local] Hint Resolve throws_checkCameraState : throws.

Lemma throws_checkAdminUserStatus firstRun :
  ThrowsOnly (fun e => e = split_error) (checkAdminUserStatus firstRun).
Proof.
  unfold checkAdminUserStatus, getNvrName, log_info. walk_throws.
  apply throws_lift. intros e H. apply scan_thrown in H. tauto.
Qed.

Lemma throws_response_json r : ThrowsOnly (fun e => e = InvalidJsonError) (response_json r).
Proof.
  unfold response_json. destruct (json r); [apply throws_ret|].
  apply throws_throw. reflexivity.
Qed.
#[local] Hint Resolve throws_response_json : throws.

Lemma throws_updateChannels cfg device :
  ThrowsOnly (fun e => e = InvalidJsonError) (updateChannels cfg device).
Proof.
  unfold updateChannels, camerasUrl, incr_apiErrorCount, getFullName,
    getNvrName, log_error.
  walk_throws.
Qed.
#[local] Hint Resolve throws_updateChannels : throws.

(** * More on fetch *)

(** fetch, whatever the transport does. *)
Lemma fetch_total cfg url options logErrors decodeResponse o m :
  let out := fetch cfg url options logErrors decodeResponse o m in
  (exists r, fst out = Normal r) /\
  (netCalls m <= netCalls (snd out) <= S (netCalls m))%nat /\
  (forall r, fst out = Normal (Some r) ->
     netCalls (snd out) = S (netCalls m) /\ net_at o (netCalls m) = Normal r) /\
  session (api (snd out)) = session (api m) /\
  identity (snd out) = identity m.
Proof.
  cbv zeta. split; [|split; [|split; [|split]]].
  - destruct (fst (fetch cfg url options logErrors decodeResponse o m)) as [r|e] eqn:F.
    + eauto.
    + destruct (throws_fetch nothing cfg url options logErrors decodeResponse o m e F).
  - destruct (throttled cfg (now_at o (clockReads m)) (api m)) eqn:T.
    + unfold throttled in T. apply andb_true_iff in T as [T1 T2].
      apply Z.geb_le in T1.
      destruct (Z.eq_dec (apiErrorCount (api m)) (PROTECT_API_ERROR_LIMIT cfg)) as [E|E].
      * rewrite (fetch_at_limit_eq _ _ _ _ _ _ _ E). cbn. lia.
      * apply orb_true_iff in T2 as [T2|T2]; [apply Z.eqb_eq in T2; contradiction|].
        apply Z.gtb_lt in T2. rewrite fetch_in_window_eq by lia. cbn. lia.
    + destruct (fetch_open_spec cfg o m url options logErrors decodeResponse T)
        as (_ & S & _). rewrite S. lia.
  - intros r F.
    destruct (throttled cfg (now_at o (clockReads m)) (api m)) eqn:T.
    + unfold throttled in T. apply andb_true_iff in T as [T1 T2].
      apply Z.geb_le in T1.
      destruct (Z.eq_dec (apiErrorCount (api m)) (PROTECT_API_ERROR_LIMIT cfg)) as [E|E].
      * rewrite (fetch_at_limit_eq _ _ _ _ _ _ _ E) in F. discriminate F.
      * apply orb_true_iff in T2 as [T2|T2]; [apply Z.eqb_eq in T2; contradiction|].
        apply Z.gtb_lt in T2. rewrite fetch_in_window_eq in F by lia. discriminate F.
    + destruct (fetch_open_spec cfg o m url options logErrors decodeResponse T)
        as (S1 & S2 & _). split; [exact S2|].
      rewrite S1 in F. injection F as F. unfold answer in F.
      destruct (net_at o (netCalls m)) as [r'|e]; [|discriminate F].
      destruct decodeResponse; [destruct (ok r'); [|discriminate F]|]; congruence.
  - destruct (throttled cfg (now_at o (clockReads m)) (api m)) eqn:T.
    + unfold throttled in T. apply andb_true_iff in T as [T1 T2].
      apply Z.geb_le in T1.
      destruct (Z.eq_dec (apiErrorCount (api m)) (PROTECT_API_ERROR_LIMIT cfg)) as [E|E].
      * rewrite (fetch_at_limit_eq _ _ _ _ _ _ _ E). reflexivity.
      * apply orb_true_iff in T2 as [T2|T2]; [apply Z.eqb_eq in T2; contradiction|].
        apply Z.gtb_lt in T2. rewrite fetch_in_window_eq by lia. reflexivity.
    + destruct (fetch_open_spec cfg o m url options logErrors decodeResponse T)
        as (_ & _ & S & _). exact S.
  - apply frames_identity_fetch.
Qed.

(** X1: fetch absorbs whatever the transport does.  It always completes
    normally, with a response or with null, makes at most one network call
    (exactly one when it hands a response back), and touches neither the
    session nor the address, the credentials and the device list. *)
Theorem fetch_absorbs_everything cfg url options logErrors decodeResponse o m :
  let out := fetch cfg url options logErrors decodeResponse o m in
  (exists r, fst out = Normal r) /\
  (netCalls m <= netCalls (snd out) <= S (netCalls m))%nat /\
  (forall r, fst out = Normal (Some r) ->
     netCalls (snd out) = S (netCalls m) /\ net_at o (netCalls m) = Normal r) /\
  session (api (snd out)) = session (api m) /\
  identity (snd out) = identity m.
Proof. apply fetch_total. Qed.


Lemma fetch_times_failing cfg url options logErrors o :
  (forall i, outcome_success (net_at o i) = false) ->
  forall n m,
    0 <= apiErrorCount (api m) ->
    apiErrorCount (api m) + Z.of_nat n <= PROTECT_API_ERROR_LIMIT cfg ->
    let out := fetch_times cfg n url options logErrors true o m in
    fst out = Normal (repeat None n) /\
    netCalls (snd out) = (netCalls m + n)%nat /\
    apiErrorCount (api (snd out)) = apiErrorCount (api m) + Z.of_nat n /\
    apiLastSuccess (api (snd out)) = apiLastSuccess (api m).
Proof.
  intros F n. induction n as [|n IH]; intros m P B; cbv zeta.
  - cbn. repeat split; lia.
  - cbn [fetch_times]. unfold bind.
    assert (T : throttled cfg (now_at o (clockReads m)) (api m) = false)
      by (apply throttled_below_limit; lia).
    destruct (fetch_open_spec cfg o m url options logErrors true T)
      as (S1 & S2 & _ & S4 & _).
    assert (A : answer true (net_at o (netCalls m)) = None).
    { specialize (F (netCalls m)). unfold answer, outcome_success in *.
      destruct (net_at o (netCalls m)); [rewrite F|]; reflexivity. }
    assert (R : recorded true (net_at o (netCalls m)) = Some false).
    { specialize (F (netCalls m)). unfold recorded, outcome_success in *.
      destruct (net_at o (netCalls m)); [rewrite F|]; reflexivity. }
    rewrite A in S1. rewrite R in S4. unfold recordOutcome, budget, past_throttle in S4.
    destruct (Z.geb_spec (apiErrorCount (api m)) (PROTECT_API_ERROR_LIMIT cfg)); [lia|].
    cbn [fst snd] in S4. injection S4 as S4a S4b.
    destruct (fetch cfg url options logErrors true o m) as [r m1]. cbn [fst snd] in *.
    subst r.
    specialize (IH m1 ltac:(lia) ltac:(lia)). cbv zeta in IH.
    destruct IH as (I1 & I2 & I3 & I4).
    destruct (fetch_times cfg n url options logErrors true o m1) as [rs m2].
    cbn [fst snd] in *. subst rs. cbn.
    repeat split; lia.
Qed.

(** X2: failures add up to the throttle.  From a counter of zero, as many
    failed decoded calls in a row as the error limit allows all go to the
    network and all return null, counting one error each; the call that
    follows is throttled: it returns null and the network is not touched. *)
Theorem fetch_failures_reach_the_throttle cfg url options logErrors o m n :
  (forall i, outcome_success (net_at o i) = false) ->
  apiErrorCount (api m) = 0 ->
  Z.of_nat n = PROTECT_API_ERROR_LIMIT cfg ->
  let out := fetch_times cfg n url options logErrors true o m in
  let next := fetch cfg url options logErrors true o (snd out) in
  fst out = Normal (repeat None n) /\
  netCalls (snd out) = (netCalls m + n)%nat /\
  apiErrorCount (api (snd out)) = PROTECT_API_ERROR_LIMIT cfg /\
  fst next = Normal None /\
  netCalls (snd next) = netCalls (snd out).
Proof.
  intros F Z N. cbv zeta.
  destruct (fetch_times_failing cfg url options logErrors o F n m ltac:(lia) ltac:(lia))
    as (A & B & C & _).
  split; [exact A|]. split; [exact B|]. split; [lia|].
  rewrite fetch_at_limit_eq by lia. split; reflexivity.
Qed.

Lemma fetch_failures_reach_the_throttle_witness :
  let o := steady 5000 (Normal (response_of 500 None)) (Normal None) in
  let out := fetch_times cfg0 10 "https://nvr.local" get_options true true o
               (machine_of api0) in
  netCalls (snd out) = 10%nat /\
  netCalls (snd (fetch cfg0 "https://nvr.local" get_options true true o (snd out)))
    = 10%nat.
Proof.
  cbv zeta.
  pose proof (fetch_failures_reach_the_throttle cfg0 "https://nvr.local" get_options
                true (steady 5000 (Normal (response_of 500 None)) (Normal None))
                (machine_of api0) 10 (fun _ => eq_refl) eq_refl eq_refl) as W.
  cbv zeta in W. destruct W as (_ & W2 & _ & _ & W5).
  split; [exact W2 | rewrite W5; exact W2].
Defined.

(** X3: one whole penalty.  At the error limit the first call is refused and
    stamps the time; a call before that time plus the retry interval is
    refused as well; the first call at or after it goes out, and on a 2xx
    answer the budget is back to zero errors, stamped with the time of the
    success.  In all, one network call. *)
Theorem fetch_penalty_cycle cfg url options logErrors o m r :
  apiErrorCount (api m) = PROTECT_API_ERROR_LIMIT cfg ->
  now_at o (S (clockReads m))
    < now_at o (clockReads m) + PROTECT_API_RETRY_INTERVAL cfg * 1000 ->
  now_at o (clockReads m) + PROTECT_API_RETRY_INTERVAL cfg * 1000
    <= now_at o (S (S (clockReads m))) ->
  net_at o (netCalls m) = Normal r ->
  ok r = true ->
  let first := fetch cfg url options logErrors true o m in
  let second := fetch cfg url options logErrors true o (snd first) in
  let third := fetch cfg url options logErrors true o (snd second) in
  fst first = Normal None /\
  fst second = Normal None /\
  fst third = Normal (Some r) /\
  netCalls (snd third) = S (netCalls m) /\
  budget (api (snd third)) = (0, now_at o (S (S (S (clockReads m))))).
Proof.
  intros L W1 W2 N K. cbv zeta.
  rewrite (fetch_at_limit_eq _ _ _ _ _ _ _ L). cbn [fst snd].
  rewrite fetch_in_window_eq; [|cbn; lia|cbn; lia]. cbn [fst snd].
  split; [reflexivity|]. split; [reflexivity|].
  match goal with
  | |- context [fetch cfg url options logErrors true o ?m2] =>
      assert (T : throttled cfg (now_at o (clockReads m2)) (api m2) = false)
        by (apply throttled_after_window; cbn; lia);
      destruct (fetch_open_spec cfg o m2 url options logErrors true T)
        as (S1 & S2 & _ & S4 & _);
      rewrite S1, S2, S4
  end.
  cbn [netCalls clockReads api]. rewrite N. unfold answer, recorded. rewrite K.
  split; [reflexivity|]. split; [reflexivity|].
  unfold recordOutcome. reflexivity.
Qed.

Lemma fetch_penalty_cycle_witness :
  let o := clock_of 1000 2000 301000 301005 (Normal (response_of 200 None))
             (Normal None) in
  let m := machine_of (set_apiErrorCount 10 api0) in
  let first := fetch cfg0 "https://nvr.local" get_options true true o m in
  let second := fetch cfg0 "https://nvr.local" get_options true true o (snd first) in
  let third := fetch cfg0 "https://nvr.local" get_options true true o (snd second) in
  netCalls (snd third) = 1%nat /\ budget (api (snd third)) = (0, 301005).
Proof.
  cbv zeta.
  pose proof (fetch_penalty_cycle cfg0 "https://nvr.local" get_options true
                (clock_of 1000 2000 301000 301005 (Normal (response_of 200 None))
                   (Normal None))
                (machine_of (set_apiErrorCount 10 api0)) (response_of 200 None)
                eq_refl ltac:(cbn; lia) ltac:(cbn; lia) eq_refl eq_refl) as W.
  cbv zeta in W. destruct W as (_ & _ & _ & W4 & W5).
  split; [exact W4 | exact W5].
Defined.

(** * The token *)

Lemma has_insert_eq k v h : has k (<[k := v]> h) = true.
Proof. unfold has. rewrite lookup_insert_eq. reflexivity. Qed.

Lemma has_insert_ne k k' v h : k <> k' -> has k' (<[k := v]> h) = has k' h.
Proof. intros N. unfold has. rewrite lookup_insert_ne by exact N. reflexivity. Qed.

(** X4: what acquireToken leaves behind.  With a login, a token or an
    Authorization header in hand it returns true at once and changes nothing;
    whenever it returns true one of the three is in hand afterwards; when it
    returns false the headers are as they were.  It never throws. *)
Theorem acquireToken_outcome cfg o m :
  let out := acquireToken cfg o m in
  let held a := loggedIn a || has "X-CSRF-Token" (headers a)
                || has "Authorization" (headers a) in
  (held (api m) = true -> out = (Normal true, m)) /\
  (fst out = Normal true /\ held (api (snd out)) = true \/
   fst out = Normal false /\ headers (api (snd out)) = headers (api m)) /\
  loggedIn (api (snd out)) = loggedIn (api m).
Proof.
  cbv zeta. unfold acquireToken, bind, get, ret, modify. cbn.
  destruct (loggedIn (api m) || has "X-CSRF-Token" (headers (api m))
            || has "Authorization" (headers (api m))) eqn:H.
  - split; [reflexivity|]. split; [left; auto | reflexivity].
  - split; [discriminate|].
    pose proof (fetch_total cfg ("https://" +:+ nvrAddress (api m))
                  {| req_method := GET; req_body := None |} false true o m) as A.
    cbv zeta in A. destruct A as ([r A1] & _ & _ & A4 & _).
    destruct (fetch cfg _ _ false true o m) as [f m1]. cbn [fst snd] in *. subst f.
    assert (Hh : headers (api m1) = headers (api m)).
    { apply (f_equal snd) in A4. exact A4. }
    assert (Hl : loggedIn (api m1) = loggedIn (api m)).
    { apply (f_equal (fun t => fst (fst (fst (fst (fst (fst t))))))) in A4. exact A4. }
    destruct r as [r|]; [|cbn; auto].
    destruct (ok r); [|cbn; auto].
    destruct (resp_csrfToken r) as [t|]; [|cbn; auto].
    destruct (truthy (Some t)); cbn; [|auto].
    split; [|exact Hl]. left. split; [reflexivity|].
    rewrite has_insert_eq. rewrite orb_true_r. reflexivity.
Qed.

Section GrowRules.

Lemma grows_ret {A} (a : A) : Grows (ret a).
Proof. intros o m. exists []. symmetry. apply app_nil_r. Qed.

Lemma grows_throw {A} e : Grows (@throw A e).
Proof. intros o m. exists []. symmetry. apply app_nil_r. Qed.

Lemma grows_lift {A} (c : Completion A) : Grows (lift c).
Proof. intros o m. exists []. symmetry. apply app_nil_r. Qed.

Lemma grows_get {A} (f : ProtectApi -> A) : Grows (get f).
Proof. intros o m. exists []. symmetry. apply app_nil_r. Qed.

Lemma grows_modify f : Grows (modify f).
Proof. intros o m. exists []. symmetry. apply app_nil_r. Qed.

Lemma grows_Date_now : Grows Date_now.
Proof. intros o m. exists []. symmetry. apply app_nil_r. Qed.

Lemma grows_emit e : Grows (emit e).
Proof. intros o m. exists [e]. reflexivity. Qed.

Lemma grows_node_fetch url init : Grows (node_fetch url init).
Proof. intros o m. eexists. reflexivity. Qed.

Lemma grows_new_WebSocket url cookie : Grows (new_WebSocket url cookie).
Proof. intros o m. eexists. reflexivity. Qed.

Lemma grows_bind {A B} (c : M A) (k : A -> M B) :
  Grows c -> (forall a, Grows (k a)) -> Grows (bind c k).
Proof.
  intros Hc Hk o m. unfold bind. destruct (Hc o m) as [e1 H1].
  destruct (c o m) as [[a|e] m1]; cbn in *.
  - destruct (Hk a o m1) as [e2 H2]. exists (e1 ++ e2).
    rewrite H2, H1. symmetry. apply app_assoc.
  - eauto.
Qed.

Lemma grows_try_catch {A} (c : M A) (h : JsError -> M A) :
  Grows c -> (forall e, Grows (h e)) -> Grows (try_catch c h).
Proof.
  intros Hc Hh o m. unfold try_catch. destruct (Hc o m) as [e1 H1].
  destruct (c o m) as [[a|e] m1]; cbn in *.
  - eauto.
  - destruct (Hh e o m1) as [e2 H2]. exists (e1 ++ e2).
    rewrite H2, H1. symmetry. apply app_assoc.
Qed.

Lemma grows_try_finally {A} (c : M A) (f : M unit) :
  Grows c -> Grows f -> Grows (try_finally c f).
Proof.
  intros Hc Hf o m. unfold try_finally. destruct (Hc o m) as [e1 H1].
  destruct (c o m) as [r m1]; cbn in *.
  destruct (Hf o m1) as [e2 H2]. exists (e1 ++ e2).
  rewrite H2, H1. symmetry. apply app_assoc.
Qed.

Lemma grows_for_of {A} (l : list A) (body : A -> M unit) :
  (forall x, Grows (body x)) -> Grows (for_of l body).
Proof.
  intros H. induction l as [|x l IH]; cbn [for_of].
  - apply grows_ret.
  - apply grows_bind; [apply H | intros _; exact IH].
Qed.

End GrowRules.

Create HintDb grows.
#[local] Hint Resolve grows_ret grows_throw grows_lift grows_get grows_modify
  grows_Date_now grows_emit grows_node_fetch grows_new_WebSocket : grows.

Ltac walk_grows :=
  repeat first
    [ progress cbv beta zeta
    | solve [auto with grows]
    | apply grows_bind; [|intros ?]
    | apply grows_try_finally
    | apply grows_try_catch; [|intros ?]
    | apply grows_for_of; intros ?
    | match goal with
      | |- Grows (if ?b then _ else _) => destruct b
      | |- Grows (match ?x with _ => _ end) => destruct x
      end ].

Lemma grows_clearLoginCredentials : Grows clearLoginCredentials.
Proof. unfold clearLoginCredentials. walk_grows. Qed.
#[local] Hint Resolve grows_clearLoginCredentials : grows.

Lemma grows_fetch cfg url options logErrors decodeResponse :
  Grows (fetch cfg url options logErrors decodeResponse).
Proof.
  unfold fetch, fetch_request, fetch_catch, incr_apiErrorCount, log_info, log_error,
    getNvrName.
  walk_grows.
Qed.
#[local] Hint Resolve grows_fetch : grows.

Lemma grows_acquireToken cfg : Grows (acquireToken cfg).
Proof. unfold acquireToken. walk_grows. Qed.
#[local] Hint Resolve grows_acquireToken : grows.

Lemma grows_login cfg : Grows (login cfg).
Proof. unfold login, loginWrapped, authUrl. walk_grows. Qed.
#[local] Hint Resolve grows_login : grows.

Lemma frames_standing_fetch cfg url options logErrors decodeResponse :
  Frames (fun m => standing (api m)) (fetch cfg url options logErrors decodeResponse).
Proof.
  unfold fetch, fetch_request, fetch_catch, incr_apiErrorCount, log_info, log_error,
    getNvrName.
  walk_frames.
Qed.
#[local] Hint Resolve frames_standing_fetch : frames.

Lemma frames_standing_acquireToken cfg : Frames (fun m => standing (api m)) (acquireToken cfg).
Proof. unfold acquireToken. walk_frames. Qed.

Lemma login_split cfg o m :
  login cfg o m =
  login_after_renewal cfg (now_at o (clockReads m)) o (renewed cfg o m).
Proof.
  unfold login, loginWrapped, login_after_renewal, renewed, expired, bind, get, Date_now.
  cbn. destruct (_ >? _); [rewrite clearLoginCredentials_eq|]; reflexivity.
Qed.

Lemma acquireToken_netCalls cfg o m :
  (netCalls m <= netCalls (snd (acquireToken cfg o m)))%nat.
Proof.
  unfold acquireToken, bind, get, ret, modify. cbn.
  destruct (_ || _ || _); [cbn; lia|].
  pose proof (fetch_netCalls cfg ("https://" +:+ nvrAddress (api m))
                {| req_method := GET; req_body := None |} false true o m) as N.
  cbv zeta in N. destruct N as [N _].
  destruct (fetch cfg _ _ false true o m) as [[[r|]|e] m1]; cbn in *; try lia.
  destruct (ok r); cbn; [|lia]. destruct (resp_csrfToken r) as [t|]; cbn; [|lia].
  destruct (truthy (Some t)); cbn; lia.
Qed.

(** The facts about one run of the second part of loginWrapped, gathered at
    its leaves. *)
Lemma login_after_renewal_spec cfg now o m :
  let out := login_after_renewal cfg now o m in
  (loggedIn (api m) = true /\ out = (Normal true, m)) \/
  (loggedIn (api m) = false /\
   ((fst out = Normal false /\ session (api (snd out)) = cleared_session) \/
    (fst out = Normal true /\
     loggedIn (api (snd out)) = true /\
     loginAge (api (snd out)) = now /\
     standing (api (snd out)) = standing (api m) /\
     (netCalls m < netCalls (snd out))%nat /\
     exists r token cookie,
       ok r = true /\
       resp_csrfToken r = Some token /\ resp_setCookie r = Some cookie /\
       token <> "" /\ cookie <> "" /\
       headers (api (snd out)) !! "X-CSRF-Token" = Some token /\
       headers (api (snd out)) !! "Cookie" = Some cookie))).
Proof.
  cbv zeta. unfold login_after_renewal, bind, get, ret, modify, authUrl. cbn.
  destruct (loggedIn (api m)) eqn:L; [left; auto|right].
  split; [reflexivity|].
  pose proof (acquireToken_netCalls cfg o m) as AN.
  pose proof (frames_standing_acquireToken cfg o m) as AS.
  pose proof (throws_acquireToken nothing cfg o m) as AT.
  destruct (acquireToken cfg o m) as [[[|]|e] m1]; cbn [fst snd negb] in *;
    [| rewrite clearLoginCredentials_eq; left; auto | destruct (AT e eq_refl)].
  match goal with
  | |- context [fetch cfg ?u ?i true true o m1] =>
      pose proof (fetch_netCalls cfg u i true true o m1) as FN;
      pose proof (frames_standing_fetch cfg u i true true o m1) as FS;
      pose proof (throws_fetch nothing cfg u i true true o m1) as FT;
      destruct (fetch cfg u i true true o m1) as [[[r|]|e] m2]
  end; cbv zeta in FN; cbn [fst snd] in *;
    [| rewrite clearLoginCredentials_eq; left; auto | destruct (FT e eq_refl)].
  destruct FN as [_ FN]. specialize (FN r eq_refl).
  destruct (ok r) eqn:K; cbn [negb]; [|rewrite clearLoginCredentials_eq; left; auto].
  cbn.
  destruct (resp_csrfToken r) as [token|] eqn:Tk;
    [|rewrite clearLoginCredentials_eq; left; auto].
  destruct (resp_setCookie r) as [cookie|] eqn:Ck;
    [|rewrite clearLoginCredentials_eq; left; auto].
  destruct (truthy (Some token)) eqn:T1; cbn;
    [|rewrite clearLoginCredentials_eq; left; auto].
  destruct (truthy (Some cookie)) eqn:T2; cbn;
    [|rewrite clearLoginCredentials_eq; left; auto].
  destruct (has "X-CSRF-Token" (headers (api m2))); cbn;
    [|rewrite clearLoginCredentials_eq; left; auto].
  right. split; [reflexivity|]. split; [reflexivity|]. split; [reflexivity|].
  split; [unfold standing in *; cbn; congruence|].
  split; [lia|].
  exists r, token, cookie. repeat split; auto.
  - intros ->. discriminate T1.
  - intros ->. discriminate T2.
  - apply lookup_insert_eq.
  - rewrite lookup_insert_ne by discriminate. apply lookup_insert_eq.
Qed.

(** * More on login *)

Lemma grows_login_after_renewal cfg now : Grows (login_after_renewal cfg now).
Proof. unfold login_after_renewal, authUrl. walk_grows. Qed.

Lemma login_never_throws cfg o m : exists li, fst (login cfg o m) = Normal li.
Proof.
  destruct (fst (login cfg o m)) as [li|e] eqn:L; [eauto|].
  destruct (throws_login nothing cfg o m e L).
Qed.

Lemma login_outcome_spec cfg o m :
  let out := login cfg o m in
  (fst out = Normal true /\ loggedIn (api (snd out)) = true) \/
  (fst out = Normal false /\ session (api (snd out)) = cleared_session).
Proof.
  cbv zeta. rewrite login_split.
  destruct (login_after_renewal_spec cfg (now_at o (clockReads m)) o (renewed cfg o m))
    as [[L E]|[L [[F S]|(F & L' & _)]]].
  - rewrite E. left. auto.
  - right. auto.
  - left. auto.
Qed.

Lemma renewed_netCalls cfg o m : netCalls (renewed cfg o m) = netCalls m.
Proof. unfold renewed. destruct (expired _ _ _); reflexivity. Qed.

Lemma renewed_loggedIn cfg o m :
  loggedIn (api m) = false \/ expired cfg (now_at o (clockReads m)) (api m) = true ->
  loggedIn (api (renewed cfg o m)) = false.
Proof.
  unfold renewed. intros [L|E].
  - destruct (expired _ _ _); [reflexivity|exact L].
  - rewrite E. reflexivity.
Qed.

(** X5: what login returns is what the instance is.  It never throws; when
    it returns true the instance is logged in, when it returns false the
    session has been cleared; and on a session that is logged in and not older
    than the refresh interval it returns true after reading the clock, with
    the instance, the network and the trace untouched. *)
Theorem login_outcome cfg o m :
  let out := login cfg o m in
  ((fst out = Normal true /\ loggedIn (api (snd out)) = true) \/
   (fst out = Normal false /\ session (api (snd out)) = cleared_session)) /\
  (loggedIn (api m) = true ->
   expired cfg (now_at o (clockReads m)) (api m) = false ->
   out = (Normal true, tick m)).
Proof.
  cbv zeta. split; [apply login_outcome_spec|].
  intros L E. rewrite login_split. unfold renewed. rewrite E.
  destruct (login_after_renewal_spec cfg (now_at o (clockReads m)) o (tick m))
    as [[_ Q]|[L' _]]; [exact Q|].
  cbn in L'. congruence.
Qed.

Lemma login_outcome_witness :
  let o := steady 5000 (Thrown AbortError) (Normal None) in
  login cfg0 o (machine_of api_logged_in) = (Normal true, tick (machine_of api_logged_in)).
Proof.
  cbv zeta.
  pose proof (login_outcome cfg0 (steady 5000 (Thrown AbortError) (Normal None))
                (machine_of api_logged_in)) as W.
  cbv zeta in W. destruct W as [_ W]. apply W; reflexivity.
Defined.

(** X6: a login that had to be made.  When login returns true for an
    instance that was logged out, or whose session was older than the refresh
    interval, it has been to the network, the login age is the time read at
    the start of the call, and the headers hold the non-empty token and
    cookie of an ok response. *)
Theorem login_new_session cfg o m :
  loggedIn (api m) = false \/ expired cfg (now_at o (clockReads m)) (api m) = true ->
  fst (login cfg o m) = Normal true ->
  let a := api (snd (login cfg o m)) in
  loggedIn a = true /\
  loginAge a = now_at o (clockReads m) /\
  (netCalls m < netCalls (snd (login cfg o m)))%nat /\
  exists r token cookie,
    ok r = true /\
    resp_csrfToken r = Some token /\ resp_setCookie r = Some cookie /\
    token <> "" /\ cookie <> "" /\
    headers a !! "X-CSRF-Token" = Some token /\
    headers a !! "Cookie" = Some cookie.
Proof.
  intros H. cbv zeta. rewrite login_split. intros F.
  pose proof (renewed_loggedIn cfg o m H) as L.
  destruct (login_after_renewal_spec cfg (now_at o (clockReads m)) o (renewed cfg o m))
    as [[L' _]|[_ [[F' _]|(_ & A & B & _ & C & D)]]].
  - congruence.
  - congruence.
  - rewrite renewed_netCalls in C. auto.
Qed.

Lemma login_new_session_witness :
  let o := steady 5000 (Normal (response_of 200 None)) (Normal None) in
  let a := api (snd (login cfg0 o (machine_of api0))) in
  loginAge a = 5000 /\ netCalls (snd (login cfg0 o (machine_of api0))) = 2%nat.
Proof.
  cbv zeta.
  pose proof (login_new_session cfg0
                (steady 5000 (Normal (response_of 200 None)) (Normal None))
                (machine_of api0) (or_introl eq_refl) eq_refl) as W.
  cbv zeta in W. destruct W as (_ & W & _). split; [exact W | reflexivity].
Defined.

(** X7: an old session is dropped first.  A login made when the clock is
    past the login age plus the refresh interval clears the credentials before
    anything else: a recorded listener is terminated, and whatever the login
    then returns, the instance is left without bootstrap, without listener
    and with the admin flag down; if it returns true, it has been to the
    network. *)
Theorem login_renews_an_old_session cfg o m :
  expired cfg (now_at o (clockReads m)) (api m) = true ->
  let out := login cfg o m in
  standing (api (snd out)) = (false, None, None, false) /\
  (forall ws, eventListener (api m) = Some ws ->
     In (EvSocketTerminate ws) (trace (snd out))) /\
  (fst out = Normal true -> (netCalls m < netCalls (snd out))%nat).
Proof.
  intros E. cbv zeta. rewrite login_split.
  assert (R : renewed cfg o m = cleared (tick m)) by (unfold renewed; rewrite E; reflexivity).
  rewrite R.
  destruct (grows_login_after_renewal cfg (now_at o (clockReads m)) o (cleared (tick m)))
    as [evs G].
  destruct (login_after_renewal_spec cfg (now_at o (clockReads m)) o (cleared (tick m)))
    as [[L _]|[_ [[F S]|(F & _ & _ & S & N & _)]]].
  - discriminate L.
  - split; [|split].
    + unfold session, cleared_session in S. unfold standing. congruence.
    + intros ws W. rewrite G. cbn. rewrite W. rewrite !in_app_iff. cbn. auto.
    + rewrite F. discriminate.
  - split; [|split].
    + rewrite S. reflexivity.
    + intros ws W. rewrite G. cbn. rewrite W. rewrite !in_app_iff. cbn. auto.
    + intros _. exact N.
Qed.

Lemma login_renews_an_old_session_witness :
  let o := steady 1801001 (Normal (response_of 200 None)) (Normal None) in
  let out := login cfg0 o (machine_of api_logged_in) in
  standing (api (snd out)) = (false, None, None, false) /\
  In (EvSocketTerminate 7%nat) (trace (snd out)).
Proof.
  cbv zeta.
  pose proof (login_renews_an_old_session cfg0
                (steady 1801001 (Normal (response_of 200 None)) (Normal None))
                (machine_of api_logged_in) eq_refl) as W.
  cbv zeta in W. destruct W as (W1 & W2 & _).
  split; [exact W1 | exact (W2 7%nat eq_refl)].
Defined.

(** * More on the camera operations *)

Lemma checkCameraState_eq cfg device o m li :
  fst (login cfg o m) = Normal li ->
  checkCameraState cfg device o m =
  (Normal (camera_state_ok device li (api (snd (login cfg o m)))), snd (login cfg o m)).
Proof.
  intros L. unfold checkCameraState, camera_state_ok, bind, get, ret. cbv beta.
  destruct (login cfg o m) as [l m1]. cbn [fst snd] in *. subst l.
  destruct li; cbn; [|reflexivity].
  destruct (isAdminUser (api m1)); cbn; [|reflexivity].
  destruct (String.eqb (cam_modelKey device) "camera"); reflexivity.
Qed.

Lemma updateChannels_eq cfg device o m li :
  fst (login cfg o m) = Normal li ->
  updateChannels cfg device o m =
  if camera_state_ok device li (api (snd (login cfg o m)))
  then updateChannels_request cfg device o (snd (login cfg o m))
  else (Normal JNull, snd (login cfg o m)).
Proof.
  intros L. unfold updateChannels, bind. cbv beta.
  rewrite (checkCameraState_eq cfg device o m li L).
  destruct (camera_state_ok _ _ _); reflexivity.
Qed.

Lemma enableRtsp_eq cfg device o m li :
  fst (login cfg o m) = Normal li ->
  enableRtsp cfg device o m =
  if camera_state_ok device li (api (snd (login cfg o m)))
  then match cam_channels device with
       | Some chs =>
           if forallb isRtspEnabled chs
           then (Normal (JCamera device), snd (login cfg o m))
           else updateChannels cfg (with_channels (Some (all_enabled chs)) device) o
                  (snd (login cfg o m))
       | None => (Normal (JCamera device), snd (login cfg o m))
       end
  else (Normal JNull, snd (login cfg o m)).
Proof.
  intros L. unfold enableRtsp, bind. cbv beta.
  rewrite (checkCameraState_eq cfg device o m li L).
  destruct (camera_state_ok _ _ _); cbn [negb]; [|reflexivity].
  destruct (cam_channels device) as [chs|]; [|reflexivity].
  assert (Q : existsb (fun channel => negb (isRtspEnabled channel)) chs
              = negb (forallb isRtspEnabled chs)).
  { induction chs as [|c chs IH]; cbn; [reflexivity|].
    rewrite IH. destruct (isRtspEnabled c); reflexivity. }
  rewrite Q, negb_involutive. destruct (forallb isRtspEnabled chs); reflexivity.
Qed.

Lemma updateCamera_refused cfg d payload o m li :
  fst (login cfg o m) = Normal li ->
  li && isAdminUser (api (snd (login cfg o m))) = false ->
  updateCamera cfg (Some d) payload o m = (Normal JNull, snd (login cfg o m)).
Proof.
  intros L R. unfold updateCamera, bind, get. cbv beta.
  destruct (login cfg o m) as [l m1]. cbn [fst snd] in *. subst l.
  destruct li; cbn; [|reflexivity]. cbn in R. rewrite R. reflexivity.
Qed.

Lemma camera_state_ok_false device li a :
  li && isAdminUser a = false \/ cam_modelKey device <> "camera" ->
  camera_state_ok device li a = false.
Proof.
  unfold camera_state_ok. intros [H|H].
  - rewrite H. reflexivity.
  - destruct (String.eqb_spec (cam_modelKey device) "camera"); [contradiction|].
    apply andb_false_r.
Qed.

(** X8: no PATCH without a login, an administrator and a camera.  When the
    login fails or leaves the admin flag down, updateCamera, updateChannels
    and enableRtsp return null on the machine login has left: nothing is sent.
    updateChannels and enableRtsp refuse in the same way a device whose model
    key is not camera.  updateCamera without a device returns null without
    even a login. *)
Theorem camera_operations_refused cfg d payload o m li :
  fst (login cfg o m) = Normal li ->
  let m1 := snd (login cfg o m) in
  (li && isAdminUser (api m1) = false ->
     updateCamera cfg (Some d) payload o m = (Normal JNull, m1)) /\
  (li && isAdminUser (api m1) = false \/ cam_modelKey d <> "camera" ->
     updateChannels cfg d o m = (Normal JNull, m1) /\
     enableRtsp cfg d o m = (Normal JNull, m1)) /\
  updateCamera cfg None payload o m = (Normal JNull, m).
Proof.
  intros L. cbv zeta. split; [|split].
  - apply updateCamera_refused. exact L.
  - intros H. rewrite (updateChannels_eq _ _ _ _ _ L), (enableRtsp_eq _ _ _ _ _ L).
    rewrite (camera_state_ok_false _ _ _ H). auto.
  - reflexivity.
Qed.

Lemma camera_operations_refused_witness :
  let o := steady 5000 (Normal (response_of 200 None)) (Normal None) in
  let m := machine_of api_logged_in in
  updateCamera cfg0 (Some camera0) "{}" o m = (Normal JNull, tick m) /\
  enableRtsp cfg0 camera0 o m = (Normal JNull, tick m).
Proof.
  cbv zeta.
  pose proof (camera_operations_refused cfg0 camera0 "{}"
                (steady 5000 (Normal (response_of 200 None)) (Normal None))
                (machine_of api_logged_in) true eq_refl) as W.
  cbv zeta in W. destruct W as (W1 & W2 & _).
  split; [exact (W1 eq_refl) | exact (proj2 (W2 (or_introl eq_refl)))].
Defined.

(** X9: right after a renewal every camera operation is refused.  A call of
    updateCamera, updateChannels or enableRtsp that finds the session older
    than the refresh interval returns null without a PATCH, also for a user
    who was an administrator: the renewal has taken the admin flag down, and
    only a bootstrap sets it again. *)
Theorem camera_operations_after_renewal cfg d payload o m :
  expired cfg (now_at o (clockReads m)) (api m) = true ->
  let m1 := snd (login cfg o m) in
  updateCamera cfg (Some d) payload o m = (Normal JNull, m1) /\
  updateChannels cfg d o m = (Normal JNull, m1) /\
  enableRtsp cfg d o m = (Normal JNull, m1).
Proof.
  intros E. cbv zeta.
  destruct (login_never_throws cfg o m) as [li L].
  assert (A : isAdminUser (api (snd (login cfg o m))) = false).
  { rewrite login_split.
    assert (R : renewed cfg o m = cleared (tick m))
      by (unfold renewed; rewrite E; reflexivity).
    rewrite R.
    destruct (login_after_renewal_spec cfg (now_at o (clockReads m)) o (cleared (tick m)))
      as [[L' _]|[_ [[_ S]|(_ & _ & _ & S & _)]]].
    - discriminate L'.
    - apply (f_equal (fun t => snd (fst (fst (fst (fst t)))))) in S. exact S.
    - apply (f_equal (fun t => fst (fst (fst t)))) in S. exact S. }
  assert (H : li && isAdminUser (api (snd (login cfg o m))) = false)
    by (rewrite A; apply andb_false_r).
  rewrite (updateCamera_refused _ _ _ _ _ _ L H).
  rewrite (updateChannels_eq _ _ _ _ _ L), (enableRtsp_eq _ _ _ _ _ L).
  rewrite (camera_state_ok_false _ _ _ (or_introl H)). auto.
Qed.

Lemma camera_operations_after_renewal_witness :
  let o := steady 1801001 (Normal (response_of 200 None)) (Normal None) in
  fst (updateCamera cfg0 (Some camera0) "{}" o (machine_of api_admin)) = Normal JNull.
Proof.
  cbv zeta.
  pose proof (camera_operations_after_renewal cfg0 camera0 "{}"
                (steady 1801001 (Normal (response_of 200 None)) (Normal None))
                (machine_of api_admin) eq_refl) as W.
  cbv zeta in W. destruct W as (W & _). rewrite W. reflexivity.
Defined.

Lemma updateCamera_eq cfg d payload o m :
  fst (login cfg o m) = Normal true ->
  isAdminUser (api (snd (login cfg o m))) = true ->
  updateCamera cfg (Some d) payload o m =
  updateCamera_request cfg d payload o (snd (login cfg o m)).
Proof.
  intros L A. unfold updateCamera, updateCamera_request, bind, get. cbv beta.
  destruct (login cfg o m) as [l m1]. cbn [fst snd] in *. subst l. cbn.
  rewrite A. reflexivity.
Qed.

Lemma through_throttle_facts cfg o m :
  let M := through_throttle cfg m in
  network_io (trace M) = network_io (trace m) /\
  headers (api M) = headers (api m) /\
  nvrAddress (api M) = nvrAddress (api m) /\
  apiLastSuccess (api M) = apiLastSuccess (api m) /\
  apiErrorCount (api M) = apiErrorCount (past_throttle cfg (api m)) /\
  clockReads M = S (clockReads m) /\
  net_at o (netCalls M) = net_at o (netCalls m).
Proof.
  cbv zeta. split; [apply network_io_through_throttle|].
  unfold through_throttle, past_throttle. cbn. destruct (_ >=? _); cbn; auto 10.
Qed.

(** Replace a call of fetch that is let through by the request on the
    machine past the throttle, kept abstract. *)
Tactic Notation "open_fetch" constr(T) "as" ident(M) :=
  rewrite (fetch_open _ _ _ _ _ _ _ T);
  match goal with
  | |- context [through_throttle ?cfg ?m] =>
      let F := fresh "F" in
      pose proof (through_throttle_facts cfg) as F;
      specialize (F ltac:(assumption) m); cbv zeta in F;
      remember (through_throttle cfg m) as M;
      destruct F as (?Fio & ?Fh & ?Fa & ?Fl & ?Fc & ?Fk & ?Fn)
  end;
  unfold attempt, try_finally, try_catch, fetch_request, fetch_catch, bind, node_fetch,
    incr_apiErrorCount, modify, emit, log_error, get, ret, Date_now.

(** The channel update, request sent. *)
Lemma updateChannels_request_spec cfg device o m :
  throttled cfg (now_at o (clockReads m)) (api m) = false ->
  let out := updateChannels_request cfg device o m in
  let before := apiErrorCount (past_throttle cfg (api m)) in
  network_io (trace (snd out)) =
    network_io (trace m) ++
    [EvFetch (camera_url (api m) device)
       {| req_method := PATCH; req_body := Some (BodyChannels (cam_channels device)) |}
       (headers (api m))] /\
  match net_at o (netCalls m) with
  | Normal r =>
      if ok r then
        fst out = decoded r /\
        budget (api (snd out)) = (0, now_at o (S (clockReads m)))
      else
        fst out = Normal (JCamera device) /\
        budget (api (snd out)) = (before + 1, apiLastSuccess (api m))
  | Thrown e =>
      fst out = Normal (JCamera device) /\
      budget (api (snd out)) = (before + 2, apiLastSuccess (api m))
  end.
Proof.
  intros T. cbv zeta.
  unfold updateChannels_request, camerasUrl, bind, get, ret. cbn.
  open_fetch T as M. unfold getFullName, getNvrName, response_json, decoded, bind, get, ret.
  cbn. rewrite <- Fn, <- Fio, <- Fh, <- Fl, <- Fc, <- Fk. unfold camera_url.
  destruct (net_at o (netCalls M)) as [r|e]; cbn.
  - destruct (ok r); cbn.
    + destruct (json r); cbn; rewrite !network_io_app; cbn; rewrite ?app_nil_r; auto.
    + destruct (status r =? 403); cbn; unfold budget; cbn;
        rewrite !network_io_app; cbn; rewrite ?app_nil_r; auto.
  - assert (Q : forall z, z + 1 + 1 = z + 2) by (intros; lia).
    destruct e; cbn;
      repeat (match goal with
              | |- context [String.eqb ?a ?b] => destruct (String.eqb a b); cbn
              end);
      unfold budget; cbn; rewrite ?Q, ?network_io_app; cbn;
      rewrite ?app_nil_r; auto.
Qed.

Lemma updateChannels_request_throttled cfg device o m :
  throttled cfg (now_at o (clockReads m)) (api m) = true ->
  let out := updateChannels_request cfg device o m in
  fst out = Normal (JCamera device) /\
  netCalls (snd out) = netCalls m /\
  network_io (trace (snd out)) = network_io (trace m) /\
  apiErrorCount (api (snd out)) =
    apiErrorCount (api m)
    + (if apiErrorCount (api m) =? PROTECT_API_ERROR_LIMIT cfg then 2 else 1).
Proof.
  intros T. cbv zeta. unfold throttled in T. apply andb_true_iff in T as [T1 T2].
  apply Z.geb_le in T1.
  unfold updateChannels_request, camerasUrl, bind, get, ret. cbn.
  destruct (Z.eqb_spec (apiErrorCount (api m)) (PROTECT_API_ERROR_LIMIT cfg)) as [E|E].
  - rewrite (fetch_at_limit_eq _ _ _ _ _ _ _ E).
    unfold incr_apiErrorCount, getFullName, getNvrName, log_error, emit, modify, bind,
      get, ret. cbn.
    rewrite !network_io_app. cbn. rewrite !app_nil_r.
    repeat split; lia.
  - cbn in T2. apply Z.gtb_lt in T2. rewrite fetch_in_window_eq by lia.
    unfold incr_apiErrorCount, getFullName, getNvrName, log_error, emit, modify, bind,
      get, ret. cbn.
    rewrite !network_io_app. cbn. rewrite !app_nil_r.
    repeat split; lia.
Qed.

Lemma all_enabled_spec chs :
  forallb isRtspEnabled (all_enabled chs) = true /\
  map channel_id (all_enabled chs) = map channel_id chs /\
  length (all_enabled chs) = length chs.
Proof.
  unfold all_enabled. split; [|split].
  - induction chs as [|c chs IH]; cbn; auto.
  - rewrite map_map. reflexivity.
  - apply length_map.
Qed.

(** X10: nothing to enable, nothing sent.  When the camera state check
    passes and the device has no channel list, or every channel already has
    RTSP enabled, enableRtsp hands the device back on the machine login has
    left: no PATCH goes out. *)
Theorem enableRtsp_nothing_to_enable cfg device o m li :
  fst (login cfg o m) = Normal li ->
  camera_state_ok device li (api (snd (login cfg o m))) = true ->
  (cam_channels device = None \/
   exists chs, cam_channels device = Some chs /\ forallb isRtspEnabled chs = true) ->
  enableRtsp cfg device o m = (Normal (JCamera device), snd (login cfg o m)).
Proof.
  intros L K H. rewrite (enableRtsp_eq _ _ _ _ _ L), K.
  destruct H as [->|(chs & -> & ->)]; reflexivity.
Qed.

Lemma enableRtsp_nothing_to_enable_witness :
  let o := steady 5000 (Normal (response_of 200 None)) (Normal None) in
  let device := with_channels (Some [ {| channel_id := 0; isRtspEnabled := true |} ])
                  camera0 in
  enableRtsp cfg0 device o (machine_of api_admin)
  = (Normal (JCamera device), tick (machine_of api_admin)).
Proof.
  cbv zeta.
  apply (enableRtsp_nothing_to_enable cfg0
           (with_channels (Some [ {| channel_id := 0; isRtspEnabled := true |} ]) camera0)
           (steady 5000 (Normal (response_of 200 None)) (Normal None))
           (machine_of api_admin) true eq_refl eq_refl).
  right. eexists. split; reflexivity.
Defined.

(** X11: what enableRtsp asks for.  When some channel has RTSP disabled,
    enableRtsp is updateChannels on the device with every channel enabled,
    the channels otherwise as they were (same number, same ids); and when
    that call gets through login, the state check and the throttle, the one
    request it sends is the PATCH of the camera's URL with those channels as
    its body. *)
Theorem enableRtsp_request cfg device o m li chs :
  fst (login cfg o m) = Normal li ->
  camera_state_ok device li (api (snd (login cfg o m))) = true ->
  cam_channels device = Some chs ->
  forallb isRtspEnabled chs = false ->
  let m1 := snd (login cfg o m) in
  let device' := with_channels (Some (all_enabled chs)) device in
  enableRtsp cfg device o m = updateChannels cfg device' o m1 /\
  forallb isRtspEnabled (all_enabled chs) = true /\
  map channel_id (all_enabled chs) = map channel_id chs /\
  (forall li',
     fst (login cfg o m1) = Normal li' ->
     let m2 := snd (login cfg o m1) in
     camera_state_ok device' li' (api m2) = true ->
     throttled cfg (now_at o (clockReads m2)) (api m2) = false ->
     network_io (trace (snd (enableRtsp cfg device o m))) =
       network_io (trace m2) ++
       [EvFetch (camera_url (api m2) device)
          {| req_method := PATCH;
             req_body := Some (BodyChannels (Some (all_enabled chs))) |}
          (headers (api m2))]).
Proof.
  intros L K C F. cbv zeta.
  assert (Q : enableRtsp cfg device o m =
              updateChannels cfg (with_channels (Some (all_enabled chs)) device) o
                (snd (login cfg o m))).
  { rewrite (enableRtsp_eq _ _ _ _ _ L), K, C, F. reflexivity. }
  destruct (all_enabled_spec chs) as (A1 & A2 & _).
  split; [exact Q|]. split; [exact A1|]. split; [exact A2|].
  intros li' L' K' T. rewrite Q, (updateChannels_eq _ _ _ _ _ L'), K'.
  destruct (updateChannels_request_spec cfg
              (with_channels (Some (all_enabled chs)) device) o _ T) as [S _].
  exact S.
Qed.

Lemma enableRtsp_request_witness :
  let o := steady 5000 (Normal (response_of 200 None)) (Normal None) in
  enableRtsp cfg0 camera0 o (machine_of api_admin) =
  updateChannels cfg0
    (with_channels (Some [ {| channel_id := 0; isRtspEnabled := true |} ]) camera0)
    o (tick (machine_of api_admin)).
Proof.
  cbv zeta.
  pose proof (enableRtsp_request cfg0 camera0
                (steady 5000 (Normal (response_of 200 None)) (Normal None))
                (machine_of api_admin) true
                [ {| channel_id := 0; isRtspEnabled := false |} ]
                eq_refl eq_refl eq_refl eq_refl) as W.
  cbv zeta in W. destruct W as [W _]. exact W.
Defined.

(** X12: the answers of updateChannels.  Once login, the state check and the
    throttle have let the call through, exactly one request goes out, the
    PATCH of the camera's URL with the channels as body.  On a 2xx answer the
    result is the decoded body (a thrown error when it is not JSON) and the
    budget is reset and stamped; on any other status the device itself is
    handed back and one error is counted; when the transport throws the
    device is handed back and two errors are counted, one by fetch and one by
    updateChannels. *)
Theorem updateChannels_answers cfg device o m li :
  fst (login cfg o m) = Normal li ->
  let m1 := snd (login cfg o m) in
  camera_state_ok device li (api m1) = true ->
  throttled cfg (now_at o (clockReads m1)) (api m1) = false ->
  let out := updateChannels cfg device o m in
  let before := apiErrorCount (past_throttle cfg (api m1)) in
  network_io (trace (snd out)) =
    network_io (trace m1) ++
    [EvFetch (camera_url (api m1) device)
       {| req_method := PATCH; req_body := Some (BodyChannels (cam_channels device)) |}
       (headers (api m1))] /\
  match net_at o (netCalls m1) with
  | Normal r =>
      if ok r then
        fst out = decoded r /\
        budget (api (snd out)) = (0, now_at o (S (clockReads m1)))
      else
        fst out = Normal (JCamera device) /\
        budget (api (snd out)) = (before + 1, apiLastSuccess (api m1))
  | Thrown e =>
      fst out = Normal (JCamera device) /\
      budget (api (snd out)) = (before + 2, apiLastSuccess (api m1))
  end.
Proof.
  intros L. cbv zeta. intros K T. rewrite (updateChannels_eq _ _ _ _ _ L), K.
  apply (updateChannels_request_spec cfg device o _ T).
Qed.

Lemma updateChannels_answers_witness :
  let o := steady 5000 (Normal (response_of 403 None)) (Normal None) in
  let out := updateChannels cfg0 camera0 o (machine_of api_admin) in
  fst out = Normal (JCamera camera0) /\ budget (api (snd out)) = (1, 0).
Proof.
  cbv zeta.
  pose proof (updateChannels_answers cfg0 camera0
                (steady 5000 (Normal (response_of 403 None)) (Normal None))
                (machine_of api_admin) true eq_refl eq_refl eq_refl) as W.
  cbv zeta in W. destruct W as [_ W]. exact W.
Defined.

(** X13: updateChannels under the throttle.  When login and the state check
    pass but fetch refuses the call, nothing is sent and the device is handed
    back, yet the refusal is counted: one error when the call falls inside
    the penalty, two when it is the call that finds the counter on the
    limit. *)
Theorem updateChannels_while_throttled cfg device o m li :
  fst (login cfg o m) = Normal li ->
  let m1 := snd (login cfg o m) in
  camera_state_ok device li (api m1) = true ->
  throttled cfg (now_at o (clockReads m1)) (api m1) = true ->
  let out := updateChannels cfg device o m in
  fst out = Normal (JCamera device) /\
  netCalls (snd out) = netCalls m1 /\
  network_io (trace (snd out)) = network_io (trace m1) /\
  apiErrorCount (api (snd out)) =
    apiErrorCount (api m1)
    + (if apiErrorCount (api m1) =? PROTECT_API_ERROR_LIMIT cfg then 2 else 1).
Proof.
  intros L. cbv zeta. intros K T. rewrite (updateChannels_eq _ _ _ _ _ L), K.
  apply (updateChannels_request_throttled cfg device o _ T).
Qed.

Lemma updateChannels_while_throttled_witness :
  let o := steady 5000 (Normal (response_of 200 None)) (Normal None) in
  let out := updateChannels cfg0 camera0 o
               (machine_of (set_apiErrorCount 11 api_admin)) in
  fst out = Normal (JCamera camera0) /\ apiErrorCount (api (snd out)) = 12.
Proof.
  cbv zeta.
  pose proof (updateChannels_while_throttled cfg0 camera0
                (steady 5000 (Normal (response_of 200 None)) (Normal None))
                (machine_of (set_apiErrorCount 11 api_admin)) true
                eq_refl eq_refl eq_refl) as W.
  cbv zeta in W. destruct W as (W1 & _ & _ & W4). split; [exact W1 | exact W4].
Defined.

Lemma updateCamera_request_spec cfg d payload o m :
  let out := updateCamera_request cfg d payload o m in
  let before := apiErrorCount (past_throttle cfg (api m)) in
  (throttled cfg (now_at o (clockReads m)) (api m) = true ->
     fst out = Normal JNull /\
     netCalls (snd out) = netCalls m /\
     network_io (trace (snd out)) = network_io (trace m)) /\
  (throttled cfg (now_at o (clockReads m)) (api m) = false ->
     network_io (trace (snd out)) =
       network_io (trace m) ++
       [EvFetch (camera_url (api m) d)
          {| req_method := PATCH; req_body := Some (BodyPayload payload) |}
          (headers (api m))] /\
     match net_at o (netCalls m) with
     | Normal r =>
         if ok r then
           fst out = decoded r /\
           budget (api (snd out)) = (0, now_at o (S (clockReads m)))
         else
           fst out = Normal JNull /\
           budget (api (snd out)) = (before + 1, apiLastSuccess (api m))
     | Thrown e =>
         fst out = Normal JNull /\
         budget (api (snd out)) = (before + 1, apiLastSuccess (api m))
     end).
Proof.
  cbv zeta. split; intros T.
  - unfold throttled in T. apply andb_true_iff in T as [T1 T2].
    apply Z.geb_le in T1.
    unfold updateCamera_request, camerasUrl, getFullName, getNvrName, debug, emit, bind,
      get, ret. cbn.
    destruct (Z.eqb_spec (apiErrorCount (api m)) (PROTECT_API_ERROR_LIMIT cfg)) as [E|E].
    + rewrite fetch_at_limit_eq by exact E.
      unfold log_error, emit. cbn. rewrite !network_io_app. cbn. rewrite !app_nil_r. auto.
    + cbn in T2. apply Z.gtb_lt in T2. rewrite fetch_in_window_eq by (cbn; lia).
      unfold log_error, emit. cbn. rewrite !network_io_app. cbn. rewrite !app_nil_r. auto.
  - assert (HL : apiLastSuccess (past_throttle cfg (api m)) = apiLastSuccess (api m)).
    { unfold past_throttle. destruct (_ >=? _); reflexivity. }
    unfold updateCamera_request, camerasUrl, getFullName, getNvrName, debug, emit, bind,
      get, ret. cbn.
    match goal with
    | |- context [fetch cfg ?u ?i true true o ?m0] =>
        assert (T' : throttled cfg (now_at o (clockReads m0)) (api m0) = false) by exact T;
        destruct (fetch_open_spec cfg o m0 u i true true T') as (S1 & _ & _ & S4 & S5);
        destruct (fetch cfg u i true true o m0) as [f m2]
    end.
    cbn [fst snd api netCalls clockReads trace headers] in *. subst f.
    rewrite network_io_app, app_nil_r in S5.
    unfold answer, recorded, recordOutcome, response_json, decoded, log_error, emit,
      bind, ret, camera_url in *.
    destruct (net_at o (netCalls m)) as [r|e]; cbn.
    + destruct (ok r) eqn:K; cbn; rewrite ?K; cbn.
      * destruct (json r); cbn; auto.
      * rewrite network_io_app. cbn. rewrite app_nil_r.
        rewrite S4, S5. unfold budget. cbn. rewrite HL. auto.
    + rewrite network_io_app. cbn. rewrite app_nil_r.
      rewrite S4, S5. unfold budget. cbn. rewrite HL. auto.
Qed.

(** X14: the answers of updateCamera.  For a logged-in administrator the
    call sends at most one request, the PATCH of the camera's URL with the
    payload as body.  When fetch throttles the call nothing is sent and the
    result is null.  Otherwise a 2xx answer gives the decoded body (a thrown
    error when it is not JSON) with the budget reset and stamped, and every
    other status and a transport error give null with one error counted. *)
Theorem updateCamera_answers cfg d payload o m :
  fst (login cfg o m) = Normal true ->
  let m1 := snd (login cfg o m) in
  isAdminUser (api m1) = true ->
  let out := updateCamera cfg (Some d) payload o m in
  let before := apiErrorCount (past_throttle cfg (api m1)) in
  (throttled cfg (now_at o (clockReads m1)) (api m1) = true ->
     fst out = Normal JNull /\
     netCalls (snd out) = netCalls m1 /\
     network_io (trace (snd out)) = network_io (trace m1)) /\
  (throttled cfg (now_at o (clockReads m1)) (api m1) = false ->
     network_io (trace (snd out)) =
       network_io (trace m1) ++
       [EvFetch (camera_url (api m1) d)
          {| req_method := PATCH; req_body := Some (BodyPayload payload) |}
          (headers (api m1))] /\
     match net_at o (netCalls m1) with
     | Normal r =>
         if ok r then
           fst out = decoded r /\
           budget (api (snd out)) = (0, now_at o (S (clockReads m1)))
         else
           fst out = Normal JNull /\
           budget (api (snd out)) = (before + 1, apiLastSuccess (api m1))
     | Thrown e =>
         fst out = Normal JNull /\
         budget (api (snd out)) = (before + 1, apiLastSuccess (api m1))
     end).
Proof.
  intros L. cbv zeta. intros A. rewrite (updateCamera_eq _ _ _ _ _ L A).
  apply (updateCamera_request_spec cfg d payload o).
Qed.

Lemma updateCamera_answers_witness :
  let o := steady 5000 (Normal (response_of 200 (Some (JCamera camera0)))) (Normal None) in
  let out := updateCamera cfg0 (Some camera0) "{}" o (machine_of api_admin) in
  fst out = Normal (JCamera camera0) /\ budget (api (snd out)) = (0, 5000).
Proof.
  cbv zeta.
  pose proof (updateCamera_answers cfg0 camera0 "{}"
                (steady 5000 (Normal (response_of 200 (Some (JCamera camera0))))
                   (Normal None))
                (machine_of api_admin) eq_refl eq_refl) as W.
  cbv zeta in W. destruct W as [_ W]. exact (proj2 (W eq_refl)).
Defined.

(** * More on the device refresh *)

Lemma bind_normal {A B} (c : M A) (k : A -> M B) o m a m' :
  c o m = (Normal a, m') -> bind c k o m = k a o m'.
Proof. intros H. unfold bind. rewrite H. reflexivity. Qed.

Lemma say_nil m : say [] m = m.
Proof. destruct m. unfold say. cbn. rewrite app_nil_r. reflexivity. Qed.

Lemma say_say a b m : say b (say a m) = say (a ++ b) m.
Proof. unfold say. cbn. rewrite app_assoc. reflexivity. Qed.

Lemma for_of_says {A} (body : A -> M unit) (ev : A -> list Event) o :
  forall (l : list A) m,
    (forall x m', api m' = api m -> body x o m' = (Normal tt, say (ev x) m')) ->
    for_of l body o m = (Normal tt, say (flat_map ev l) m).
Proof.
  induction l as [|x l IH]; intros m H; cbn [for_of flat_map].
  - unfold ret. rewrite say_nil. reflexivity.
  - unfold bind. rewrite (H x m eq_refl).
    rewrite (IH (say (ev x) m)); [rewrite say_say; reflexivity|].
    intros y m' E. apply H. rewrite E. reflexivity.
Qed.

Lemma flat_map_when {A B} (p : A -> bool) (ev : A -> list B) l :
  flat_map (fun x => if p x then ev x else []) l = flat_map ev (List.filter p l).
Proof.
  induction l as [|x l IH]; cbn; [reflexivity|].
  destruct (p x); cbn; rewrite IH; reflexivity.
Qed.

Lemma length_append_string (a b : string) :
  String.length (a +:+ b) = (String.length a + String.length b)%nat.
Proof.
  induction a as [|c a IH]; [reflexivity|].
  change (S (String.length (a +:+ b)) = S (String.length a + String.length b)).
  rewrite IH. reflexivity.
Qed.

Lemma getDeviceName_not_empty camera name cameraInfo :
  (0 <? Z.of_nat (String.length (getDeviceName camera name cameraInfo))) = true.
Proof.
  unfold getDeviceName. rewrite !length_append_string.
  change (String.length " [") with 2%nat.
  apply Z.ltb_lt. lia.
Qed.

(** The device name is never empty, so getFullName always joins the two
    names with a space. *)
Lemma getFullName_eq camera o m :
  getFullName camera o m = (Normal (fullName (api m) camera), m).
Proof.
  unfold getFullName, fullName, bind, getNvrName, get, ret.
  rewrite getDeviceName_not_empty. reflexivity.
Qed.

Lemma refreshDevices_eq cfg o m m1 :
  bootstrapProtect cfg o m = (Normal true, m1) ->
  refreshDevices cfg o m =
  (Normal true,
   {| api := set_Cameras (bootstrap_cameras (api m1)) (api m1);
      clockReads := clockReads m1; netCalls := netCalls m1;
      socketOpens := socketOpens m1;
      trace := trace m1 ++
               EvDebug "bootstrap" ::
               flat_map (announce (api m1))
                 (discovered (Cameras (api m1)) (default [] (bootstrap_cameras (api m1))))
               ++ flat_map (retire (api m1))
                    (removed (bootstrap_cameras (api m1))
                       (default [] (Cameras (api m1)))) |}).
Proof.
  intros B. unfold refreshDevices. rewrite (bind_normal _ _ _ _ _ _ B). cbn [negb].
  erewrite bind_normal by reflexivity.
  erewrite bind_normal by reflexivity.
  erewrite bind_normal by reflexivity. cbv beta zeta.
  set (m2 := {| api := api m1; clockReads := clockReads m1; netCalls := netCalls m1;
                socketOpens := socketOpens m1;
                trace := trace m1 ++ [EvDebug "bootstrap"] |}).
  change (api m2) with (api m1).
  fold (bootstrap_cameras (api m1)).
  set (known := Cameras (api m1)). set (newl := bootstrap_cameras (api m1)).
  set (ev1 := match newl with
              | Some l =>
                  flat_map (fun d => if some_mac known (cam_mac d) then []
                                     else if negb (cam_isManaged d) then []
                                          else announce (api m1) d) l
              | None => []
              end).
  set (ev2 := match known with
              | Some l =>
                  flat_map (fun d => if some_mac newl (cam_mac d) then []
                                     else retire (api m1) d) l
              | None => []
              end).
  rewrite (bind_normal _ _ _ _ tt (say ev1 m2)).
  2:{ subst ev1. destruct newl as [l|].
      - apply (for_of_says _
          (fun d => if some_mac known (cam_mac d) then []
                    else if negb (cam_isManaged d) then [] else announce (api m1) d)).
        intros d m' E.
        destruct (some_mac known (cam_mac d)); [unfold ret; rewrite say_nil; reflexivity|].
        destruct (cam_isManaged d); cbn [negb];
          [|unfold ret; rewrite say_nil; reflexivity].
        unfold bind, getNvrName, get, log_info, debug, emit, say, announce. cbn.
        rewrite E, <- app_assoc. reflexivity.
      - unfold ret. rewrite say_nil. reflexivity. }
  rewrite (bind_normal _ _ _ _ tt (say ev2 (say ev1 m2))).
  2:{ subst ev2. destruct known as [l|].
      - apply (for_of_says _
          (fun d => if some_mac newl (cam_mac d) then [] else retire (api m1) d)).
        intros d m' E.
        destruct (some_mac newl (cam_mac d)); [unfold ret; rewrite say_nil; reflexivity|].
        unfold bind. rewrite getFullName_eq.
        unfold debug, emit, say, retire. cbn. rewrite E, <- app_assoc. reflexivity.
      - unfold ret. rewrite say_nil. reflexivity. }
  unfold bind, modify, ret, say. cbn. f_equal. f_equal.
  rewrite <- !app_assoc. cbn. f_equal. f_equal.
  assert (D : ev1 = flat_map (announce (api m1)) (discovered known (default [] newl))).
  { subst ev1. destruct newl as [l|]; [|reflexivity]. cbn [default]. unfold discovered.
    rewrite <- flat_map_when. apply flat_map_ext. intros d.
    destruct (some_mac known (cam_mac d)); cbn; [reflexivity|].
    destruct (cam_isManaged d); reflexivity. }
  assert (R : ev2 = flat_map (retire (api m1)) (removed newl (default [] known))).
  { subst ev2. destruct known as [l|]; [|reflexivity]. cbn [default]. unfold removed.
    rewrite <- flat_map_when. apply flat_map_ext. intros d.
    destruct (some_mac newl (cam_mac d)); reflexivity. }
  rewrite <- D, <- R. reflexivity.
Qed.

Lemma some_mac_self l d : In d l -> some_mac (Some l) (cam_mac d) = true.
Proof.
  intros I. cbn. apply existsb_exists. exists d. split; [exact I|].
  apply String.eqb_refl.
Qed.

Lemma discovered_spec known l d :
  In d (discovered known l) <->
  In d l /\ cam_isManaged d = true /\
  forall k, In k (default [] known) -> cam_mac k <> cam_mac d.
Proof.
  unfold discovered. rewrite filter_In, andb_true_iff, negb_true_iff.
  split.
  - intros (I & S & G). split; [exact I|]. split; [exact G|].
    intros k K E. destruct known as [ks|]; [|destruct K].
    cbn in *. assert (X : existsb (fun x => String.eqb (cam_mac x) (cam_mac d)) ks = true).
    { apply existsb_exists. exists k. split; [exact K|]. rewrite E. apply String.eqb_refl. }
    congruence.
  - intros (I & G & N). split; [exact I|]. split; [|exact G].
    destruct known as [ks|]; [|reflexivity]. cbn in *.
    destruct (existsb _ ks) eqn:X; [|reflexivity].
    apply existsb_exists in X as (k & K & E). apply String.eqb_eq in E.
    destruct (N k K E).
Qed.

Lemma removed_spec newl known d :
  In d (removed newl known) <->
  In d known /\ forall n, In n (default [] newl) -> cam_mac n <> cam_mac d.
Proof.
  unfold removed. rewrite filter_In, negb_true_iff. split.
  - intros (I & S). split; [exact I|]. intros n K E.
    destruct newl as [ns|]; [|destruct K]. cbn in *.
    assert (X : existsb (fun x => String.eqb (cam_mac x) (cam_mac d)) ns = true).
    { apply existsb_exists. exists n. split; [exact K|]. rewrite E. apply String.eqb_refl. }
    congruence.
  - intros (I & N). split; [exact I|].
    destruct newl as [ns|]; [|reflexivity]. cbn in *.
    destruct (existsb _ ns) eqn:X; [|reflexivity].
    apply existsb_exists in X as (n & K & E). apply String.eqb_eq in E.
    destruct (N n K E).
Qed.

(** X15: refreshDevices announces the difference.  After a successful
    bootstrap the known device list becomes the list of the stored bootstrap,
    and what is added to the trace is, in the order of the lists, a discovery
    notice for each new device that is managed and whose mac is not among the
    known ones, then a removal notice for each known device whose mac is not
    in the new list: a device on both lists, and an unmanaged new device,
    are passed over in silence. *)
Theorem refreshDevices_announces_the_difference cfg o m m1 :
  bootstrapProtect cfg o m = (Normal true, m1) ->
  let out := refreshDevices cfg o m in
  let known := Cameras (api m1) in
  let newl := bootstrap_cameras (api m1) in
  fst out = Normal true /\
  Cameras (api (snd out)) = newl /\
  trace (snd out) =
    trace m1 ++
    EvDebug "bootstrap" ::
    flat_map (announce (api m1)) (discovered known (default [] newl)) ++
    flat_map (retire (api m1)) (removed newl (default [] known)) /\
  (forall d, In d (discovered known (default [] newl)) <->
     In d (default [] newl) /\ cam_isManaged d = true /\
     forall k, In k (default [] known) -> cam_mac k <> cam_mac d) /\
  (forall d, In d (removed newl (default [] known)) <->
     In d (default [] known) /\
     forall n, In n (default [] newl) -> cam_mac n <> cam_mac d).
Proof.
  intros B. cbv zeta. rewrite (refreshDevices_eq _ _ _ _ B). cbn [fst snd api trace].
  split; [reflexivity|]. split; [reflexivity|]. split; [reflexivity|].
  split; intros d; [apply discovered_spec | apply removed_spec].
Qed.

Lemma refreshDevices_announces_the_difference_witness :
  let o := steady 5000 (Normal (response_of 200
                                  (Some (JBootstrap (payload_of [camera_B; camera_C])))))
             (Normal None) in
  let m := machine_of (set_Cameras (Some [camera_A; camera_B]) api_logged_in) in
  let out := refreshDevices cfg0 o m in
  Cameras (api (snd out)) = Some [camera_B; camera_C] /\
  skipn 5 (trace (snd out)) =
    [EvDebug "bootstrap";
     EvInfo (MsgDiscovered "NVR [UNVR]" "camera"
               "Roof [UVC G4] (address: 10.0.0.12 mac: CC)");
     EvDebug "device";
     EvDebug "NVR [UNVR] Yard [UVC G3]: removal";
     EvDebug "device"].
Proof.
  cbv zeta.
  pose proof (refreshDevices_announces_the_difference cfg0
                (steady 5000 (Normal (response_of 200
                                        (Some (JBootstrap (payload_of [camera_B; camera_C])))))
                   (Normal None))
                (machine_of (set_Cameras (Some [camera_A; camera_B]) api_logged_in))
                _ ltac:(vm_compute; reflexivity)) as W.
  cbv zeta in W. destruct W as (_ & W2 & W3 & _).
  split; [rewrite W2; reflexivity | rewrite W3; reflexivity].
Defined.

(** X16: an unchanged inventory is silent.  When the known device list
    already is the list of the bootstrap just stored, a successful
    refreshDevices adds its debug line and nothing else: no discovery, no
    removal, and the known list stays what it was. *)
Theorem refreshDevices_same_inventory_is_silent cfg o m m1 :
  bootstrapProtect cfg o m = (Normal true, m1) ->
  Cameras (api m1) = bootstrap_cameras (api m1) ->
  let out := refreshDevices cfg o m in
  fst out = Normal true /\
  trace (snd out) = trace m1 ++ [EvDebug "bootstrap"] /\
  Cameras (api (snd out)) = Cameras (api m1).
Proof.
  intros B E. cbv zeta. rewrite (refreshDevices_eq _ _ _ _ B). cbn [fst snd api trace].
  split; [reflexivity|]. split; [|cbn; congruence].
  rewrite E. f_equal. f_equal.
  assert (D : forall l, discovered (Some l) l = []).
  { intros l. unfold discovered.
    assert (G : forall l', (forall d, In d l' -> In d l) ->
              List.filter (fun d => negb (some_mac (Some l) (cam_mac d)) && cam_isManaged d) l'
              = []).
    { induction l' as [|d l' IH]; intros H; [reflexivity|]. cbn [List.filter].
      rewrite (some_mac_self l d) by (apply H; left; reflexivity). cbn.
      apply IH. intros d' I. apply H. right. exact I. }
    apply G. auto. }
  assert (R : forall l, removed (Some l) l = []).
  { intros l. unfold removed.
    assert (G : forall l', (forall d, In d l' -> In d l) ->
              List.filter (fun d => negb (some_mac (Some l) (cam_mac d))) l' = []).
    { induction l' as [|d l' IH]; intros H; [reflexivity|]. cbn [List.filter].
      rewrite (some_mac_self l d) by (apply H; left; reflexivity). cbn.
      apply IH. intros d' I. apply H. right. exact I. }
    apply G. auto. }
  destruct (bootstrap_cameras (api m1)) as [l|]; cbn [default].
  - rewrite D, R. reflexivity.
  - reflexivity.
Qed.

Lemma refreshDevices_same_inventory_is_silent_witness :
  let o := steady 5000 (Normal (response_of 200
                                  (Some (JBootstrap (payload_of [camera_B; camera_C])))))
             (Normal None) in
  let m := machine_of (set_Cameras (Some [camera_B; camera_C]) api_logged_in) in
  skipn 5 (trace (snd (refreshDevices cfg0 o m))) = [EvDebug "bootstrap"].
Proof.
  cbv zeta.
  pose proof (refreshDevices_same_inventory_is_silent cfg0
                (steady 5000 (Normal (response_of 200
                                        (Some (JBootstrap (payload_of [camera_B; camera_C])))))
                   (Normal None))
                (machine_of (set_Cameras (Some [camera_B; camera_C]) api_logged_in))
                _ ltac:(vm_compute; reflexivity) ltac:(vm_compute; reflexivity)) as W.
  cbv zeta in W. destruct W as (_ & W & _). rewrite W. reflexivity.
Defined.

(** * What the operations leave alone, and what they can throw *)

Lemma frames_identity_refreshDevices_failed cfg o m :
  fst (refreshDevices cfg o m) <> Normal true ->
  identity (snd (refreshDevices cfg o m)) = identity m.
Proof.
  intros H. pose proof (frames_identity_bootstrapProtect cfg o m) as F.
  destruct (bootstrapProtect cfg o m) as [[[|]|e] m1] eqn:B.
  - rewrite (refreshDevices_eq _ _ _ _ B) in H. destruct H. reflexivity.
  - rewrite (refreshDevices_failed _ _ _ _ B). exact F.
  - unfold refreshDevices, bind. rewrite B. exact F.
Qed.

Lemma frames_credentials_refreshDevices cfg :
  Frames (fun m => (nvrAddress (api m), username (api m), password (api m)))
    (refreshDevices cfg).
Proof.
  intros o m. pose proof (frames_identity_bootstrapProtect cfg o m) as F.
  destruct (bootstrapProtect cfg o m) as [[[|]|e] m1] eqn:B.
  - rewrite (refreshDevices_eq _ _ _ _ B). exact (f_equal fst F).
  - rewrite (refreshDevices_failed _ _ _ _ B). exact (f_equal fst F).
  - unfold refreshDevices, bind. rewrite B. exact (f_equal fst F).
Qed.



Lemma throws_enableRtsp cfg device :
  ThrowsOnly (fun e => e = InvalidJsonError) (enableRtsp cfg device).
Proof. unfold enableRtsp. walk_throws. Qed.

Lemma throws_updateCamera cfg device payload :
  ThrowsOnly (fun e => e = InvalidJsonError) (updateCamera cfg device payload).
Proof.
  unfold updateCamera, camerasUrl, getFullName, getNvrName, log_error, debug.
  walk_throws.
Qed.

Lemma throws_loginFetch E cfg url options logErrors decodeResponse :
  ThrowsOnly E (loginFetch cfg url options logErrors decodeResponse).
Proof. unfold loginFetch. walk_throws. Qed.

Lemma throws_checkAdminUserStatus_or firstRun :
  ThrowsOnly (fun e => e = split_error \/ e = host_error) (checkAdminUserStatus firstRun).
Proof.
  eapply throws_weaken; [|apply throws_checkAdminUserStatus]. intros e ->. left. reflexivity.
Qed.
#[local] Hint Resolve throws_checkAdminUserStatus_or : throws.

Lemma throws_bootstrapProtect cfg :
  ThrowsOnly (fun e => e = split_error \/ e = host_error) (bootstrapProtect cfg).
Proof.
  unfold bootstrapProtect, bootstrap_failed, bootstrapUrl, debug, log_info, log_error,
    getNvrName.
  walk_throws. apply throws_throw. right. reflexivity.
Qed.

Lemma throws_refreshDevices cfg :
  ThrowsOnly (fun e => e = split_error \/ e = host_error) (refreshDevices cfg).
Proof.
  pose proof (throws_bootstrapProtect cfg) as B.
  unfold refreshDevices, debug, log_info, getNvrName, getFullName.
  apply throws_bind; [exact B|intros ?]. walk_throws.
  unfold getNvrName. walk_throws.
Qed.

(** X18: the one error the camera operations let out.  Whatever the
    network does, updateCamera, updateChannels and enableRtsp either complete
    normally or throw the error of decoding a body that is not JSON, nothing
    else; checkCameraState and loginFetch never throw. *)
Theorem camera_operations_throw_only_the_json_error cfg o m e :
  (forall device payload,
     fst (updateCamera cfg device payload o m) = Thrown e -> e = InvalidJsonError) /\
  (forall device,
     (fst (updateChannels cfg device o m) = Thrown e -> e = InvalidJsonError) /\
     (fst (enableRtsp cfg device o m) = Thrown e -> e = InvalidJsonError) /\
     fst (checkCameraState cfg device o m) <> Thrown e) /\
  (forall url options logErrors decodeResponse,
     fst (loginFetch cfg url options logErrors decodeResponse o m) <> Thrown e).
Proof.
  split; [|split].
  - intros device payload. apply throws_updateCamera.
  - intros device. split; [apply throws_updateChannels|].
    split; [apply throws_enableRtsp|].
    intros H. exact (throws_checkCameraState nothing cfg device o m e H).
  - intros url options logErrors decodeResponse H.
    exact (throws_loginFetch nothing cfg url options logErrors decodeResponse o m e H).
Qed.

(** X19: the two errors a refresh lets out.  bootstrapProtect and
    refreshDevices either complete normally or throw one of two TypeErrors:
    the one of the permission scan on a bare camera entry, or the one of
    reading the host of a first payload that has no nvr record.  Transport
    and decoding failures never come out as exceptions. *)
Theorem refresh_throws_only_type_errors cfg o m e :
  (fst (bootstrapProtect cfg o m) = Thrown e -> e = split_error \/ e = host_error) /\
  (fst (refreshDevices cfg o m) = Thrown e -> e = split_error \/ e = host_error).
Proof.
  split; [apply throws_bootstrapProtect | apply throws_refreshDevices].
Qed.

Lemma refresh_throws_only_type_errors_witness :
  let o := steady 5000
             (Normal (response_of 200 (Some (JBootstrap (bootstrap_of ["camera"])))))
             (Normal None) in
  split_error = split_error \/ split_error = host_error.
Proof.
  cbv zeta.
  pose proof (refresh_throws_only_type_errors cfg0
                (steady 5000
                   (Normal (response_of 200 (Some (JBootstrap (bootstrap_of ["camera"])))))
                   (Normal None))
                (machine_of api_logged_in) split_error) as W.
  destruct W as [_ W]. apply W. vm_compute. reflexivity.
Defined.

(** * The stored bootstrap: RTSP state and the permission scan *)

(** X20: what isAllRtspConfigured answers.  It reads the stored bootstrap
    and changes nothing; its answer is true exactly when some channel of
    some camera of the stored bootstrap has RTSP disabled, and false when
    there is no bootstrap, no camera list, or every channel is enabled. *)
Theorem isAllRtspConfigured_finds_a_disabled_channel o m :
  exists b, isAllRtspConfigured o m = (Normal b, m) /\
            (b = true <-> some_channel_disabled (api m)).
Proof.
  unfold isAllRtspConfigured, bind, get, ret, some_channel_disabled. cbv beta.
  eexists. split; [reflexivity|].
  destruct (bootstrap (api m)) as [b|] eqn:B.
  - destruct b as [uid cs lu nv us]. destruct cs as [cs|].
    + rewrite existsb_exists. split.
      * intros (camera & I & H). destruct (cam_channels camera) as [chs|] eqn:C;
          [|discriminate H].
        apply existsb_exists in H as (channel & J & H).
        apply negb_true_iff in H.
        eexists _, cs, camera, chs, channel. repeat split; eauto.
      * intros (b' & cs' & camera & chs & channel & E1 & E2 & I & C & J & H).
        injection E1 as <-. cbn in E2. injection E2 as <-.
        exists camera. split; [exact I|]. rewrite C. apply existsb_exists.
        exists channel. split; [exact J|]. rewrite H. reflexivity.
    + split; [discriminate|].
      intros (b' & cs' & camera & chs & channel & E1 & E2 & _).
      injection E1 as <-. discriminate E2.
  - split; [discriminate|].
    intros (b' & cs' & camera & chs & channel & E1 & _). discriminate E1.
Qed.

(** X21: the permission scan reads entries in order and stops at the first
    verdict.  The scan of two lists one after the other is the scan of the
    first when that one finds the camera write permission or throws, and the
    scan of the second otherwise: entries behind a grant, or behind a
    malformed camera entry, are never looked at. *)
Theorem scanPermissions_app (first rest : list string) :
  scanPermissions (first ++ rest) =
  match scanPermissions first with
  | Normal false => scanPermissions rest
  | verdict => verdict
  end.
Proof.
  induction first as [|entry first IH]; [reflexivity|].
  cbn [app scanPermissions]. cbv zeta.
  destruct (split_on ":" entry !! 0%nat) as [p0|]; [|exact IH].
  destruct (negb (String.eqb p0 "camera")); [exact IH|].
  destruct (split_on ":" entry !! 1%nat) as [p1|]; [|reflexivity].
  destruct (includes "write" (split_on "," p1)); [reflexivity|exact IH].
Qed.

Lemma set_isAdminUser_same a : set_isAdminUser (isAdminUser a) a = a.
Proof. destruct a. reflexivity. Qed.

Lemma checkAdminUserStatus_without_permissions firstRun o m :
  authenticated_permissions (api m) = None ->
  checkAdminUserStatus firstRun o m = (Normal false, m).
Proof.
  intros P. unfold authenticated_permissions in P.
  unfold checkAdminUserStatus, bind, get, ret. cbv beta.
  destruct (bootstrap (api m)) as [b|]; [|reflexivity].
  destruct b as [uid cs lu nv us]. cbn in P. destruct us as [us|]; [|reflexivity].
  cbv zeta. destruct (List.find _ us) as [u|]; [|reflexivity].
  destruct u as [i ps]. cbn in P. subst ps. reflexivity.
Qed.

(** X22: checkAdminUserStatus touches the administrator flag and the log,
    nothing else.  Without a permission list for the authenticated user (no
    bootstrap, no user list, no such user, or a user without permissions)
    it returns false and leaves the instance as it was, the flag included;
    when the scan throws, the instance is as it was too; in every case the
    instance differs from the one before in the flag at most, and no clock,
    network or socket is used. *)
Theorem checkAdminUserStatus_touches_the_flag_only firstRun o m :
  let out := checkAdminUserStatus firstRun o m in
  (authenticated_permissions (api m) = None -> out = (Normal false, m)) /\
  (forall e, fst out = Thrown e -> snd out = m) /\
  (exists flag, api (snd out) = set_isAdminUser flag (api m)) /\
  clockReads (snd out) = clockReads m /\
  netCalls (snd out) = netCalls m /\
  socketOpens (snd out) = socketOpens m.
Proof.
  cbv zeta.
  assert (Same : exists flag, api m = set_isAdminUser flag (api m))
    by (exists (isAdminUser (api m)); symmetry; apply set_isAdminUser_same).
  destruct (authenticated_permissions (api m)) as [perms|] eqn:P.
  - unfold authenticated_permissions in P.
    destruct (bootstrap (api m)) as [b|] eqn:B; [|discriminate P].
    destruct (users b) as [us|] eqn:U; [|discriminate P].
    destruct (List.find _ us) as [u|] eqn:F; [|discriminate P].
    rewrite (checkAdminUserStatus_eq firstRun o m b us u perms B U F P).
    destruct (scanPermissions perms) as [admin|e]; cbn.
    + repeat split; try discriminate. eauto.
    + repeat split; auto; discriminate.
  - rewrite (checkAdminUserStatus_without_permissions firstRun o m P). cbn. repeat split; auto; discriminate.
Qed.

(** * clearLoginCredentials *)

Lemma cleared_cleared m : cleared (cleared m) = cleared m.
Proof.
  destruct m as [a c n s t]. destruct a. unfold cleared. cbn.
  rewrite app_nil_r. reflexivity.
Qed.

(** X25: clearLoginCredentials resets the session and nothing else, and a
    second call in a row does nothing.  After the call the session is the
    cleared one whatever it was; the error counter, the time of the last
    success, the address, the credentials and the device list are kept; the
    recorded connection handle, if any, is terminated, once; calling it
    again leaves the instance and the log exactly as they are. *)
Theorem clearLoginCredentials_is_idempotent o m :
  let once := snd (clearLoginCredentials o m) in
  fst (clearLoginCredentials o m) = Normal tt /\
  session (api once) = cleared_session /\
  budget (api once) = budget (api m) /\
  identity once = identity m /\
  trace once = trace m ++ match eventListener (api m) with
                          | Some ws => [EvSocketTerminate ws]
                          | None => []
                          end /\
  clearLoginCredentials o once = (Normal tt, once).
Proof.
  cbv zeta. rewrite !clearLoginCredentials_eq. cbn [fst snd].
  rewrite cleared_cleared.
  repeat split; destruct m as [a c n s t]; destruct a; reflexivity.
Qed.

(** * The consistency of the session *)

Section KeepRules.
Context (I : Machine -> Prop).

Lemma keeps_ret {A} (a : A) : Keeps I (ret a).
Proof. intros o m H. exact H. Qed.

Lemma keeps_throw {A} e : Keeps I (@throw A e).
Proof. intros o m H. exact H. Qed.

Lemma keeps_lift {A} (c : Completion A) : Keeps I (lift c).
Proof. intros o m H. exact H. Qed.

Lemma keeps_get {A} (f : ProtectApi -> A) : Keeps I (get f).
Proof. intros o m H. exact H. Qed.

Lemma keeps_bind {A B} (c : M A) (k : A -> M B) :
  Keeps I c -> (forall a, Keeps I (k a)) -> Keeps I (bind c k).
Proof.
  intros Hc Hk o m H. unfold bind. specialize (Hc o m H).
  destruct (c o m) as [[a|e] m1]; cbn in *; [apply Hk|]; exact Hc.
Qed.

Lemma keeps_try_catch {A} (c : M A) (h : JsError -> M A) :
  Keeps I c -> (forall e, Keeps I (h e)) -> Keeps I (try_catch c h).
Proof.
  intros Hc Hh o m H. unfold try_catch. specialize (Hc o m H).
  destruct (c o m) as [[a|e] m1]; cbn in *; [|apply Hh]; exact Hc.
Qed.

Lemma keeps_try_finally {A} (c : M A) (f : M unit) :
  Keeps I c -> Keeps I f -> Keeps I (try_finally c f).
Proof.
  intros Hc Hf o m H. unfold try_finally. specialize (Hc o m H).
  destruct (c o m) as [r m1]; cbn in *. specialize (Hf o m1 Hc).
  destruct (f o m1) as [[[]|e] m2]; exact Hf.
Qed.

Lemma keeps_for_of {A} (l : list A) (body : A -> M unit) :
  (forall x, Keeps I (body x)) -> Keeps I (for_of l body).
Proof.
  intros H. induction l as [|x l IH]; cbn [for_of].
  - apply keeps_ret.
  - apply keeps_bind; [apply H | intros _; exact IH].
Qed.

(** A call whose result decides what holds afterwards. *)
Lemma keeps_bind_result {A B} (P : Machine -> Prop) (R : A -> Machine -> Prop)
    (c : M A) (k : A -> M B) :
  (forall o m, P m -> match fst (c o m) with
                      | Normal a => R a (snd (c o m))
                      | Thrown _ => I (snd (c o m))
                      end) ->
  (forall a o m, R a m -> I (snd (k a o m))) ->
  forall o m, P m -> I (snd (bind c k o m)).
Proof.
  intros Hc Hk o m H. unfold bind. specialize (Hc o m H).
  destruct (c o m) as [[a|e] m1]; cbn in *; [apply Hk|]; exact Hc.
Qed.

End KeepRules.

Create HintDb keeps.
#[local] Hint Resolve keeps_ret keeps_throw keeps_lift keeps_get : keeps.

Ltac walk_keeps :=
  repeat first
    [ progress cbv beta zeta
    | solve [auto with keeps]
    | apply keeps_bind; [|intros ?]
    | apply keeps_try_finally
    | apply keeps_try_catch; [|intros ?]
    | apply keeps_for_of; intros ?
    | match goal with
      | |- Keeps _ (if ?b then _ else _) => destruct b
      | |- Keeps _ (match ?x with _ => _ end) => destruct x
      end
    | solve [intros ? ? ?; assumption] ].

Lemma consistent_cleared m : consistent (api (cleared m)) = true.
Proof. reflexivity. Qed.

Lemma keeps_sound_clearLoginCredentials : Keeps sound clearLoginCredentials.
Proof. intros o m _. rewrite clearLoginCredentials_eq. apply consistent_cleared. Qed.
#[local] Hint Resolve keeps_sound_clearLoginCredentials : keeps.

Lemma keeps_sound_fetch cfg url options logErrors decodeResponse :
  Keeps sound (fetch cfg url options logErrors decodeResponse).
Proof.
  unfold fetch, fetch_request, fetch_catch, incr_apiErrorCount, log_info, log_error,
    getNvrName.
  walk_keeps.
Qed.
#[local] Hint Resolve keeps_sound_fetch : keeps.

Lemma keeps_logged_in_fetch cfg url options logErrors decodeResponse :
  Keeps sound_and_logged_in (fetch cfg url options logErrors decodeResponse).
Proof.
  unfold fetch, fetch_request, fetch_catch, incr_apiErrorCount, log_info, log_error,
    getNvrName.
  walk_keeps.
Qed.
#[local] Hint Resolve keeps_logged_in_fetch : keeps.

Lemma keeps_sound_acquireToken cfg : Keeps sound (acquireToken cfg).
Proof. unfold acquireToken. walk_keeps. Qed.
#[local] Hint Resolve keeps_sound_acquireToken : keeps.

Lemma consistent_logged_in a :
  consistent a = true -> consistent (set_loggedIn true a) = true.
Proof.
  unfold consistent. cbn.
  destruct (isAdminUser a), (bootstrap a) as [d|], (eventListener a), (loggedIn a);
    cbn; intros; try discriminate; auto.
Qed.

Lemma keeps_sound_logged_in : Keeps sound (modify (set_loggedIn true)).
Proof. intros o m H. apply consistent_logged_in. exact H. Qed.
#[local] Hint Resolve keeps_sound_logged_in : keeps.

Lemma keeps_sound_login cfg : Keeps sound (login cfg).
Proof. unfold login, loginWrapped, authUrl. walk_keeps. Qed.
#[local] Hint Resolve keeps_sound_login : keeps.

Lemma login_leads cfg o m :
  sound m ->
  match fst (login cfg o m) with
  | Normal li => if li then sound_and_logged_in (snd (login cfg o m))
                 else sound (snd (login cfg o m))
  | Thrown _ => sound (snd (login cfg o m))
  end.
Proof.
  intros H. pose proof (keeps_sound_login cfg o m H) as K.
  destruct (login_outcome_spec cfg o m) as [[L1 L2]|[L1 _]]; rewrite L1.
  - split; assumption.
  - exact K.
Qed.

Lemma keeps_sound_checkAdminUserStatus firstRun :
  Keeps sound (checkAdminUserStatus firstRun).
Proof.
  intros o m H. unfold sound in *.
  destruct (authenticated_permissions (api m)) as [perms|] eqn:P.
  - unfold authenticated_permissions in P.
    destruct (bootstrap (api m)) as [b|] eqn:B; [|discriminate P].
    destruct (users b) as [us|] eqn:U; [|discriminate P].
    destruct (List.find _ us) as [u|] eqn:F; [|discriminate P].
    rewrite (checkAdminUserStatus_eq firstRun o m b us u perms B U F P).
    destruct (scanPermissions perms) as [admin|e]; cbn; [|exact H].
    revert H. unfold consistent. cbn. rewrite B. cbn.
    destruct (isAdminUser (api m)), admin; cbn; auto.
  - rewrite (checkAdminUserStatus_without_permissions firstRun o m P). exact H.
Qed.
#[local] Hint Resolve keeps_sound_checkAdminUserStatus : keeps.

Lemma keeps_logged_in_set_eventListener w :
  Keeps sound_and_logged_in (modify (set_eventListener w)).
Proof.
  intros o m [C L]. split; [|exact L]. revert C. cbn. unfold consistent. cbn.
  rewrite L. destruct w; cbn; rewrite ?implb_true_r; auto.
Qed.
#[local] Hint Resolve keeps_logged_in_set_eventListener : keeps.

Lemma keeps_sound_launchUpdatesListener cfg : Keeps sound (launchUpdatesListener cfg).
Proof.
  unfold launchUpdatesListener.
  refine (keeps_bind_result sound sound
            (fun (li : bool) m => if li then sound_and_logged_in m else sound m)
            _ _ _ _).
  - intros o m H. apply login_leads, H.
  - intros [|] o m R; cbv beta; cbn [negb]; [|exact R].
    match goal with
    | |- sound (snd (?c o m)) => assert (K : Keeps sound_and_logged_in c)
    end.
    { unfold updatesUrl, debug, log_error, log_info, getNvrName. walk_keeps. }
    exact (proj1 (K o m R)).
Qed.
#[local] Hint Resolve keeps_sound_launchUpdatesListener : keeps.

Lemma bootstrap_failed_sound msg o m : sound (snd (bootstrap_failed msg o m)).
Proof. rewrite bootstrap_failed_eq. apply consistent_cleared. Qed.

Lemma consistent_set_bootstrap a uid cs lu nv us :
  consistent a = true -> loggedIn a = true ->
  consistent (set_bootstrap (Some {| authUserId := uid; cameras := Some cs;
                                     lastUpdateId := lu; nvr := nv; users := us |}) a)
  = true.
Proof.
  unfold consistent. cbn. intros C L. rewrite L in *. cbn.
  rewrite !implb_true_r. reflexivity.
Qed.

Lemma keeps_sound_bootstrapProtect cfg : Keeps sound (bootstrapProtect cfg).
Proof.
  intros o m H. pose proof (login_leads cfg o m H) as L.
  unfold bootstrapProtect, bind, bootstrapUrl, get, ret. cbv beta.
  destruct (login cfg o m) as [[[|]|e] m1]; cbn [fst snd negb] in *; try exact L.
  cbn.
  match goal with
  | |- context [fetch cfg ?u ?i true true o m1] =>
      pose proof (keeps_logged_in_fetch cfg u i true true o m1 L) as F;
      destruct (fetch cfg u i true true o m1) as [[[r|]|e] m2]
  end; cbn [fst snd] in *; [| apply bootstrap_failed_sound | exact (proj1 F)].
  destruct (ok r); cbn [negb]; [|apply bootstrap_failed_sound].
  destruct F as [C LI].
  unfold try_catch, throw, getNvrName, get, log_error, emit, bind, ret.
  destruct (json r) as [[|d|c]|]; cbn; try apply bootstrap_failed_sound.
  destruct d as [uid [cs|] lu nv us]; cbn; try apply bootstrap_failed_sound.
  pose proof (consistent_set_bootstrap (api m2) uid cs lu nv us C LI) as S.
  unfold modify, log_info, debug, emit, throw.
  destruct (bootstrap (api m2)); cbn; [|destruct nv; cbn; [|exact S]];
    match goal with
    | |- context [checkAdminUserStatus ?f o ?mm] =>
        pose proof (keeps_sound_checkAdminUserStatus f o mm S) as K;
        destruct (checkAdminUserStatus f o mm) as [[b|e] m3]
    end; cbn [fst snd] in *; try exact K;
    apply keeps_sound_launchUpdatesListener; exact K.
Qed.
#[local] Hint Resolve keeps_sound_bootstrapProtect : keeps.

Lemma keeps_sound_refreshDevices cfg : Keeps sound (refreshDevices cfg).
Proof. unfold refreshDevices, debug, log_info, getNvrName, getFullName. walk_keeps.
  all: unfold getNvrName; walk_keeps. Qed.

Lemma keeps_sound_checkCameraState cfg device : Keeps sound (checkCameraState cfg device).
Proof. unfold checkCameraState. walk_keeps. Qed.
#[local] Hint Resolve keeps_sound_checkCameraState : keeps.

Lemma keeps_sound_response_json r : Keeps sound (response_json r).
Proof. unfold response_json. walk_keeps. Qed.
#[local] Hint Resolve keeps_sound_response_json : keeps.

Lemma keeps_sound_updateChannels cfg device : Keeps sound (updateChannels cfg device).
Proof.
  unfold updateChannels, camerasUrl, incr_apiErrorCount, log_info, log_error,
    getFullName, getNvrName.
  walk_keeps.
Qed.
#[local] Hint Resolve keeps_sound_updateChannels : keeps.

Lemma keeps_sound_enableRtsp cfg device : Keeps sound (enableRtsp cfg device).
Proof. unfold enableRtsp. walk_keeps. Qed.

Lemma keeps_sound_updateCamera cfg device payload :
  Keeps sound (updateCamera cfg device payload).
Proof.
  unfold updateCamera, camerasUrl, incr_apiErrorCount, log_info, log_error,
    getFullName, getNvrName.
  walk_keeps.
Qed.

Lemma keeps_sound_loginFetch cfg url options logErrors decodeResponse :
  Keeps sound (loginFetch cfg url options logErrors decodeResponse).
Proof. unfold loginFetch. walk_keeps. Qed.

(** X24: the session stays consistent.  A new instance is consistent, and
    every method keeps it so, whatever the clock, the network and the socket
    do and whether the method returns or throws: the administrator flag is
    up only over a stored bootstrap, a bootstrap and a connection handle are
    held only while logged in, and a stored bootstrap has a camera list. *)
Theorem session_stays_consistent cfg o m :
  (forall address user pass,
     consistent (new_ProtectApi address user pass) = true) /\
  (consistent (api m) = true ->
  consistent (api (snd (clearLoginCredentials o m))) = true /\
  (forall url options logErrors decodeResponse,
     consistent (api (snd (fetch cfg url options logErrors decodeResponse o m))) = true /\
     consistent (api (snd (loginFetch cfg url options logErrors decodeResponse o m)))
       = true) /\
  consistent (api (snd (login cfg o m))) = true /\
  (forall firstRun, consistent (api (snd (checkAdminUserStatus firstRun o m))) = true) /\
  consistent (api (snd (launchUpdatesListener cfg o m))) = true /\
  consistent (api (snd (bootstrapProtect cfg o m))) = true /\
  consistent (api (snd (refreshDevices cfg o m))) = true /\
  (forall device,
     consistent (api (snd (checkCameraState cfg device o m))) = true /\
     consistent (api (snd (updateChannels cfg device o m))) = true /\
     consistent (api (snd (enableRtsp cfg device o m))) = true /\
     forall payload,
       consistent (api (snd (updateCamera cfg (Some device) payload o m))) = true /\
       consistent (api (snd (updateCamera cfg None payload o m))) = true)).
Proof.
  split; [reflexivity|]. intros H.
  split; [apply keeps_sound_clearLoginCredentials, H|].
  split; [intros; split; [apply keeps_sound_fetch | apply keeps_sound_loginFetch];
          exact H|].
  split; [apply keeps_sound_login, H|].
  split; [intros; apply keeps_sound_checkAdminUserStatus, H|].
  split; [apply keeps_sound_launchUpdatesListener, H|].
  split; [apply keeps_sound_bootstrapProtect, H|].
  split; [apply keeps_sound_refreshDevices, H|].
  intros device.
  split; [apply keeps_sound_checkCameraState, H|].
  split; [apply keeps_sound_updateChannels, H|].
  split; [apply keeps_sound_enableRtsp, H|].
  intros. split; apply keeps_sound_updateCamera, H.
Qed.

Lemma session_stays_consistent_witness :
  let o := steady 5000
             (Normal (response_of 200 (Some (JBootstrap (bootstrap_of ["camera:write"])))))
             (Normal (Some 9%nat)) in
  consistent (new_ProtectApi "nvr.local" "admin" "secret") = true /\
  consistent
    (api (snd (refreshDevices cfg0 o
                 (machine_of (new_ProtectApi "nvr.local" "admin" "secret"))))) = true.
Proof.
  cbv zeta.
  pose proof (session_stays_consistent cfg0
                (steady 5000
                   (Normal (response_of 200
                              (Some (JBootstrap (bootstrap_of ["camera:write"])))))
                   (Normal (Some 9%nat)))
                (machine_of (new_ProtectApi "nvr.local" "admin" "secret"))) as [N W].
  split; [apply N|].
  destruct (W (N _ _ _)) as (_ & _ & _ & _ & _ & _ & R & _). exact R.
Defined.

(** X26: a camera operation is let through only over a stored bootstrap.
    On a consistent instance, when checkCameraState answers true the
    instance is logged in, the user is an administrator, the device is a
    camera, and a bootstrap with a camera list is stored. *)
Theorem checkCameraState_true_has_a_bootstrap cfg device o m :
  consistent (api m) = true ->
  fst (checkCameraState cfg device o m) = Normal true ->
  let a := api (snd (checkCameraState cfg device o m)) in
  loggedIn a = true /\ isAdminUser a = true /\ cam_modelKey device = "camera" /\
  exists d cs, bootstrap a = Some d /\ cameras d = Some cs.
Proof.
  intros H T. cbv zeta.
  pose proof (keeps_sound_checkCameraState cfg device o m H) as K.
  destruct (login_never_throws cfg o m) as [li L].
  rewrite (checkCameraState_eq cfg device o m li L) in *. cbn [fst snd] in *.
  injection T as T. unfold camera_state_ok in T.
  apply andb_true_iff in T as [T M]. apply andb_true_iff in T as [-> A].
  apply String.eqb_eq in M.
  destruct (login_outcome_spec cfg o m) as [[_ LI]|[F _]]; [|congruence].
  split; [exact LI|]. split; [exact A|]. split; [exact M|].
  unfold sound, consistent in K. rewrite A in K.
  destruct (bootstrap (api (snd (login cfg o m)))) as [d|]; [|discriminate K].
  cbn in K. destruct (cameras d) as [cs|] eqn:C.
  - exists d, cs. auto.
  - rewrite !andb_false_r in K. discriminate K.
Qed.

Lemma checkCameraState_true_has_a_bootstrap_witness :
  let o := steady 5000 (Thrown AbortError) (Normal None) in
  let out := checkCameraState cfg0 camera0 o (machine_of api_admin_bootstrapped) in
  fst out = Normal true /\
  bootstrap (api (snd out)) = Some (bootstrap_of ["camera:write,read:*"]).
Proof.
  cbv zeta. split; [reflexivity|].
  destruct (checkCameraState_true_has_a_bootstrap cfg0 camera0
              (steady 5000 (Thrown AbortError) (Normal None))
              (machine_of api_admin_bootstrapped) eq_refl eq_refl)
    as (_ & _ & _ & d & cs & B & _).
  reflexivity.
Defined.

(** * The realtime socket *)

Lemma frames_sockets_clearLoginCredentials : Frames socketOpens clearLoginCredentials.
Proof. unfold clearLoginCredentials. walk_frames. Qed.
#[local] Hint Resolve frames_sockets_clearLoginCredentials : frames.

Lemma frames_sockets_fetch cfg url options logErrors decodeResponse :
  Frames socketOpens (fetch cfg url options logErrors decodeResponse).
Proof.
  unfold fetch, fetch_request, fetch_catch, incr_apiErrorCount, log_info, log_error,
    getNvrName.
  walk_frames.
Qed.
#[local] Hint Resolve frames_sockets_fetch : frames.

Lemma frames_sockets_acquireToken cfg : Frames socketOpens (acquireToken cfg).
Proof. unfold acquireToken. walk_frames. Qed.
#[local] Hint Resolve frames_sockets_acquireToken : frames.

Lemma frames_sockets_login cfg : Frames socketOpens (login cfg).
Proof. unfold login, loginWrapped, authUrl. walk_frames. Qed.

(** X23: launchUpdatesListener opens at most one socket, and only when it
    has to.  The login it starts with opens none.  When the login fails, or a
    handle is recorded after it, the call stops there.  Otherwise exactly one
    socket is opened, carrying the Cookie header of the session (the empty
    string when there is none), and nothing is sent to the network: a handle
    that opens is recorded and its handlers are registered; a falsy handle
    makes the call return false with the listener marked unconfigured; an
    error is logged and the handle stays cleared. *)
Theorem launchUpdatesListener_opens_one_socket cfg o m :
  let m1 := snd (login cfg o m) in
  let out := launchUpdatesListener cfg o m in
  let cookie := default "" (headers (api m1) !! "Cookie") in
  socketOpens m1 = socketOpens m /\
  (fst (login cfg o m) = Normal false \/ eventListener (api m1) <> None ->
     snd out = m1) /\
  (fst (login cfg o m) = Normal true -> eventListener (api m1) = None ->
     socketOpens (snd out) = S (socketOpens m) /\
     netCalls (snd out) = netCalls m1 /\
     clockReads (snd out) = clockReads m1 /\
     exists url evs,
       trace (snd out) =
         trace m1 ++ [EvDebug "Update listener"; EvSocketOpen url cookie] ++ evs /\
       match socket_at o (socketOpens m) with
       | Normal (Some w) =>
           fst out = Normal true /\
           api (snd out) = set_eventListener (Some w) (api m1) /\
           evs = [EvSocketHandlers w; EvInfo (MsgListenerConnected (nvrName (api m1)))]
       | Normal None =>
           fst out = Normal false /\
           api (snd out) =
             set_eventListenerConfigured false (set_eventListener None (api m1)) /\
           evs = [EvError MsgListenerUnable]
       | Thrown e =>
           fst out = Normal true /\
           api (snd out) = api m1 /\
           evs = [EvError (MsgListenerError (nvrName (api m1)) e)]
       end).
Proof.
  cbv zeta. pose proof (frames_sockets_login cfg o m) as S.
  split; [exact S|]. split.
  - intros [L|E].
    + rewrite (launch_login_failed _ _ _ L). reflexivity.
    + destruct (login_never_throws cfg o m) as [[|] L].
      * destruct (eventListener (api (snd (login cfg o m)))) as [ws|] eqn:W;
          [|destruct E; reflexivity].
        rewrite (launch_listener_recorded _ _ _ ws L W). reflexivity.
      * rewrite (launch_login_failed _ _ _ L). reflexivity.
  - intros L E. rewrite <- S. clear S.
    unfold launchUpdatesListener, bind. cbv beta.
    destruct (login cfg o m) as [l m1]. cbn [fst snd] in *. subst l. cbn [negb].
    unfold get, updatesUrl, debug, emit, try_catch, new_WebSocket, bind, ret, log_error,
      log_info, getNvrName, modify, emit, get. cbn. rewrite E. cbn.
    destruct (socket_at o (socketOpens m1)) as [[w|]|e]; cbn;
      repeat split; eexists _, _; rewrite <- ?app_assoc; cbn; repeat split.
Qed.

Lemma launchUpdatesListener_opens_one_socket_witness :
  let o := steady 5000 (Thrown AbortError) (Normal (Some 9%nat)) in
  let m := machine_of (set_eventListener None api_logged_in) in
  let out := launchUpdatesListener cfg0 o m in
  socketOpens (snd out) = 1%nat /\
  eventListener (api (snd out)) = Some 9%nat /\
  netCalls (snd out) = 0%nat.
Proof.
  cbv zeta.
  pose proof (launchUpdatesListener_opens_one_socket cfg0
                (steady 5000 (Thrown AbortError) (Normal (Some 9%nat)))
                (machine_of (set_eventListener None api_logged_in))) as W.
  cbv zeta in W. destruct W as (_ & _ & W).
  destruct (W eq_refl eq_refl) as (W1 & W2 & _ & url & evs & _ & W3).
  cbn in W3. destruct W3 as (_ & W3 & _).
  split; [exact W1|]. split; [rewrite W3; reflexivity|].
  rewrite W2. reflexivity.
Defined.
